(** * zForms event batching and delivery: queue.ts and storage.ts

    A shallow embedding of the [Storage] and [EventQueue] classes of the
    zForms tracking script, together with the part of the browser they
    talk to ([localStorage], [fetch], [navigator.sendBeacon],
    [setInterval]), and the properties of the batching and delivery
    subsystem proved about them.  The [zForms] class of index.ts, which
    feeds the queue from the handlers of the form events, follows, with
    its configuration and its session id.

    The page runs on one event loop.  Every method of the two classes runs
    to completion except [send], which suspends once, at [await fetch].
    A run of the page is therefore a list of [Action]s: calls of the
    public methods, timer and lifecycle callbacks, and the settling of an
    outstanding [fetch], which resumes the suspended [send]. *)

From Stdlib Require Import String.
From Stdlib Require Import List ZArith Lia Bool Arith PeanoNat.
Import ListNotations.

(** ** types.ts *)

Inductive EventType : Type :=
| ev_focus | ev_blur | ev_submit | ev_abandon | ev_error | ev_change
| ev_interaction.

Record Metadata : Type := {
  interaction_count : option Z;
  field_completed : option bool;
  validation_errors : option Z;
  field_position : option Z;
  total_fields : option Z;
  abandonment_field : option string
}.

Record zFormsEvent : Type := {
  form_id : string;
  field_id : string;
  event_type : EventType;
  time_spent_ms : option Z;
  session_id : string;
  timestamp : string;
  metadata : option Metadata
}.

Record EventBatch : Type := {
  project_key : string;
  events : list zFormsEvent
}.

(** ** Array primitives used by the two classes *)

(** [a.slice(-n)]: the last [n] elements of [a] (all of [a] when it is
    shorter). *)
Definition slice_last {A : Type} (n : nat) (a : list A) : list A :=
  skipn (length a - n) a.

(** [a.splice(0, n)] on an integer [n]: the delete count is clamped to
    [0 .. a.length]; the removed elements are returned and the rest stays
    in [a]. *)
Definition splice_removed {A : Type} (n : Z) (a : list A) : list A :=
  firstn (Z.to_nat n) a.

Definition splice_kept {A : Type} (n : Z) (a : list A) : list A :=
  skipn (Z.to_nat n) a.

(** ** The browser's localStorage, restricted to the key [zForms_events]

    What the key holds is either nothing, the JSON text of an array of
    events (identified with the array: [JSON.parse] inverts
    [JSON.stringify] on these plain records), or text that [JSON.parse]
    rejects.  [ls_denied] says that every access throws (storage blocked),
    [ls_full] that writes throw (quota exceeded). *)

Inductive Item : Type :=
| ItemAbsent
| ItemEvents (evs : list zFormsEvent)
| ItemGarbage.

Record LocalStorage : Type := {
  ls_item : Item;
  ls_denied : bool;
  ls_full : bool
}.

(** The three primitives; [None] stands for a thrown exception. *)
Definition getItem (ls : LocalStorage) : option Item :=
  if ls_denied ls then None else Some (ls_item ls).

Definition setItem (ls : LocalStorage) (v : list zFormsEvent)
  : option LocalStorage :=
  if ls_denied ls || ls_full ls then None
  else Some {| ls_item := ItemEvents v;
               ls_denied := ls_denied ls; ls_full := ls_full ls |}.

Definition removeItem (ls : LocalStorage) : option LocalStorage :=
  if ls_denied ls then None
  else Some {| ls_item := ItemAbsent;
               ls_denied := ls_denied ls; ls_full := ls_full ls |}.

(** ** storage.ts *)

Module Storage.

Definition MAX_STORED_EVENTS : nat := 1000.

Record t : Type := { isAvailable : bool }.

(** The probe writes and removes a key of its own, so it leaves
    [zForms_events] as it was; it fails when either step throws. *)
Definition checkStorageAvailability (ls : LocalStorage) : bool :=
  negb (ls_denied ls || ls_full ls).

Definition new (ls : LocalStorage) : t :=
  {| isAvailable := checkStorageAvailability ls |}.

Definition retrieve (s : t) (ls : LocalStorage) : list zFormsEvent :=
  if negb (isAvailable s) then []
  else match getItem ls with
       | None => []                       (* getItem threw: caught *)
       | Some ItemAbsent => []            (* stored is null *)
       | Some (ItemEvents evs) => evs     (* JSON.parse(stored) *)
       | Some ItemGarbage => []           (* JSON.parse threw: caught *)
       end.

Definition store (s : t) (evs : list zFormsEvent) (ls : LocalStorage)
  : LocalStorage :=
  if negb (isAvailable s) || (length evs =? 0) then ls
  else
    let existing := retrieve s ls in
    let combined := slice_last MAX_STORED_EVENTS (existing ++ evs) in
    match setItem ls combined with
    | Some ls' => ls'
    | None => ls                          (* setItem threw: caught *)
    end.

Definition clear (s : t) (ls : LocalStorage) : LocalStorage :=
  if negb (isAvailable s) then ls
  else match removeItem ls with
       | Some ls' => ls'
       | None => ls                       (* removeItem threw: caught *)
       end.

Definition count (s : t) (ls : LocalStorage) : nat :=
  length (retrieve s ls).

End Storage.

(** ** queue.ts: the object and the page around it *)

(** The fields of an [EventQueue] instance. *)
Record EventQueue : Type := {
  queue : list zFormsEvent;
  storage : Storage.t;
  apiUrl : string;
  projectKey : string;
  batchSize : Z;
  batchInterval : Z;
  sendTimer : option nat;
  isSending : bool;
  debug : bool
}.

(** A call that hands a payload to the network: a [fetch] POST or a
    [navigator.sendBeacon]. *)
Inductive Request : Type :=
| FetchPost (url : string) (body : EventBatch)
| BeaconPost (url : string) (body : EventBatch).

(** The page: the instance, the storage it persists to, the interval
    timers that are armed, the activations of [send] suspended at
    [await fetch] (each keeps its local [batch]), every call of [fetch]
    and of [navigator.sendBeacon] made so far (a beacon is recorded
    whether or not the platform accepts it), and the payloads the
    endpoint has taken (a [fetch] answered with an ok status, a beacon
    the platform accepted), both oldest first. *)
Record Page : Type := {
  this : EventQueue;
  localStorage : LocalStorage;
  intervals : list nat;
  next_interval : nat;
  awaiting : list (list zFormsEvent);
  outbox : list Request;
  received : list EventBatch
}.

Definition set_queue (v : list zFormsEvent) (p : Page) : Page :=
  {| this := {| queue := v; storage := storage (this p);
                apiUrl := apiUrl (this p); projectKey := projectKey (this p);
                batchSize := batchSize (this p);
                batchInterval := batchInterval (this p);
                sendTimer := sendTimer (this p);
                isSending := isSending (this p); debug := debug (this p) |};
     localStorage := localStorage p; intervals := intervals p;
     next_interval := next_interval p; awaiting := awaiting p;
     outbox := outbox p; received := received p |}.

Definition set_isSending (v : bool) (p : Page) : Page :=
  {| this := {| queue := queue (this p); storage := storage (this p);
                apiUrl := apiUrl (this p); projectKey := projectKey (this p);
                batchSize := batchSize (this p);
                batchInterval := batchInterval (this p);
                sendTimer := sendTimer (this p);
                isSending := v; debug := debug (this p) |};
     localStorage := localStorage p; intervals := intervals p;
     next_interval := next_interval p; awaiting := awaiting p;
     outbox := outbox p; received := received p |}.

Definition set_sendTimer (v : option nat) (p : Page) : Page :=
  {| this := {| queue := queue (this p); storage := storage (this p);
                apiUrl := apiUrl (this p); projectKey := projectKey (this p);
                batchSize := batchSize (this p);
                batchInterval := batchInterval (this p);
                sendTimer := v;
                isSending := isSending (this p); debug := debug (this p) |};
     localStorage := localStorage p; intervals := intervals p;
     next_interval := next_interval p; awaiting := awaiting p;
     outbox := outbox p; received := received p |}.

Definition set_localStorage (v : LocalStorage) (p : Page) : Page :=
  {| this := this p; localStorage := v; intervals := intervals p;
     next_interval := next_interval p; awaiting := awaiting p;
     outbox := outbox p; received := received p |}.

Definition set_intervals (v : list nat) (n : nat) (p : Page) : Page :=
  {| this := this p; localStorage := localStorage p; intervals := v;
     next_interval := n; awaiting := awaiting p;
     outbox := outbox p; received := received p |}.

Definition set_awaiting (v : list (list zFormsEvent)) (p : Page) : Page :=
  {| this := this p; localStorage := localStorage p;
     intervals := intervals p; next_interval := next_interval p;
     awaiting := v; outbox := outbox p; received := received p |}.

Definition issue (r : Request) (p : Page) : Page :=
  {| this := this p; localStorage := localStorage p;
     intervals := intervals p; next_interval := next_interval p;
     awaiting := awaiting p; outbox := outbox p ++ [r];
     received := received p |}.

Definition deliver (b : EventBatch) (p : Page) : Page :=
  {| this := this p; localStorage := localStorage p;
     intervals := intervals p; next_interval := next_interval p;
     awaiting := awaiting p; outbox := outbox p;
     received := received p ++ [b] |}.

(** [window.setInterval] hands out a fresh positive id and arms it;
    [clearInterval] disarms one. *)
Definition setInterval (p : Page) : nat * Page :=
  (next_interval p,
   set_intervals (intervals p ++ [next_interval p]) (S (next_interval p)) p).

Definition clearInterval (id : nat) (p : Page) : Page :=
  set_intervals (filter (fun i => negb (i =? id)) (intervals p))
                (next_interval p) p.

(** Removes the [k]-th element of a list. *)
Definition remove_nth {A : Type} (k : nat) (l : list A) : list A :=
  firstn k l ++ skipn (S k) l.

(** ** queue.ts: the methods *)

Definition payload (p : Page) (evs : list zFormsEvent) : EventBatch :=
  {| project_key := projectKey (this p); events := evs |}.

(** [send], from its call up to the suspension at [await fetch]: the
    guard, the flag, the splice and the request.  The activation then
    waits in [awaiting] with its [batch]. *)
Definition send (p : Page) : Page :=
  if isSending (this p) || (length (queue (this p)) =? 0) then p
  else
    let p1 := set_isSending true p in
    let batch := splice_removed (batchSize (this p1)) (queue (this p1)) in
    let p2 := set_queue (splice_kept (batchSize (this p1)) (queue (this p1)))
                        p1 in
    let p3 := issue (FetchPost (apiUrl (this p2)) (payload p2 batch)) p2 in
    set_awaiting (awaiting p3 ++ [batch]) p3.

(** The rest of [send], run when the [fetch] of the [k]-th suspended
    activation settles.  [ok] is [response.ok]; [false] stands for a
    response with another status and for a rejected promise alike, both
    of which end in the [catch] block.  The [finally] block runs last in
    either case. *)
Definition send_resume (k : nat) (ok : bool) (p : Page) : Page :=
  match nth_error (awaiting p) k with
  | None => p
  | Some batch =>
      let p1 := set_awaiting (remove_nth k (awaiting p)) p in
      let p2 :=
        if ok then deliver (payload p1 batch) p1
        else
          let p' := set_localStorage
                      (Storage.store (storage (this p1)) batch
                                     (localStorage p1)) p1 in
          set_queue (batch ++ queue (this p')) p' in
      set_isSending false p2
  end.

(** [sendBeacon]; [accepted] is what [navigator.sendBeacon] returns. *)
Definition sendBeacon (accepted : bool) (p : Page) : Page :=
  if length (queue (this p)) =? 0 then p
  else
    let body := payload p (queue (this p)) in
    let p1 := issue (BeaconPost (apiUrl (this p)) body) p in
    if accepted then set_queue [] (deliver body p1)
    else set_localStorage
           (Storage.store (storage (this p1)) (queue (this p1))
                          (localStorage p1)) p1.

Definition add (e : zFormsEvent) (p : Page) : Page :=
  let p1 := set_queue (queue (this p) ++ [e]) p in
  if (Z.of_nat (length (queue (this p1))) >=? batchSize (this p1))%Z
  then send p1 else p1.

Definition loadStoredEvents (p : Page) : Page :=
  let stored := Storage.retrieve (storage (this p)) (localStorage p) in
  if 0 <? length stored then
    let p1 := set_queue (queue (this p) ++ stored) p in
    set_localStorage (Storage.clear (storage (this p1)) (localStorage p1)) p1
  else p.

(** The callback armed by [startBatchTimer]. *)
Definition timer_callback (p : Page) : Page :=
  if 0 <? length (queue (this p)) then send p else p.

(** A timer id is truthy unless it is [0]. *)
Definition startBatchTimer (p : Page) : Page :=
  let p1 := match sendTimer (this p) with
            | Some id => if negb (id =? 0) then clearInterval id p else p
            | None => p
            end in
  let (id, p2) := setInterval p1 in
  set_sendTimer (Some id) p2.

Definition flushAsync (p : Page) : Page :=
  if 0 <? length (queue (this p)) then send p else p.

Definition flush (p : Page) : Page :=
  if 0 <? length (queue (this p)) then send p else p.

Definition destroy (p : Page) : Page :=
  let p1 := match sendTimer (this p) with
            | Some id =>
                if negb (id =? 0)
                then set_sendTimer None (clearInterval id p)
                else p
            | None => p
            end in
  flush p1.

(** The constructor, on a freshly loaded page whose storage is [ls].
    An argument left out ([None]) takes its default.
    [setupUnloadHandler] only registers the three listeners, which are
    never removed; they are the [Lifecycle] actions below. *)
Definition new_EventQueue (url key : string) (size interval : option Z)
    (dbg : option bool) (ls : LocalStorage) : Page :=
  let obj := {| queue := []; storage := Storage.new ls;
                apiUrl := url; projectKey := key;
                batchSize := match size with Some n => n | None => 10%Z end;
                batchInterval :=
                  match interval with Some n => n | None => 5000%Z end;
                sendTimer := None; isSending := false;
                debug := match dbg with Some b => b | None => false end |} in
  let p := {| this := obj; localStorage := ls; intervals := [];
              next_interval := 1; awaiting := []; outbox := [];
              received := [] |} in
  startBatchTimer (loadStoredEvents p).

(** ** Runs of the page *)

Inductive Signal : Type :=
| VisibilityChange (hidden : bool)
| BeforeUnload
| PageHide.

Inductive Action : Type :=
| Add (e : zFormsEvent)
| Flush
| FlushAsync
| Destroy
| TimerFire (id : nat)
| Lifecycle (s : Signal) (accepted : bool)
| FetchSettles (k : nat) (ok : bool).

Definition step (a : Action) (p : Page) : Page :=
  match a with
  | Add e => add e p
  | Flush => flush p
  | FlushAsync => flushAsync p
  | Destroy => destroy p
  | TimerFire id =>
      if existsb (Nat.eqb id) (intervals p) then timer_callback p else p
  | Lifecycle (VisibilityChange hidden) accepted =>
      if hidden then sendBeacon accepted p else p
  | Lifecycle BeforeUnload accepted => sendBeacon accepted p
  | Lifecycle PageHide accepted => sendBeacon accepted p
  | FetchSettles k ok => send_resume k ok p
  end.

Fixpoint run (acts : list Action) (p : Page) : Page :=
  match acts with
  | [] => p
  | a :: rest => run rest (step a p)
  end.

(** A page is reachable when a run from a fresh instance leads to it. *)
Definition reachable (p : Page) : Prop :=
  exists url key size interval dbg ls acts,
    p = run acts (new_EventQueue url key size interval dbg ls).

(** The events the endpoint has taken, and the fetch requests issued, in
    order. *)
Definition received_events (p : Page) : list zFormsEvent :=
  flat_map events (received p).

Definition fetch_batches (rs : list Request) : list (list zFormsEvent) :=
  flat_map (fun r => match r with
                     | FetchPost _ b => [events b]
                     | BeaconPost _ _ => []
                     end) rs.

Definition beacon_batches (rs : list Request) : list (list zFormsEvent) :=
  flat_map (fun r => match r with
                     | FetchPost _ _ => []
                     | BeaconPost _ b => [events b]
                     end) rs.

(** * index.ts: the tracker that feeds the scheduler

    The [zForms] class keeps a state per tracked form and field and turns
    DOM events into calls of [EventQueue.add].  What the DOM and the clock
    supply is passed to each handler: [now] is [Date.now()], [iso] is
    [new Date().toISOString()], and [live] is what dereferencing the
    field's element gives, [None] when the element is gone and otherwise
    the value of [hasFieldValue] on it. *)

(** ** types.ts: the state records *)

Module FormFieldState.

Record t : Type := {
  field_id : string;
  focus_time : option Z;
  last_event : option EventType;
  interaction_count : Z;
  total_time_spent : Z;
  has_value : bool;
  validation_errors : Z;
  field_element : nat;
  blur_debounce_timer : option nat
}.

End FormFieldState.

Module FormState.

Record t : Type := {
  form_id : string;
  field_states : list (string * FormFieldState.t);
  submitted : bool;
  last_focused_field : option string;
  total_fields : Z
}.

End FormState.

(** A [Map] with string keys keeps its entries in insertion order, and
    [set] on a key that is present replaces the value where it stands. *)
Fixpoint map_get {V : Type} (k : string) (m : list (string * V))
  : option V :=
  match m with
  | [] => None
  | (k', v) :: rest => if String.eqb k k' then Some v else map_get k rest
  end.

Fixpoint map_set {V : Type} (k : string) (v : V) (m : list (string * V))
  : list (string * V) :=
  match m with
  | [] => [(k, v)]
  | (k', v') :: rest =>
      if String.eqb k k' then (k, v) :: rest
      else (k', v') :: map_set k v rest
  end.

Definition map_has {V : Type} (k : string) (m : list (string * V)) : bool :=
  match map_get k m with Some _ => true | None => false end.

(** The fields of a [zForms] instance.  [queue] holds the page of its
    [EventQueue]; [mutationObserver] says whether an observer is held. *)
Module zForms.

Record t : Type := {
  queue : Page;
  sessionId : string;
  formStates : list (string * FormState.t);
  initialized : bool;
  mutationObserver : bool
}.

End zForms.

(** The instance within its window: the [setTimeout] callbacks that are
    pending, each a blur callback with the form, field and position it
    closed over, and the next timer id. *)
Record BlurTask : Type := {
  task_form : string;
  task_field : string;
  task_position : Z
}.

Record Window : Type := {
  instance : zForms.t;
  timeouts : list (nat * BlurTask);
  next_timeout : nat
}.

(** ** Truthiness, as the handlers test it *)

Definition truthy_string (s : option string) : bool :=
  match s with
  | Some s' => negb (String.eqb s' "")
  | None => false
  end.

Definition truthy_number (n : option Z) : bool :=
  match n with
  | Some z => negb (Z.eqb z 0)
  | None => false
  end.

Definition truthy_timer (t : option nat) : bool :=
  match t with
  | Some id => negb (id =? 0)
  | None => false
  end.

(** [x || d] on numbers. *)
Definition or_number (x : option Z) (d : Z) : Z :=
  match x with
  | Some z => if Z.eqb z 0 then d else z
  | None => d
  end.

(** ** The handlers *)

Definition set_formStates (m : list (string * FormState.t)) (z : zForms.t)
  : zForms.t :=
  {| zForms.queue := zForms.queue z; zForms.sessionId := zForms.sessionId z;
     zForms.formStates := m; zForms.initialized := zForms.initialized z;
     zForms.mutationObserver := zForms.mutationObserver z |}.

Definition trackEvent (e : zFormsEvent) (z : zForms.t) : zForms.t :=
  {| zForms.queue := add e (zForms.queue z);
     zForms.sessionId := zForms.sessionId z;
     zForms.formStates := zForms.formStates z;
     zForms.initialized := zForms.initialized z;
     zForms.mutationObserver := zForms.mutationObserver z |}.

Definition queue_flush (z : zForms.t) : zForms.t :=
  {| zForms.queue := flush (zForms.queue z);
     zForms.sessionId := zForms.sessionId z;
     zForms.formStates := zForms.formStates z;
     zForms.initialized := zForms.initialized z;
     zForms.mutationObserver := zForms.mutationObserver z |}.

(** Writes the field state [fs] and the last focused field [lf] into the
    form [formId], whose state is [f]: the effect of assigning to the
    objects the two maps hold. *)
Definition put_field (formId fieldId : string) (f : FormState.t)
    (fs : FormFieldState.t) (lf : option string) (z : zForms.t) : zForms.t :=
  set_formStates
    (map_set formId
       {| FormState.form_id := FormState.form_id f;
          FormState.field_states :=
            map_set fieldId fs (FormState.field_states f);
          FormState.submitted := FormState.submitted f;
          FormState.last_focused_field := lf;
          FormState.total_fields := FormState.total_fields f |}
       (zForms.formStates z))
    z.

Definition no_metadata : Metadata :=
  {| interaction_count := None; field_completed := None;
     validation_errors := None; field_position := None;
     total_fields := None; abandonment_field := None |}.

Definition handleFocus (formId fieldId : string) (fieldPosition : Z)
    (now : Z) (iso : string) (z : zForms.t) : zForms.t :=
  match map_get formId (zForms.formStates z) with
  | None => z
  | Some formState =>
      match map_get fieldId (FormState.field_states formState) with
      | None => z
      | Some fieldState =>
          let count := (FormFieldState.interaction_count fieldState + 1)%Z in
          let fieldState' :=
            {| FormFieldState.field_id := FormFieldState.field_id fieldState;
               FormFieldState.focus_time := Some now;
               FormFieldState.last_event := Some ev_focus;
               FormFieldState.interaction_count := count;
               FormFieldState.total_time_spent :=
                 FormFieldState.total_time_spent fieldState;
               FormFieldState.has_value := FormFieldState.has_value fieldState;
               FormFieldState.validation_errors :=
                 FormFieldState.validation_errors fieldState;
               FormFieldState.field_element :=
                 FormFieldState.field_element fieldState;
               FormFieldState.blur_debounce_timer :=
                 FormFieldState.blur_debounce_timer fieldState |} in
          let z' := put_field formId fieldId formState fieldState'
                              (Some fieldId) z in
          if (count =? 1)%Z then
            trackEvent
              {| form_id := formId; field_id := fieldId;
                 event_type := ev_interaction; time_spent_ms := None;
                 session_id := zForms.sessionId z'; timestamp := iso;
                 metadata :=
                   Some {| interaction_count := None;
                           field_completed := None;
                           validation_errors := None;
                           field_position := Some fieldPosition;
                           total_fields :=
                             Some (FormState.total_fields formState);
                           abandonment_field := None |} |}
              z'
          else z'
      end
  end.

Definition handleChange (formId fieldId : string) (live : option bool)
    (iso : string) (z : zForms.t) : zForms.t :=
  match map_get formId (zForms.formStates z) with
  | None => z
  | Some formState =>
      match map_get fieldId (FormState.field_states formState) with
      | None => z
      | Some fieldState =>
          match live with
          | None => z
          | Some value =>
              let hadValue := FormFieldState.has_value fieldState in
              let fieldState' :=
                {| FormFieldState.field_id :=
                     FormFieldState.field_id fieldState;
                   FormFieldState.focus_time :=
                     FormFieldState.focus_time fieldState;
                   FormFieldState.last_event :=
                     FormFieldState.last_event fieldState;
                   FormFieldState.interaction_count :=
                     FormFieldState.interaction_count fieldState;
                   FormFieldState.total_time_spent :=
                     FormFieldState.total_time_spent fieldState;
                   FormFieldState.has_value := value;
                   FormFieldState.validation_errors :=
                     FormFieldState.validation_errors fieldState;
                   FormFieldState.field_element :=
                     FormFieldState.field_element fieldState;
                   FormFieldState.blur_debounce_timer :=
                     FormFieldState.blur_debounce_timer fieldState |} in
              let z' := put_field formId fieldId formState fieldState'
                          (FormState.last_focused_field formState) z in
              if negb hadValue && value then
                trackEvent
                  {| form_id := formId; field_id := fieldId;
                     event_type := ev_change; time_spent_ms := None;
                     session_id := zForms.sessionId z'; timestamp := iso;
                     metadata :=
                       Some {| interaction_count := None;
                               field_completed := Some true;
                               validation_errors := None;
                               field_position := None;
                               total_fields := None;
                               abandonment_field := None |} |}
                  z'
              else z'
          end
      end
  end.

Definition handleError (formId fieldId : string) (iso : string)
    (z : zForms.t) : zForms.t :=
  match map_get formId (zForms.formStates z) with
  | None => z
  | Some formState =>
      let found := map_get fieldId (FormState.field_states formState) in
      let found' :=
        match found with
        | Some fieldState =>
            Some
              {| FormFieldState.field_id :=
                   FormFieldState.field_id fieldState;
                 FormFieldState.focus_time :=
                   FormFieldState.focus_time fieldState;
                 FormFieldState.last_event :=
                   FormFieldState.last_event fieldState;
                 FormFieldState.interaction_count :=
                   FormFieldState.interaction_count fieldState;
                 FormFieldState.total_time_spent :=
                   FormFieldState.total_time_spent fieldState;
                 FormFieldState.has_value :=
                   FormFieldState.has_value fieldState;
                 FormFieldState.validation_errors :=
                   (FormFieldState.validation_errors fieldState + 1)%Z;
                 FormFieldState.field_element :=
                   FormFieldState.field_element fieldState;
                 FormFieldState.blur_debounce_timer :=
                   FormFieldState.blur_debounce_timer fieldState |}
        | None => None
        end in
      let z' :=
        match found' with
        | Some fieldState' =>
            put_field formId fieldId formState fieldState'
                      (FormState.last_focused_field formState) z
        | None => z
        end in
      trackEvent
        {| form_id := formId; field_id := fieldId;
           event_type := ev_error; time_spent_ms := None;
           session_id := zForms.sessionId z'; timestamp := iso;
           metadata :=
             Some {| interaction_count := None;
                     field_completed := None;
                     validation_errors :=
                       Some (or_number
                               (option_map FormFieldState.validation_errors
                                           found') 1);
                     field_position := None;
                     total_fields := None;
                     abandonment_field := None |} |}
        z'
  end.

(** The sums the handlers take over the field states of a form, each a
    [forEach] with an accumulator. *)
Definition completedFields (m : list (string * FormFieldState.t)) : Z :=
  fold_left (fun acc kv =>
               if FormFieldState.has_value (snd kv) then (acc + 1)%Z else acc)
            m 0%Z.

Definition totalInteractions (m : list (string * FormFieldState.t)) : Z :=
  fold_left (fun acc kv =>
               (acc + FormFieldState.interaction_count (snd kv))%Z)
            m 0%Z.

Definition totalTimeSpent (m : list (string * FormFieldState.t)) : Z :=
  fold_left (fun acc kv =>
               (acc + FormFieldState.total_time_spent (snd kv))%Z)
            m 0%Z.

Definition fieldsWithErrors (m : list (string * FormFieldState.t)) : Z :=
  fold_left (fun acc kv =>
               if (FormFieldState.validation_errors (snd kv) >? 0)%Z
               then (acc + 1)%Z else acc)
            m 0%Z.

(** The position of the field [k] among the keys, [0] when it is not
    there: the loop of [trackAbandonment] with its [break]. *)
Fixpoint position_from {V : Type} (k : string) (m : list (string * V))
    (currentIndex : Z) : Z :=
  match m with
  | [] => 0%Z
  | (k', _) :: rest =>
      if String.eqb k' k then currentIndex
      else position_from k rest (currentIndex + 1)%Z
  end.

Definition abandonmentPosition {V : Type} (k : string)
    (m : list (string * V)) : Z :=
  position_from k m 0%Z.

Definition handleSubmit (formId : string) (iso : string) (z : zForms.t)
  : zForms.t :=
  let formState := map_get formId (zForms.formStates z) in
  let z1 :=
    match formState with
    | Some f =>
        set_formStates
          (map_set formId
             {| FormState.form_id := FormState.form_id f;
                FormState.field_states := FormState.field_states f;
                FormState.submitted := true;
                FormState.last_focused_field :=
                  FormState.last_focused_field f;
                FormState.total_fields := FormState.total_fields f |}
             (zForms.formStates z))
          z
    | None => z
    end in
  let completed :=
    match formState with
    | Some f => completedFields (FormState.field_states f)
    | None => 0%Z
    end in
  let interactions :=
    match formState with
    | Some f => totalInteractions (FormState.field_states f)
    | None => 0%Z
    end in
  let total := or_number (option_map FormState.total_fields formState) 0 in
  queue_flush
    (trackEvent
       {| form_id := formId; field_id := "__form__";
          event_type := ev_submit; time_spent_ms := None;
          session_id := zForms.sessionId z1; timestamp := iso;
          metadata :=
            Some {| interaction_count := Some interactions;
                    field_completed := Some (completed =? total)%Z;
                    validation_errors := None;
                    field_position := None;
                    total_fields := Some total;
                    abandonment_field := None |} |}
       z1).

(** The abandon event of one form, for a form that is eligible. *)
Definition abandon_event (formId last : string) (f : FormState.t)
    (session iso : string) : zFormsEvent :=
  {| form_id := formId; field_id := last;
     event_type := ev_abandon;
     time_spent_ms := Some (totalTimeSpent (FormState.field_states f));
     session_id := session; timestamp := iso;
     metadata :=
       Some {| interaction_count :=
                 Some (totalInteractions (FormState.field_states f));
               field_completed :=
                 Some (completedFields (FormState.field_states f)
                       =? FormState.total_fields f)%Z;
               validation_errors :=
                 Some (fieldsWithErrors (FormState.field_states f));
               field_position :=
                 Some (abandonmentPosition last (FormState.field_states f));
               total_fields := Some (FormState.total_fields f);
               abandonment_field := Some last |} |}.

(** The body of the [forEach] of [trackAbandonment] for one form; [iso]
    is the timestamp read if an event is made.  In [trackAbandonment]
    itself [iso formId] is the timestamp read while the form [formId] is
    visited. *)
Definition abandon_one (formId : string) (f : FormState.t) (iso : string)
    (z : zForms.t) : zForms.t :=
  if FormState.submitted f then z
  else
    match FormState.last_focused_field f with
    | Some last =>
        if String.eqb last "" then z
        else trackEvent (abandon_event formId last f (zForms.sessionId z) iso)
                        z
    | None => z
    end.

Fixpoint abandon_each (forms : list (string * FormState.t))
    (iso : string -> string) (z : zForms.t) : zForms.t :=
  match forms with
  | [] => z
  | (formId, f) :: rest =>
      abandon_each rest iso (abandon_one formId f (iso formId) z)
  end.

Definition trackAbandonment (iso : string -> string) (z : zForms.t)
  : zForms.t :=
  queue_flush (abandon_each (zForms.formStates z) iso z).

(** The seven names [track] accepts, and the event type each stands
    for. *)
Definition EventType_name (t : EventType) : string :=
  match t with
  | ev_focus => "focus"
  | ev_blur => "blur"
  | ev_submit => "submit"
  | ev_abandon => "abandon"
  | ev_error => "error"
  | ev_change => "change"
  | ev_interaction => "interaction"
  end.

Definition valid_event_types : list EventType :=
  [ev_focus; ev_blur; ev_submit; ev_abandon; ev_error; ev_change;
   ev_interaction].

Definition EventType_of_string (s : string) : option EventType :=
  find (fun t => String.eqb (EventType_name t) s) valid_event_types.

Definition track (formId fieldId eventType : string) (iso : string)
    (z : zForms.t) : zForms.t :=
  if negb (existsb (String.eqb eventType)
                   (map EventType_name valid_event_types))
  then z
  else
    match EventType_of_string eventType with
    | Some t =>
        trackEvent
          {| form_id := formId; field_id := fieldId; event_type := t;
             time_spent_ms := None; session_id := zForms.sessionId z;
             timestamp := iso; metadata := None |}
          z
    | None => z
    end.

(** One entry of what [getSessionAnalytics] returns. *)
Record FormAnalytics : Type := {
  a_form_id : string;
  a_total_fields : Z;
  a_completed_fields : Z;
  a_total_interactions : Z;
  a_total_time_spent : Z;
  a_submitted : bool
}.

Definition getSessionAnalytics (z : zForms.t)
  : string * list FormAnalytics :=
  (zForms.sessionId z,
   map (fun kv =>
          let formState := snd kv in
          {| a_form_id := FormState.form_id formState;
             a_total_fields := FormState.total_fields formState;
             a_completed_fields :=
               completedFields (FormState.field_states formState);
             a_total_interactions :=
               totalInteractions (FormState.field_states formState);
             a_total_time_spent :=
               totalTimeSpent (FormState.field_states formState);
             a_submitted := FormState.submitted formState |})
       (zForms.formStates z)).

(** [attachFormListeners], for a form whose id is [formId] and whose
    tracked fields are [fields], each with its id, its element and
    whether it has a value. *)
Definition initial_field (fieldId : string) (element : nat) (value : bool)
  : FormFieldState.t :=
  {| FormFieldState.field_id := fieldId;
     FormFieldState.focus_time := None;
     FormFieldState.last_event := None;
     FormFieldState.interaction_count := 0;
     FormFieldState.total_time_spent := 0;
     FormFieldState.has_value := value;
     FormFieldState.validation_errors := 0;
     FormFieldState.field_element := element;
     FormFieldState.blur_debounce_timer := None |}.

Definition attachFormListeners (formId : string)
    (fields : list (string * nat * bool)) (z : zForms.t) : zForms.t :=
  if map_has formId (zForms.formStates z) then z
  else
    set_formStates
      (map_set formId
         {| FormState.form_id := formId;
            FormState.field_states :=
              fold_left
                (fun m f =>
                   match f with
                   | (fieldId, element, value) =>
                       map_set fieldId (initial_field fieldId element value) m
                   end)
                fields [];
            FormState.submitted := false;
            FormState.last_focused_field := None;
            FormState.total_fields := Z.of_nat (length fields) |}
         (zForms.formStates z))
      z.

(** ** Blur, debounced, and teardown: handlers that use timeouts *)

Definition set_instance (z : zForms.t) (w : Window) : Window :=
  {| instance := z; timeouts := timeouts w; next_timeout := next_timeout w |}.

Definition clearTimeout (id : nat) (w : Window) : Window :=
  {| instance := instance w;
     timeouts := filter (fun t => negb (fst t =? id)) (timeouts w);
     next_timeout := next_timeout w |}.

Definition setTimeout (task : BlurTask) (w : Window) : nat * Window :=
  (next_timeout w,
   {| instance := instance w;
      timeouts := timeouts w ++ [(next_timeout w, task)];
      next_timeout := S (next_timeout w) |}).

Definition with_blur_timer (t : option nat) (fs : FormFieldState.t)
  : FormFieldState.t :=
  {| FormFieldState.field_id := FormFieldState.field_id fs;
     FormFieldState.focus_time := FormFieldState.focus_time fs;
     FormFieldState.last_event := FormFieldState.last_event fs;
     FormFieldState.interaction_count := FormFieldState.interaction_count fs;
     FormFieldState.total_time_spent := FormFieldState.total_time_spent fs;
     FormFieldState.has_value := FormFieldState.has_value fs;
     FormFieldState.validation_errors := FormFieldState.validation_errors fs;
     FormFieldState.field_element := FormFieldState.field_element fs;
     FormFieldState.blur_debounce_timer := t |}.

Definition handleBlur (formId fieldId : string) (fieldPosition : Z)
    (w : Window) : Window :=
  match map_get formId (zForms.formStates (instance w)) with
  | None => w
  | Some formState =>
      match map_get fieldId (FormState.field_states formState) with
      | None => w
      | Some fieldState =>
          if negb (truthy_number (FormFieldState.focus_time fieldState))
          then w
          else
            let w1 :=
              match FormFieldState.blur_debounce_timer fieldState with
              | Some id => if negb (id =? 0) then clearTimeout id w else w
              | None => w
              end in
            let (id, w2) :=
              setTimeout {| task_form := formId; task_field := fieldId;
                            task_position := fieldPosition |} w1 in
            set_instance
              (put_field formId fieldId formState
                         (with_blur_timer (Some id) fieldState)
                         (FormState.last_focused_field formState)
                         (instance w2))
              w2
      end
  end.

(** The callback of [handleBlur], run when the timeout [id] fires.  It
    works on the field state the handler found, which is the one the maps
    hold as long as the form is tracked. *)
Definition blur_callback (id : nat) (now : Z) (live : option bool)
    (iso : string) (w : Window) : Window :=
  match find (fun t => fst t =? id) (timeouts w) with
  | None => w
  | Some (_, task) =>
      let w1 := clearTimeout id w in
      let z := instance w1 in
      match map_get (task_form task) (zForms.formStates z) with
      | None => w1
      | Some formState =>
          match map_get (task_field task) (FormState.field_states formState)
          with
          | None => w1
          | Some fieldState =>
              let timeSpent :=
                (now - match FormFieldState.focus_time fieldState with
                       | Some t => t
                       | None => 0
                       end)%Z in
              let fieldState' :=
                {| FormFieldState.field_id :=
                     FormFieldState.field_id fieldState;
                   FormFieldState.focus_time := None;
                   FormFieldState.last_event := Some ev_blur;
                   FormFieldState.interaction_count :=
                     FormFieldState.interaction_count fieldState;
                   FormFieldState.total_time_spent :=
                     (FormFieldState.total_time_spent fieldState
                      + timeSpent)%Z;
                   FormFieldState.has_value :=
                     match live with
                     | Some value => value
                     | None => FormFieldState.has_value fieldState
                     end;
                   FormFieldState.validation_errors :=
                     FormFieldState.validation_errors fieldState;
                   FormFieldState.field_element :=
                     FormFieldState.field_element fieldState;
                   FormFieldState.blur_debounce_timer := None |} in
              let z' := put_field (task_form task) (task_field task)
                          formState fieldState'
                          (FormState.last_focused_field formState) z in
              set_instance
                (if (timeSpent >? 500)%Z then
                   trackEvent
                     {| form_id := task_form task;
                        field_id := task_field task;
                        event_type := ev_blur;
                        time_spent_ms := Some timeSpent;
                        session_id := zForms.sessionId z';
                        timestamp := iso;
                        metadata :=
                          Some {| interaction_count :=
                                    Some (FormFieldState.interaction_count
                                            fieldState');
                                  field_completed :=
                                    Some (FormFieldState.has_value
                                            fieldState');
                                  validation_errors :=
                                    Some (FormFieldState.validation_errors
                                            fieldState');
                                  field_position :=
                                    Some (task_position task);
                                  total_fields :=
                                    Some (FormState.total_fields formState);
                                  abandonment_field := None |} |}
                     z'
                 else z')
                w1
          end
      end
  end.

(** [zForms.destroy]: the observer is dropped, the blur timers the
    field states hold are cleared, the queue is torn down and the form
    states are forgotten. *)
Definition timers_held (forms : list (string * FormState.t)) : list nat :=
  flat_map
    (fun kv =>
       flat_map
         (fun fv =>
            match FormFieldState.blur_debounce_timer (snd fv) with
            | Some id => if negb (id =? 0) then [id] else []
            | None => []
            end)
         (FormState.field_states (snd kv)))
    forms.

Definition zForms_destroy (w : Window) : Window :=
  let w1 := fold_left (fun acc id => clearTimeout id acc)
                      (timers_held (zForms.formStates (instance w))) w in
  set_instance
    {| zForms.queue := destroy (zForms.queue (instance w1));
       zForms.sessionId := zForms.sessionId (instance w1);
       zForms.formStates := [];
       zForms.initialized := false;
       zForms.mutationObserver := false |}
    w1.

(** * index.ts: configuration and session *)

(** ** The configuration: constructor and auto-initialization

    A key of an object literal is absent ([None]) or present, and a present
    key may hold [undefined] ([Some None]).  The spread [{ k: d, ...config }]
    keeps [d] only where [config] has no key [k]. *)

Definition Key (A : Type) : Type := option (option A).

Module zFormsConfig.

Record t : Type := {
  project_key : string;
  api_url : Key string;
  batch_size : Key Z;
  batch_interval : Key Z;
  debug : Key bool;
  track_changes : Key bool;
  debounce_time : Key Z
}.

End zFormsConfig.

Definition spread {A : Type} (d : A) (k : Key A) : Key A :=
  match k with
  | None => Some (Some d)
  | Some v => Some v
  end.

(** Reading [config.k]: [undefined] when the key is absent. *)
Definition read {A : Type} (k : Key A) : option A :=
  match k with
  | Some v => v
  | None => None
  end.

Definition default_api_url : string := "https://zForms.xyz/api/zForms/events".

(** [this.config] as the constructor builds it. *)
Definition merged_config (config : zFormsConfig.t) : zFormsConfig.t :=
  {| zFormsConfig.project_key := zFormsConfig.project_key config;
     zFormsConfig.api_url :=
       spread default_api_url (zFormsConfig.api_url config);
     zFormsConfig.batch_size := spread 10%Z (zFormsConfig.batch_size config);
     zFormsConfig.batch_interval :=
       spread 5000%Z (zFormsConfig.batch_interval config);
     zFormsConfig.debug := spread false (zFormsConfig.debug config);
     zFormsConfig.track_changes :=
       spread false (zFormsConfig.track_changes config);
     zFormsConfig.debounce_time :=
       spread 300%Z (zFormsConfig.debounce_time config) |}.

(** The arguments of [new EventQueue(...)] in the constructor; an argument
    may be [undefined]. *)
Record QueueArguments : Type := {
  arg_apiUrl : option string;
  arg_projectKey : string;
  arg_batchSize : option Z;
  arg_batchInterval : option Z;
  arg_debug : option bool
}.

Definition queue_arguments (config : zFormsConfig.t) : QueueArguments :=
  let c := merged_config config in
  {| arg_apiUrl := read (zFormsConfig.api_url c);
     arg_projectKey := zFormsConfig.project_key c;
     arg_batchSize := read (zFormsConfig.batch_size c);
     arg_batchInterval := read (zFormsConfig.batch_interval c);
     arg_debug := read (zFormsConfig.debug c) |}.

(** The configuration that the script builds from its own tag:
    [data_zForms] and [data_api_url] are the results of [getAttribute],
    [data_debug] the one of [hasAttribute].  [None]: no instance is made. *)
Definition auto_config (data_zForms data_api_url : option string)
    (data_debug : bool) : option zFormsConfig.t :=
  match data_zForms with
  | Some projectKey =>
      if truthy_string (Some projectKey) then
        Some {| zFormsConfig.project_key := projectKey;
                zFormsConfig.api_url :=
                  Some (if truthy_string data_api_url then data_api_url
                        else None);
                zFormsConfig.batch_size := None;
                zFormsConfig.batch_interval := None;
                zFormsConfig.debug := Some (Some data_debug);
                zFormsConfig.track_changes := None;
                zFormsConfig.debounce_time := None |}
      else None
  | None => None
  end.

(** ** The session id

    The browser's sessionStorage, restricted to the key
    [zForms_session_id]; [ss_denied] and [ss_full] as for localStorage, and
    [None] stands for a thrown exception.  [now] and [rnd] are the texts of
    [Date.now()] and of the random suffix. *)

Record SessionStorage : Type := {
  ss_item : option string;
  ss_denied : bool;
  ss_full : bool
}.

Definition generateSessionId (now rnd : string) (ss : SessionStorage)
  : option (string * SessionStorage) :=
  if ss_denied ss then None
  else if truthy_string (ss_item ss) then
    match ss_item ss with
    | Some stored => Some (stored, ss)
    | None => None
    end
  else
    let sessionId := (now ++ "_" ++ rnd)%string in
    if ss_full ss then None
    else Some (sessionId,
               {| ss_item := Some sessionId;
                  ss_denied := ss_denied ss; ss_full := ss_full ss |}).

(** * Vocabulary of the properties *)

(** Well-formed pages: at most one activation of [send] is suspended,
    [isSending] is set exactly while one is, and its batch holds at most
    [batchSize] events. *)
Definition wf (p : Page) : Prop :=
  match awaiting p with
  | [] => isSending (this p) = false
  | [b] => isSending (this p) = true
           /\ length b <= Z.to_nat (batchSize (this p))
  | _ :: _ :: _ => False
  end.

(** The events a run enqueues, in order. *)
Definition added_of (a : Action) : list zFormsEvent :=
  match a with Add e => [e] | _ => [] end.

Definition added (acts : list Action) : list zFormsEvent :=
  flat_map added_of acts.

(** The fields the constructor sets for good. *)
Definition config (p : Page) : string * string * Z * Z * Storage.t :=
  (apiUrl (this p), projectKey (this p), batchSize (this p),
   batchInterval (this p), storage (this p)).

(** The backlog: what is in flight, then what is queued. *)
Definition backlog (p : Page) : list zFormsEvent :=
  concat (awaiting p) ++ queue (this p).

(** The store works: the instance found storage available, and storage
    still takes reads and writes. *)
Definition store_ready (s : Storage.t) (ls : LocalStorage) : bool :=
  Storage.isAvailable s && negb (ls_denied ls) && negb (ls_full ls).

(** Actions of a retry phase: anything but a successful [fetch] and an
    accepted beacon, the two ways events leave the page. *)
Definition retry_phase (a : Action) : bool :=
  match a with
  | Lifecycle _ true => false
  | FetchSettles _ true => false
  | _ => true
  end.

(** The batch [b] leads: it opens the batch in flight if there is one,
    the queue otherwise. *)
Definition leads (b : list zFormsEvent) (p : Page) : Prop :=
  match awaiting p with
  | [] => exists x, queue (this p) = b ++ x
  | d :: _ => exists x, d = b ++ x
  end.

(** The state of a retry of the failed batch [b]: [q0] was queued
    behind it and [r0] received when it failed, [g] has been enqueued
    since. *)
Definition retrying (b q0 : list zFormsEvent) (r0 : list EventBatch) (B : Z)
    (g : list zFormsEvent) (p : Page) : Prop :=
  wf p /\ batchSize (this p) = B /\ leads b p
  /\ backlog p = b ++ q0 ++ g /\ received p = r0.

(** The instance holds the one armed timer, or none. *)
Definition timer_ok (p : Page) : Prop :=
  match sendTimer (this p) with
  | Some id => id <> 0 /\ intervals p = [id]
  | None => intervals p = []
  end.

(** The stream: what the endpoint has, then what is in flight, then what
    is queued.  Unless a beacon is accepted it only grows at its end. *)
Definition no_accepted_beacon (a : Action) : bool :=
  match a with Lifecycle _ true => false | _ => true end.

Definition streaming (q0 g : list zFormsEvent) (p : Page) : Prop :=
  wf p /\ received_events p ++ backlog p = q0 ++ g.

(** Actions that neither settle a [fetch] nor signal the lifecycle. *)
Definition quiet (a : Action) : bool :=
  match a with
  | Lifecycle _ _ => false
  | FetchSettles _ _ => false
  | _ => true
  end.

Definition ceil_div (n d : nat) : nat := (n + d - 1) / d.

(** The batches handed to [fetch] so far, oldest first. *)
Definition sent (p : Page) : list (list zFormsEvent) :=
  fetch_batches (outbox p).

(** Runs in which no send attempt fails: no [fetch] fails and no
    lifecycle signal brings in the emergency channel. *)
Definition no_failure (a : Action) : bool :=
  match a with
  | Lifecycle _ _ => false
  | FetchSettles _ false => false
  | _ => true
  end.

(** Enqueueing, with answers arriving in between; and draining: flushes,
    timer ticks, teardown, and answers. *)
Definition enqueue_phase (a : Action) : bool :=
  match a with
  | Add _ => true
  | FetchSettles _ true => true
  | _ => false
  end.

Definition drain_phase (a : Action) : bool :=
  match a with
  | Flush | FlushAsync | Destroy | TimerFire _ => true
  | FetchSettles _ true => true
  | _ => false
  end.

(** The ledger of a run without failures that started with [q0] queued:
    the batches sent, then the queue, are [q0] and the events enqueued
    since; every batch sent is received or in flight; no batch exceeds
    the batch size. *)
Definition ledger (q0 : list zFormsEvent) (B : Z) (g : list zFormsEvent)
    (p : Page) : Prop :=
  wf p /\ batchSize (this p) = B
  /\ concat (sent p) ++ queue (this p) = q0 ++ g
  /\ map events (received p) ++ awaiting p = sent p
  /\ Forall (fun b => length b <= Z.to_nat B) (sent p).

(** While events are only enqueued, every batch sent is full. *)
Definition all_full (n : nat) (p : Page) : Prop :=
  length (concat (sent p)) = length (sent p) * n.

(** While the queue drains, every batch sent is full, except that the
    last one may be short once the queue is empty. *)
Definition last_short (n : nat) (p : Page) : Prop :=
  all_full n p
  \/ (queue (this p) = [] /\ 0 < length (sent p)
      /\ (length (sent p) - 1) * n < length (concat (sent p))
         < length (sent p) * n).

(** ** Events, storage and pages of the examples *)

(** Events for examples: the [n]-th focus event of a form. *)
Definition ev (n : Z) : zFormsEvent :=
  {| form_id := "signup"; field_id := "email"; event_type := ev_focus;
     time_spent_ms := Some n; session_id := "s1";
     timestamp := "2024-01-01T00:00:00.000Z"; metadata := None |}.

Definition fresh_storage : LocalStorage :=
  {| ls_item := ItemAbsent; ls_denied := false; ls_full := false |}.

Definition blocked_storage : LocalStorage :=
  {| ls_item := ItemAbsent; ls_denied := true; ls_full := false |}.

Definition stored_two : LocalStorage :=
  {| ls_item := ItemEvents [ev 1; ev 2];
     ls_denied := false; ls_full := false |}.

(** A page with a batch in flight: batch size 2, three events added. *)
Definition page_in_flight : Page :=
  run [Add (ev 1); Add (ev 2); Add (ev 3)]
      (new_EventQueue "https://api.example/events" "pk" (Some 2%Z) None None
                      fresh_storage).

(** One event queued, batch size 10, nothing in flight. *)
Definition page_one_event : Page :=
  run [Add (ev 1)]
      (new_EventQueue "https://api.example/events" "pk" None None None
                      fresh_storage).

(** Batch size 2, three events queued behind a batch in flight that has
    just been answered. *)
Definition page_backlog : Page :=
  run [Add (ev 1); Add (ev 2); Add (ev 3); Add (ev 4); Add (ev 5);
       FetchSettles 0 true]
      (new_EventQueue "https://api.example/events" "pk" (Some 2%Z) None None
                      fresh_storage).

(** Two events, each followed by a timer tick and the answer to the
    request; and a fresh page with batch size 10. *)
Definition slow_typing : list Action :=
  [Add (ev 1); TimerFire 1; FetchSettles 0 true;
   Add (ev 2); TimerFire 1; FetchSettles 0 true].

Definition page_batch_10 : Page :=
  new_EventQueue "https://api.example/events" "pk" (Some 10%Z) None None
                 fresh_storage.

(** ** Vocabulary and examples of the further properties *)


Definition full_storage : LocalStorage :=
  {| ls_item := ItemEvents [ev 1; ev 2];
     ls_denied := false; ls_full := true |}.

(** Every event on the page is one of [U]: in the queue, in flight, in a
    request made, with the endpoint, or in the store. *)
Definition known (U : list zFormsEvent) (p : Page) : Prop :=
  incl (queue (this p)) U
  /\ incl (concat (awaiting p)) U
  /\ incl (concat (fetch_batches (outbox p))) U
  /\ incl (concat (beacon_batches (outbox p))) U
  /\ incl (received_events p) U
  /\ incl (Storage.retrieve (storage (this p)) (localStorage p)) U.

(** [n] rounds of a flush followed by its answer. *)
Definition flush_cycles (n : nat) : list Action :=
  concat (repeat [Flush; FetchSettles 0 true] n).

(** A form with two fields, tracked on a fresh page with batch size 10;
    and the same after a first focus on the field [email]. *)
Definition tracker_fresh : zForms.t :=
  attachFormListeners "signup"
    [("email"%string, 0, false); ("name"%string, 1, false)]
    {| zForms.queue := page_batch_10; zForms.sessionId := "s1";
       zForms.formStates := []; zForms.initialized := true;
       zForms.mutationObserver := true |}.

(** The event [handleFocus] makes for a first interaction. *)
Definition interaction_event (formId fieldId : string) (pos total : Z)
    (session iso : string) : zFormsEvent :=
  {| form_id := formId; field_id := fieldId;
     event_type := ev_interaction; time_spent_ms := None;
     session_id := session; timestamp := iso;
     metadata :=
       Some {| interaction_count := None; field_completed := None;
               validation_errors := None; field_position := Some pos;
               total_fields := Some total; abandonment_field := None |} |}.

Definition signup_state : FormState.t :=
  {| FormState.form_id := "signup";
     FormState.field_states :=
       [("email"%string, initial_field "email" 0 false);
        ("name"%string, initial_field "name" 1 false)];
     FormState.submitted := false;
     FormState.last_focused_field := None;
     FormState.total_fields := 2 |}.

(** The events [handleChange] and [handleError] make. *)
Definition change_event (formId fieldId session iso : string) : zFormsEvent :=
  {| form_id := formId; field_id := fieldId;
     event_type := ev_change; time_spent_ms := None;
     session_id := session; timestamp := iso;
     metadata :=
       Some {| interaction_count := None; field_completed := Some true;
               validation_errors := None; field_position := None;
               total_fields := None; abandonment_field := None |} |}.

Definition error_event (formId fieldId : string) (errors : Z)
    (session iso : string) : zFormsEvent :=
  {| form_id := formId; field_id := fieldId;
     event_type := ev_error; time_spent_ms := None;
     session_id := session; timestamp := iso;
     metadata :=
       Some {| interaction_count := None; field_completed := None;
               validation_errors := Some errors; field_position := None;
               total_fields := None; abandonment_field := None |} |}.

(** One entry of the analytics summary, and the event [handleSubmit]
    makes from the same sums. *)
Definition form_analytics (f : FormState.t) : FormAnalytics :=
  {| a_form_id := FormState.form_id f;
     a_total_fields := FormState.total_fields f;
     a_completed_fields := completedFields (FormState.field_states f);
     a_total_interactions := totalInteractions (FormState.field_states f);
     a_total_time_spent := totalTimeSpent (FormState.field_states f);
     a_submitted := FormState.submitted f |}.

Definition submit_event (formId : string) (interactions total : Z)
    (completed : bool) (session iso : string) : zFormsEvent :=
  {| form_id := formId; field_id := "__form__";
     event_type := ev_submit; time_spent_ms := None;
     session_id := session; timestamp := iso;
     metadata :=
       Some {| interaction_count := Some interactions;
               field_completed := Some completed;
               validation_errors := None; field_position := None;
               total_fields := Some total; abandonment_field := None |} |}.

Definition with_submitted (f : FormState.t) : FormState.t :=
  {| FormState.form_id := FormState.form_id f;
     FormState.field_states := FormState.field_states f;
     FormState.submitted := true;
     FormState.last_focused_field := FormState.last_focused_field f;
     FormState.total_fields := FormState.total_fields f |}.

(** The instance over a page with a batch in flight, no form tracked. *)
Definition tracker_busy : zForms.t :=
  {| zForms.queue := page_in_flight; zForms.sessionId := "s1";
     zForms.formStates := []; zForms.initialized := true;
     zForms.mutationObserver := true |}.

(** A form counts as abandoned when it was not submitted and a field of
    it was focused; the events [trackAbandonment] makes are those of the
    abandoned forms, in the order of the map. *)
Definition abandoned (f : FormState.t) : bool :=
  negb (FormState.submitted f)
  && truthy_string (FormState.last_focused_field f).

Definition abandon_events (forms : list (string * FormState.t))
    (session : string) (iso : string -> string) : list zFormsEvent :=
  flat_map
    (fun kv =>
       match FormState.last_focused_field (snd kv) with
       | Some last =>
           if abandoned (snd kv)
           then [abandon_event (fst kv) last (snd kv) session (iso (fst kv))]
           else []
       | None => []
       end)
    forms.

Definition add_all (es : list zFormsEvent) (p : Page) : Page :=
  fold_left (fun q e => add e q) es p.

Definition attach_fields (fields : list (string * nat * bool))
  : list (string * FormFieldState.t) :=
  fold_left
    (fun m f =>
       match f with
       | (fieldId, element, value) =>
           map_set fieldId (initial_field fieldId element value) m
       end)
    fields [].

(** The event the blur callback makes, and the timeouts left when the
    timer a field state holds is cleared. *)
Definition blur_event (task : BlurTask) (spent : Z)
    (fs : FormFieldState.t) (value : bool) (total : Z)
    (session iso : string) : zFormsEvent :=
  {| form_id := task_form task; field_id := task_field task;
     event_type := ev_blur; time_spent_ms := Some spent;
     session_id := session; timestamp := iso;
     metadata :=
       Some {| interaction_count :=
                 Some (FormFieldState.interaction_count fs);
               field_completed := Some value;
               validation_errors :=
                 Some (FormFieldState.validation_errors fs);
               field_position := Some (task_position task);
               total_fields := Some total;
               abandonment_field := None |} |}.

Definition without_timer (t : option nat) (l : list (nat * BlurTask))
  : list (nat * BlurTask) :=
  match t with
  | Some id => if negb (id =? 0)
               then filter (fun x => negb (fst x =? id)) l
               else l
  | None => l
  end.

(** The window with the tracked form, the field [email] focused at time
    1000 and then blurred: one blur callback is pending. *)
Definition window_blurred : Window :=
  handleBlur "signup" "email" 0
    {| instance := handleFocus "signup" "email" 0 1000 "t0" tracker_fresh;
       timeouts := []; next_timeout := 1 |}.

Definition email_task : BlurTask :=
  {| task_form := "signup"; task_field := "email"; task_position := 0 |}.

Definition empty_session : SessionStorage :=
  {| ss_item := None; ss_denied := false; ss_full := false |}.

(** * Properties *)

(** ** Lists *)

Lemma slice_last_length {A : Type} (n : nat) (a : list A) :
  length (slice_last n a) = Nat.min n (length a).
Proof. unfold slice_last. rewrite length_skipn. lia. Qed.

Lemma slice_last_short {A : Type} (n : nat) (a : list A) :
  length a <= n -> slice_last n a = a.
Proof.
  intros H. unfold slice_last.
  replace (length a - n) with 0 by lia. reflexivity.
Qed.

Lemma slice_last_split {A : Type} (n : nat) (a : list A) :
  a = firstn (length a - n) a ++ slice_last n a.
Proof. unfold slice_last. now rewrite firstn_skipn. Qed.

Lemma slice_last_app_nonnil {A : Type} (n : nat) (a b : list A) :
  0 < n -> b <> [] -> slice_last n (a ++ b) <> [].
Proof.
  intros Hn Hb E. apply (f_equal (@length A)) in E.
  rewrite slice_last_length, length_app in E. simpl in E.
  destruct b; [congruence | simpl in E; lia].
Qed.

Lemma splice_recombine {A : Type} (n : Z) (a : list A) :
  splice_removed n a ++ splice_kept n a = a.
Proof. apply firstn_skipn. Qed.

Lemma splice_removed_length {A : Type} (n : Z) (a : list A) :
  length (splice_removed n a) = Nat.min (Z.to_nat n) (length a).
Proof. apply length_firstn. Qed.

Lemma splice_removed_prefix {A : Type} (n : Z) (b rest : list A) :
  length b <= Z.to_nat n ->
  splice_removed n (b ++ rest)
  = b ++ firstn (Z.to_nat n - length b) rest.
Proof.
  intros H. unfold splice_removed. rewrite firstn_app.
  now rewrite firstn_all2 by exact H.
Qed.

Lemma length_zero_eqb {A : Type} (l : list A) :
  (length l =? 0) = true <-> l = [].
Proof.
  rewrite Nat.eqb_eq. split; [apply length_zero_iff_nil | now intros ->].
Qed.

Lemma length_pos_ltb {A : Type} (l : list A) :
  (0 <? length l) = negb (length l =? 0).
Proof. destruct l; reflexivity. Qed.

(** ** The three paths into [send] *)

Lemma flush_eq p : flush p = send p.
Proof.
  unfold flush, send. rewrite length_pos_ltb.
  destruct (length (queue (this p)) =? 0); simpl; [|reflexivity].
  now rewrite orb_true_r.
Qed.

Lemma flushAsync_eq p : flushAsync p = send p.
Proof. exact (flush_eq p). Qed.

Lemma timer_callback_eq p : timer_callback p = send p.
Proof. exact (flush_eq p). Qed.

(** [send] either returns at its guard or runs one cycle. *)
Lemma send_guarded p :
  isSending (this p) = true \/ queue (this p) = [] -> send p = p.
Proof.
  intros [H | H]; unfold send; rewrite H; [reflexivity|].
  simpl. now rewrite orb_true_r.
Qed.

Lemma send_cycle p :
  isSending (this p) = false -> queue (this p) <> [] ->
  let batch := splice_removed (batchSize (this p)) (queue (this p)) in
  queue (this (send p)) = splice_kept (batchSize (this p)) (queue (this p))
  /\ isSending (this (send p)) = true
  /\ awaiting (send p) = awaiting p ++ [batch]
  /\ outbox (send p)
     = outbox p ++ [FetchPost (apiUrl (this p)) (payload p batch)]
  /\ received (send p) = received p
  /\ localStorage (send p) = localStorage p
  /\ intervals (send p) = intervals p
  /\ batchSize (this (send p)) = batchSize (this p)
  /\ storage (this (send p)) = storage (this p)
  /\ sendTimer (this (send p)) = sendTimer (this p).
Proof.
  intros Hs Hq. unfold send. rewrite Hs.
  destruct (length (queue (this p)) =? 0) eqn:E.
  - apply length_zero_eqb in E. contradiction.
  - simpl. repeat split; reflexivity.
Qed.

Lemma send_cases p :
  send p = p \/
  (isSending (this p) = false /\ queue (this p) <> []).
Proof.
  destruct (isSending (this p)) eqn:Hs.
  - left. apply send_guarded. now left.
  - destruct (queue (this p)) eqn:Hq.
    + left. apply send_guarded. now right.
    + right. split; [reflexivity | discriminate].
Qed.

(** ** Well-formed pages *)

Lemma wf_send p : wf p -> wf (send p).
Proof.
  intros W. destruct (send_cases p) as [-> | [Hs Hq]]; [exact W|].
  destruct (send_cycle p Hs Hq) as (_ & Hs' & Ha & _ & _ & _ & _ & Hb & _).
  unfold wf in *. rewrite Ha, Hs', Hb.
  destruct (awaiting p) as [|b [|c l]]; simpl.
  - split; [reflexivity|]. rewrite splice_removed_length. lia.
  - destruct W. congruence.
  - contradiction.
Qed.

Lemma wf_add e p : wf p -> wf (add e p).
Proof.
  intros W. unfold add.
  match goal with |- context [if ?c then _ else _] => destruct c end;
    [apply wf_send|]; exact W.
Qed.

Lemma wf_sendBeacon a p : wf p -> wf (sendBeacon a p).
Proof.
  intros W. unfold sendBeacon.
  destruct (length (queue (this p)) =? 0); [exact W|].
  destruct a; exact W.
Qed.

Lemma wf_destroy p : wf p -> wf (destroy p).
Proof.
  intros W. unfold destroy. rewrite flush_eq. apply wf_send.
  destruct (sendTimer (this p)) as [id|]; [|exact W].
  destruct (negb (id =? 0)); exact W.
Qed.

Lemma wf_send_resume k ok p : wf p -> wf (send_resume k ok p).
Proof.
  intros W. unfold send_resume.
  destruct (nth_error (awaiting p) k) as [b|] eqn:E; [|exact W].
  unfold wf in *.
  destruct (awaiting p) as [|b0 [|c l]] eqn:Ea; [| |contradiction].
  - destruct k; discriminate.
  - destruct k as [|k]; [|destruct k; discriminate].
    destruct ok; reflexivity.
Qed.

Lemma wf_step a p : wf p -> wf (step a p).
Proof.
  intros W. destruct a as [e| | | |id|s acc|k ok]; simpl.
  - now apply wf_add.
  - rewrite flush_eq. now apply wf_send.
  - rewrite flushAsync_eq. now apply wf_send.
  - now apply wf_destroy.
  - destruct (existsb _ _); [rewrite timer_callback_eq; apply wf_send|];
      exact W.
  - destruct s as [[|]| |]; try exact W; now apply wf_sendBeacon.
  - now apply wf_send_resume.
Qed.

Lemma wf_run acts : forall p, wf p -> wf (run acts p).
Proof.
  induction acts as [|a acts IH]; intros p W; simpl; [exact W|].
  apply IH. now apply wf_step.
Qed.

Lemma wf_new url key size interval dbg ls :
  wf (new_EventQueue url key size interval dbg ls).
Proof.
  unfold new_EventQueue, loadStoredEvents. simpl.
  destruct (0 <? _); reflexivity.
Qed.

Lemma reachable_wf p : reachable p -> wf p.
Proof.
  intros (url & key & size & interval & dbg & ls & acts & ->).
  apply wf_run, wf_new.
Qed.

Lemma reachable_step a p : reachable p -> reachable (step a p).
Proof.
  intros (url & key & size & interval & dbg & ls & acts & ->).
  exists url, key, size, interval, dbg, ls, (acts ++ [a]).
  generalize (new_EventQueue url key size interval dbg ls).
  induction acts as [|b acts IH]; intros q; simpl; [reflexivity|apply IH].
Qed.

(** ** One send cycle at a time *)

Lemma wf_sending p :
  wf p -> (isSending (this p) = true <-> length (awaiting p) = 1).
Proof.
  unfold wf. destruct (awaiting p) as [|b [|c l]]; simpl.
  - intros ->. split; discriminate.
  - intros [-> _]. split; reflexivity.
  - contradiction.
Qed.

Lemma wf_awaiting_le p : wf p -> length (awaiting p) <= 1.
Proof.
  unfold wf. destruct (awaiting p) as [|b [|c l]]; simpl; intros H;
    [lia | lia | contradiction].
Qed.

Lemma fetch_batches_app rs1 rs2 :
  fetch_batches (rs1 ++ rs2) = fetch_batches rs1 ++ fetch_batches rs2.
Proof. apply flat_map_app. Qed.

Lemma beacon_batches_app rs1 rs2 :
  beacon_batches (rs1 ++ rs2) = beacon_batches rs1 ++ beacon_batches rs2.
Proof. apply flat_map_app. Qed.

(** While [isSending] is set no action issues a [fetch]. *)
Lemma sending_step_no_fetch a p :
  isSending (this p) = true ->
  fetch_batches (outbox (step a p)) = fetch_batches (outbox p).
Proof.
  intros Hs. destruct a as [e| | | |id|s acc|k ok]; simpl.
  - unfold add.
    rewrite (send_guarded (set_queue (queue (this p) ++ [e]) p))
      by (left; exact Hs).
    now destruct (_ >=? _)%Z.
  - rewrite flush_eq, send_guarded; auto.
  - rewrite flushAsync_eq, send_guarded; auto.
  - unfold destroy. rewrite flush_eq.
    destruct (sendTimer (this p)) as [id|];
      [destruct (negb (id =? 0))|]; rewrite send_guarded; auto.
  - destruct (existsb _ _); [rewrite timer_callback_eq, send_guarded|]; auto.
  - assert (B : fetch_batches (outbox (sendBeacon acc p))
                = fetch_batches (outbox p)).
    { unfold sendBeacon. destruct (length (queue (this p)) =? 0); [easy|].
      destruct acc; simpl; rewrite fetch_batches_app; simpl;
        apply app_nil_r. }
    destruct s as [[|]| |]; auto.
  - unfold send_resume. destruct (nth_error (awaiting p) k); [|reflexivity].
    now destruct ok.
Qed.

(** C2.  On every reachable page at most one activation of [send] is
    suspended at its [fetch], and [isSending] is set exactly then.  A
    call of [send] made while the flag is set, or on an empty queue,
    returns the page as it is: same queue, same storage, no request; and
    no action at all issues a [fetch] while one is outstanding.  When the
    outstanding [fetch] settles, with success or with failure, the flag is
    cleared and nothing is left in flight. *)
Theorem send_one_in_flight (p : Page) (R : reachable p) :
  length (awaiting p) <= 1
  /\ (isSending (this p) = true <-> length (awaiting p) = 1)
  /\ (isSending (this p) = true \/ queue (this p) = [] -> send p = p)
  /\ (awaiting p <> [] ->
      forall a, fetch_batches (outbox (step a p)) = fetch_batches (outbox p))
  /\ (forall k ok, nth_error (awaiting p) k <> None ->
        isSending (this (send_resume k ok p)) = false
        /\ awaiting (send_resume k ok p) = []).
Proof.
  pose proof (reachable_wf p R) as W.
  split; [now apply wf_awaiting_le|].
  split; [now apply wf_sending|].
  split; [apply send_guarded|].
  split.
  - intros Ha a. apply sending_step_no_fetch. apply (wf_sending p W).
    pose proof (wf_awaiting_le p W). destruct (awaiting p); simpl in *;
      [congruence | lia].
  - intros k ok Hk. unfold send_resume.
    destruct (nth_error (awaiting p) k) as [b|] eqn:E; [|congruence].
    unfold wf in W.
    destruct (awaiting p) as [|b0 [|c l]] eqn:Ea; [| |contradiction].
    + destruct k; discriminate.
    + destruct k as [|k]; [|destruct k; discriminate].
      destruct ok; split; reflexivity.
Qed.

Lemma page_in_flight_reachable : reachable page_in_flight.
Proof.
  exists "https://api.example/events"%string, "pk"%string, (Some 2%Z), None,
    None, fresh_storage, [Add (ev 1); Add (ev 2); Add (ev 3)].
  reflexivity.
Qed.

Lemma send_one_in_flight_witness :
  length (awaiting page_in_flight) <= 1
  /\ isSending (this (send_resume 0 false page_in_flight)) = false.
Proof.
  destruct (send_one_in_flight page_in_flight page_in_flight_reachable)
    as (H1 & _ & _ & _ & H5).
  split; [exact H1|]. apply H5. discriminate.
Defined.

(** ** An invariant rule for runs

    Every action is built from five moves: pushing an event on the queue,
    a call of [send], disarming the timer, a call of [sendBeacon] and the
    resumption of a suspended [send].  A property [I g p] of the events
    [g] enqueued so far and the page [p] that each move keeps is kept by
    every run; moves of actions that [allowed] excludes need not keep
    it. *)

Section InvariantRule.

Variable I : list zFormsEvent -> Page -> Prop.
Variable allowed : Action -> bool.

Hypothesis I_send : forall g p, I g p -> I g (send p).
Hypothesis I_untimer :
  forall g id p, sendTimer (this p) = Some id ->
    I g p -> I g (set_sendTimer None (clearInterval id p)).
Hypothesis I_push :
  forall g e p, allowed (Add e) = true ->
    I g p -> I (g ++ [e]) (set_queue (queue (this p) ++ [e]) p).
Hypothesis I_beacon :
  forall g s acc p, allowed (Lifecycle s acc) = true ->
    I g p -> I g (sendBeacon acc p).
Hypothesis I_resume :
  forall g k ok p, allowed (FetchSettles k ok) = true ->
    I g p -> I g (send_resume k ok p).

Lemma step_preserves a g p :
  allowed a = true -> I g p -> I (g ++ added_of a) (step a p).
Proof using All.
  intros Ha H.
  destruct a as [e| | | |id|s acc|k ok]; simpl;
    rewrite ?app_nil_r.
  - unfold add. destruct (_ >=? _)%Z; [apply I_send|]; now apply I_push.
  - rewrite flush_eq. now apply I_send.
  - rewrite flushAsync_eq. now apply I_send.
  - unfold destroy. rewrite flush_eq. apply I_send.
    destruct (sendTimer (this p)) as [id|] eqn:T; [|exact H].
    destruct (negb (id =? 0)); [now apply I_untimer | exact H].
  - destruct (existsb _ _); [|exact H].
    rewrite timer_callback_eq. now apply I_send.
  - pose proof (I_beacon g s acc p Ha H) as Hb.
    destruct s as [[|]| |]; assumption.
  - now apply I_resume.
Qed.

Lemma run_preserves acts : forall g p,
  forallb allowed acts = true -> I g p -> I (g ++ added acts) (run acts p).
Proof using All.
  induction acts as [|a acts IH]; intros g p Hall H; simpl.
  - now rewrite app_nil_r.
  - simpl in Hall. apply andb_true_iff in Hall as [Ha Hall].
    unfold added. simpl. rewrite app_assoc. apply IH; [exact Hall|].
    now apply step_preserves.
Qed.

End InvariantRule.

(** ** What never changes after construction *)

Lemma config_send p : config (send p) = config p.
Proof.
  unfold send. now destruct (isSending (this p) || _).
Qed.

Lemma config_step a p : config (step a p) = config p.
Proof.
  apply (step_preserves (fun _ q => config q = config p) (fun _ => true))
    with (g := []).
  - intros _ q H. now rewrite config_send.
  - intros _ id q _ H. exact H.
  - intros _ e q _ H. exact H.
  - intros _ _ acc q _ H. unfold sendBeacon.
    destruct (length (queue (this q)) =? 0); [exact H|]. now destruct acc.
  - intros _ k ok q _ H. unfold send_resume.
    destruct (nth_error (awaiting q) k); [|exact H]. now destruct ok.
  - reflexivity.
  - reflexivity.
Qed.

Lemma config_run acts : forall p, config (run acts p) = config p.
Proof.
  induction acts as [|a acts IH]; intros p; simpl; [reflexivity|].
  now rewrite IH, config_step.
Qed.

Lemma payload_config p q evs : config p = config q -> payload p evs = payload q evs.
Proof. unfold config, payload. intros H. now injection H as _ -> _ _ _. Qed.

(** ** The two halves of [send] *)

Lemma wf_idle p : wf p -> isSending (this p) = false -> awaiting p = [].
Proof.
  unfold wf. destruct (awaiting p) as [|b [|c l]]; [reflexivity| |].
  - intros [H _] H'. congruence.
  - contradiction.
Qed.

Lemma send_backlog p : wf p -> backlog (send p) = backlog p.
Proof.
  intros W. destruct (send_cases p) as [-> | [Hs Hq]]; [reflexivity|].
  destruct (send_cycle p Hs Hq) as (Hq' & _ & Ha & _).
  unfold backlog. rewrite Hq', Ha, (wf_idle p W Hs). simpl.
  rewrite app_nil_r. apply splice_recombine.
Qed.

Lemma send_received p : received (send p) = received p.
Proof.
  destruct (send_cases p) as [-> | [Hs Hq]]; [reflexivity|].
  now destruct (send_cycle p Hs Hq) as (_ & _ & _ & _ & Hr & _).
Qed.

Lemma send_batchSize p : batchSize (this (send p)) = batchSize (this p).
Proof.
  destruct (send_cases p) as [-> | [Hs Hq]]; [reflexivity|].
  now destruct (send_cycle p Hs Hq) as (_ & _ & _ & _ & _ & _ & _ & Hb & _).
Qed.

Lemma send_storage p : storage (this (send p)) = storage (this p).
Proof.
  destruct (send_cases p) as [-> | [Hs Hq]]; [reflexivity|].
  now destruct (send_cycle p Hs Hq)
    as (_ & _ & _ & _ & _ & _ & _ & _ & Hb & _).
Qed.

Lemma send_localStorage p : localStorage (send p) = localStorage p.
Proof.
  destruct (send_cases p) as [-> | [Hs Hq]]; [reflexivity|].
  now destruct (send_cycle p Hs Hq) as (_ & _ & _ & _ & _ & Hl & _).
Qed.

(** On a well-formed page only index [0] can settle. *)
Lemma wf_nth_awaiting p k b :
  wf p -> nth_error (awaiting p) k = Some b ->
  k = 0 /\ awaiting p = [b] /\ isSending (this p) = true
  /\ length b <= Z.to_nat (batchSize (this p)).
Proof.
  unfold wf. intros W E.
  destruct (awaiting p) as [|b0 [|c l]]; [| |contradiction].
  - destruct k; discriminate.
  - destruct k as [|k]; [|destruct k; discriminate].
    injection E as ->. destruct W. auto.
Qed.

Lemma send_resume_none p k ok :
  nth_error (awaiting p) k = None -> send_resume k ok p = p.
Proof. intros E. unfold send_resume. now rewrite E. Qed.

(** The failure path of [send]: the [catch] block, then [finally]. *)
Lemma send_resume_failure p k b :
  nth_error (awaiting p) k = Some b ->
  let p' := send_resume k false p in
  queue (this p') = b ++ queue (this p)
  /\ localStorage p'
     = Storage.store (storage (this p)) b (localStorage p)
  /\ isSending (this p') = false
  /\ awaiting p' = remove_nth k (awaiting p)
  /\ received p' = received p
  /\ outbox p' = outbox p
  /\ batchSize (this p') = batchSize (this p)
  /\ storage (this p') = storage (this p).
Proof.
  intros E. unfold send_resume. rewrite E. simpl. repeat split.
Qed.

(** The success path: the batch is with the endpoint and gone. *)
Lemma send_resume_success p k b :
  nth_error (awaiting p) k = Some b ->
  let p' := send_resume k true p in
  queue (this p') = queue (this p)
  /\ localStorage p' = localStorage p
  /\ isSending (this p') = false
  /\ awaiting p' = remove_nth k (awaiting p)
  /\ received p' = received p ++ [payload p b]
  /\ outbox p' = outbox p
  /\ batchSize (this p') = batchSize (this p)
  /\ storage (this p') = storage (this p).
Proof.
  intros E. unfold send_resume. rewrite E. simpl. repeat split.
Qed.

(** ** The Durable Store *)


Lemma store_nil s ls : Storage.store s [] ls = ls.
Proof. unfold Storage.store. simpl. now rewrite orb_true_r. Qed.

Lemma store_unavailable s evs ls :
  Storage.isAvailable s = false ->
  Storage.store s evs ls = ls /\ Storage.retrieve s ls = [].
Proof.
  intros H. unfold Storage.store, Storage.retrieve. rewrite H. auto.
Qed.

Lemma store_flags s evs ls :
  ls_denied (Storage.store s evs ls) = ls_denied ls
  /\ ls_full (Storage.store s evs ls) = ls_full ls.
Proof.
  unfold Storage.store, setItem.
  destruct (negb (Storage.isAvailable s) || (length evs =? 0)); [auto|].
  destruct (ls_denied ls || ls_full ls); auto.
Qed.

Lemma store_ready_store s evs ls :
  store_ready s (Storage.store s evs ls) = store_ready s ls.
Proof.
  unfold store_ready. destruct (store_flags s evs ls) as [-> ->].
  reflexivity.
Qed.

Lemma store_appends s evs ls :
  store_ready s ls = true -> evs <> [] ->
  Storage.retrieve s (Storage.store s evs ls)
  = slice_last Storage.MAX_STORED_EVENTS (Storage.retrieve s ls ++ evs).
Proof.
  unfold store_ready. intros H Hne.
  apply andb_true_iff in H as [H Hf]. apply andb_true_iff in H as [Ha Hd].
  apply negb_true_iff in Hf, Hd.
  unfold Storage.store. rewrite Ha. simpl.
  destruct (length evs =? 0) eqn:E;
    [apply length_zero_eqb in E; contradiction|].
  unfold setItem. rewrite Hd, Hf. simpl.
  unfold Storage.retrieve at 1. rewrite Ha. simpl.
  unfold getItem. simpl. reflexivity.
Qed.

(** Whatever the state of storage, [store] never empties the store and
    never lets it grow past the cap. *)
Lemma store_keeps_nonempty s evs ls :
  Storage.retrieve s ls <> [] ->
  Storage.retrieve s (Storage.store s evs ls) <> [].
Proof.
  intros H. unfold Storage.store.
  destruct (negb (Storage.isAvailable s) || (length evs =? 0)) eqn:G;
    [exact H|].
  apply orb_false_iff in G as [Ga Ge]. apply negb_false_iff in Ga.
  unfold setItem. destruct (ls_denied ls || ls_full ls) eqn:F; [exact H|].
  apply orb_false_iff in F as [Fd Ff].
  unfold Storage.retrieve at 1. rewrite Ga. unfold getItem. simpl.
  rewrite Fd. apply slice_last_app_nonnil.
  - unfold Storage.MAX_STORED_EVENTS. lia.
  - intros ->. discriminate.
Qed.

Lemma store_bounded s evs ls :
  Storage.count s ls <= Storage.MAX_STORED_EVENTS ->
  Storage.count s (Storage.store s evs ls) <= Storage.MAX_STORED_EVENTS.
Proof.
  intros H. unfold Storage.store.
  destruct (negb (Storage.isAvailable s) || (length evs =? 0)) eqn:G;
    [exact H|].
  apply orb_false_iff in G as [Ga Ge]. apply negb_false_iff in Ga.
  unfold setItem. destruct (ls_denied ls || ls_full ls) eqn:F; [exact H|].
  apply orb_false_iff in F as [Fd Ff].
  unfold Storage.count, Storage.retrieve at 1. rewrite Ga.
  unfold getItem. simpl. rewrite Fd, slice_last_length. lia.
Qed.

Lemma clear_empties s ls : Storage.retrieve s (Storage.clear s ls) = [].
Proof.
  unfold Storage.clear, Storage.retrieve, removeItem, getItem.
  destruct (Storage.isAvailable s); simpl; [|reflexivity].
  destruct (ls_denied ls) eqn:D; simpl; rewrite ?D; reflexivity.
Qed.

Lemma retrieve_same_availability s1 s2 ls :
  Storage.isAvailable s1 = Storage.isAvailable s2 ->
  Storage.retrieve s1 ls = Storage.retrieve s2 ls.
Proof. unfold Storage.retrieve. now intros ->. Qed.

Lemma clear_flags s ls :
  ls_denied (Storage.clear s ls) = ls_denied ls
  /\ ls_full (Storage.clear s ls) = ls_full ls.
Proof.
  unfold Storage.clear, removeItem.
  destruct (negb (Storage.isAvailable s)); [auto|].
  destruct (ls_denied ls) eqn:D; simpl; auto.
Qed.

Lemma new_EventQueue_spec url key size interval dbg ls :
  let p0 := new_EventQueue url key size interval dbg ls in
  queue (this p0) = Storage.retrieve (Storage.new ls) ls
  /\ Storage.retrieve (storage (this p0)) (localStorage p0) = []
  /\ storage (this p0) = Storage.new ls
  /\ awaiting p0 = [] /\ outbox p0 = [] /\ received p0 = []
  /\ isSending (this p0) = false
  /\ batchSize (this p0) = match size with Some n => n | None => 10%Z end
  /\ ls_denied (localStorage p0) = ls_denied ls
  /\ ls_full (localStorage p0) = ls_full ls.
Proof.
  unfold new_EventQueue, loadStoredEvents. simpl.
  destruct (Storage.retrieve (Storage.new ls) ls) as [|e l] eqn:E; simpl.
  - rewrite E. repeat split.
  - rewrite clear_empties.
    destruct (clear_flags (Storage.new ls) ls) as [-> ->]. repeat split.
Qed.

(** On every reachable page the store is within its cap. *)
Lemma reachable_store_bounded p :
  reachable p ->
  Storage.count (storage (this p)) (localStorage p)
  <= Storage.MAX_STORED_EVENTS.
Proof.
  intros (url & key & size & interval & dbg & ls & acts & ->).
  assert (H0 : Storage.count
                 (storage (this (new_EventQueue url key size interval dbg ls)))
                 (localStorage (new_EventQueue url key size interval dbg ls))
               <= Storage.MAX_STORED_EVENTS).
  { unfold Storage.count.
    destruct (new_EventQueue_spec url key size interval dbg ls) as (_ & -> & _).
    simpl. lia. }
  revert H0. generalize (new_EventQueue url key size interval dbg ls).
  induction acts as [|a acts IH]; intros q H; simpl; [exact H|].
  apply IH. revert H.
  apply (step_preserves
           (fun _ q => Storage.count (storage (this q)) (localStorage q)
                       <= Storage.MAX_STORED_EVENTS)
           (fun _ => true)) with (g := []).
  - intros _ r H. now rewrite send_storage, send_localStorage.
  - intros _ id r _ H. exact H.
  - intros _ e r _ H. exact H.
  - intros _ _ acc r _ H. unfold sendBeacon.
    destruct (length (queue (this r)) =? 0); [exact H|].
    destruct acc; [exact H|]. simpl. now apply store_bounded.
  - intros _ k ok r _ H. unfold send_resume.
    destruct (nth_error (awaiting r) k); [|exact H].
    destruct ok; [exact H|]. simpl. now apply store_bounded.
  - reflexivity.
Qed.

(** C6.  On a store that works, [store evs] leaves as persisted sequence
    the last 1000 elements of the previous sequence followed by [evs]:
    always when [evs] is not empty, and also for the empty [evs] (where the
    call returns at its guard) as long as the previous sequence respects
    the cap, which every sequence written by [store] does.  So the count
    stays at most 1000, on every page a run can reach, and what is
    dropped is a prefix of the combined sequence: the oldest events. *)
Theorem store_keeps_last_1000 (s : Storage.t) (ls : LocalStorage)
    (evs : list zFormsEvent)
    (Hready : store_ready s ls = true)
    (Hcap : evs <> [] \/ Storage.count s ls <= 1000) :
  let before := Storage.retrieve s ls in
  let after := Storage.retrieve s (Storage.store s evs ls) in
  after = slice_last 1000 (before ++ evs)
  /\ length after <= 1000
  /\ before ++ evs = firstn (length (before ++ evs) - 1000) (before ++ evs)
                     ++ after
  /\ Storage.count s (Storage.store s evs (Storage.store s evs ls)) <= 1000
  /\ forall p, reachable p ->
       Storage.count (storage (this p)) (localStorage p) <= 1000.
Proof.
  intros before after.
  assert (E : after = slice_last 1000 (before ++ evs)).
  { destruct evs as [|e evs'].
    - destruct Hcap as [Hc | Hc]; [congruence|].
      subst after. rewrite store_nil, app_nil_r.
      symmetry. apply slice_last_short. exact Hc.
    - apply store_appends; [exact Hready | discriminate]. }
  assert (L : length after <= 1000).
  { rewrite E, slice_last_length. lia. }
  split; [exact E|]. split; [exact L|]. split; [|split].
  - rewrite E. apply slice_last_split.
  - apply store_bounded. exact L.
  - apply reachable_store_bounded.
Qed.

(** Two events stored on top of a full store push the two oldest out. *)
Example store_evicts_oldest :
  let old := map (fun n => ev (Z.of_nat n)) (seq 0 1000) in
  let ls := {| ls_item := ItemEvents old;
               ls_denied := false; ls_full := false |} in
  Storage.retrieve (Storage.new ls)
    (Storage.store (Storage.new ls) [ev 1000; ev 1001] ls)
  = skipn 2 old ++ [ev 1000; ev 1001].
Proof. vm_compute. reflexivity. Qed.

Lemma store_keeps_last_1000_witness :
  Storage.retrieve (Storage.new stored_two)
    (Storage.store (Storage.new stored_two) [ev 3] stored_two)
  = slice_last 1000 ([ev 1; ev 2] ++ [ev 3]).
Proof.
  apply (store_keeps_last_1000 (Storage.new stored_two) stored_two [ev 3]).
  - reflexivity.
  - left. discriminate.
Defined.

(** ** Retry after a failed send *)

Section Retry.

Variable b q0 : list zFormsEvent.
Variable r0 : list EventBatch.
Variable B : Z.
Hypothesis b_fits : length b <= Z.to_nat B.

Lemma retrying_send g p :
  retrying b q0 r0 B g p -> retrying b q0 r0 B g (send p).
Proof using b_fits.
  intros (W & HB & L & K & R).
  split; [now apply wf_send|]. split; [now rewrite send_batchSize|].
  split; [|split; [now rewrite send_backlog | now rewrite send_received]].
  destruct (send_cases p) as [-> | [Hs Hq]]; [exact L|].
  destruct (send_cycle p Hs Hq) as (_ & _ & Ha & _).
  unfold leads in *. rewrite Ha. rewrite (wf_idle p W Hs) in *. simpl.
  destruct L as [x ->]. rewrite HB, splice_removed_prefix by exact b_fits.
  eauto.
Qed.

Lemma retrying_push g e p :
  retrying b q0 r0 B g p ->
  retrying b q0 r0 B (g ++ [e]) (set_queue (queue (this p) ++ [e]) p).
Proof.
  intros (W & HB & L & K & R). repeat split; try assumption.
  - unfold leads in *. simpl. destruct (awaiting p); [|exact L].
    destruct L as [x ->]. exists (x ++ [e]). now rewrite app_assoc.
  - unfold backlog in *. simpl. now rewrite app_assoc, K, <- !app_assoc.
Qed.

Lemma retrying_beacon g s acc p :
  retry_phase (Lifecycle s acc) = true ->
  retrying b q0 r0 B g p -> retrying b q0 r0 B g (sendBeacon acc p).
Proof.
  intros Ha H. destruct acc; [destruct s; discriminate|].
  unfold sendBeacon. destruct (length (queue (this p)) =? 0); exact H.
Qed.

Lemma retrying_resume g k ok p :
  retry_phase (FetchSettles k ok) = true ->
  retrying b q0 r0 B g p -> retrying b q0 r0 B g (send_resume k ok p).
Proof.
  intros Ha (W & HB & L & K & R). destruct ok; [discriminate|].
  destruct (nth_error (awaiting p) k) as [d|] eqn:E;
    [|rewrite send_resume_none by exact E; repeat split; assumption].
  destruct (wf_nth_awaiting p k d W E) as (-> & Ea & _ & _).
  destruct (send_resume_failure p 0 d E)
    as (Hq & _ & Hs & Haw & Hr & _ & Hb & _).
  rewrite Ea in Haw. unfold remove_nth in Haw. simpl in Haw.
  unfold retrying, wf, leads, backlog in *.
  rewrite Haw, Hq, Hs, Hr, Hb. rewrite Ea in L, K. simpl in *.
  rewrite app_nil_r in K.
  repeat split; try assumption.
  destruct L as [x ->]. exists (x ++ queue (this p)). now rewrite app_assoc.
Qed.

Lemma retrying_run acts g p :
  forallb retry_phase acts = true ->
  retrying b q0 r0 B g p ->
  retrying b q0 r0 B (g ++ added acts) (run acts p).
Proof using b_fits.
  apply (run_preserves (retrying b q0 r0 B) retry_phase).
  - apply retrying_send.
  - intros g' id p' _ H. exact H.
  - intros g' e p' _. apply retrying_push.
  - apply retrying_beacon.
  - apply retrying_resume.
Qed.

End Retry.

(** The claim that the next send cycle that succeeds delivers exactly
    the failed batch, ahead of every event enqueued after the failure,
    fails.  On the page with batch size 2 whose [fetch] of [ev 1; ev 2]
    has failed, with [ev 3] queued behind:
    - the retry starts with a tick, [ev 4] is enqueued and a lifecycle
      signal follows whose beacon is accepted: the endpoint receives
      [ev 3; ev 4] by the beacon before the retried batch [ev 1; ev 2],
      so an event enqueued after the failure is delivered first;
    - an accepted beacon right after the failure takes the failed batch
      itself, and the next send cycle carries later events only.
    And on a page with batch size 10, a batch of one event cut off by the
    timer fails and is resent together with the event enqueued since: the
    payload of the cycle that succeeds is not the failed batch. *)
Lemma failed_batch_overtaken_by_beacon :
  queue (this (send_resume 0 false page_in_flight)) = [ev 1; ev 2; ev 3]
  /\ map events
       (received
          (run [TimerFire 1; Add (ev 4); Lifecycle PageHide true;
                FetchSettles 0 true]
             (send_resume 0 false page_in_flight)))
     = [[ev 3; ev 4]; [ev 1; ev 2]]
  /\ map events
       (received
          (run [Lifecycle PageHide true; Add (ev 4); Add (ev 5);
                FetchSettles 0 true]
             (send_resume 0 false page_in_flight)))
     = [[ev 1; ev 2; ev 3]; [ev 4; ev 5]]
  /\ fetch_batches
       (outbox
          (run [Lifecycle PageHide true; Add (ev 4); Add (ev 5);
                FetchSettles 0 true]
             (send_resume 0 false page_in_flight)))
     = [[ev 1; ev 2]; [ev 4; ev 5]]
  /\ map events
       (received
          (run [Add (ev 1); TimerFire 1; FetchSettles 0 false; Add (ev 2);
                TimerFire 1; FetchSettles 0 true]
             (new_EventQueue "https://api.example/events" "pk" None None None
                             fresh_storage)))
     = [[ev 1; ev 2]].
Proof. repeat split. Qed.

(** C1, as the code has it.  When the [fetch] of a send cycle fails, the
    batch [b] that the cycle removed from the queue head is handed to the
    Durable Store, whose [store] appends it (keeping the latest 1000) when
    the store works, and is put back in front of the queue in its order.
    From then on, as long as no beacon is accepted and no [fetch]
    succeeds, through any enqueues, flushes, timer ticks, rejected
    beacons and further failed cycles, the batch of every send cycle
    opens with [b] (and is [b] itself when [b] was a full batch), and
    what lies behind [b] in flight and in the queue is what was queued at
    the failure followed by the events enqueued since; so the next cycle
    that succeeds hands the endpoint a payload with the events of [b], in
    order, ahead of everything enqueued after the failure. *)
Theorem failed_batch_requeued (p : Page) (k : nat) (b : list zFormsEvent)
    (R : reachable p) (Hk : nth_error (awaiting p) k = Some b) :
  localStorage (send_resume k false p)
  = Storage.store (storage (this p)) b (localStorage p)
  /\ (store_ready (storage (this p)) (localStorage p) = true -> b <> [] ->
      Storage.retrieve (storage (this p)) (localStorage (send_resume k false p))
      = slice_last 1000
          (Storage.retrieve (storage (this p)) (localStorage p) ++ b))
  /\ queue (this (send_resume k false p)) = b ++ queue (this p)
  /\ forall acts k' d,
       forallb retry_phase acts = true ->
       nth_error (awaiting (run acts (send_resume k false p))) k' = Some d ->
       (exists extra, d = b ++ extra)
       /\ (length b = Z.to_nat (batchSize (this p)) -> d = b)
       /\ d ++ queue (this (run acts (send_resume k false p)))
          = b ++ queue (this p) ++ added acts
       /\ received (send_resume k' true (run acts (send_resume k false p)))
          = received p ++ [payload p d].
Proof.
  pose proof (reachable_wf p R) as W.
  destruct (wf_nth_awaiting p k b W Hk) as (-> & Ea & Hs & Hfit).
  destruct (send_resume_failure p 0 b Hk)
    as (Hq & Hl & Hs' & Haw & Hr & Ho & Hb & Hst).
  split; [exact Hl|]. split.
  { intros Hready Hne. rewrite Hl. now apply store_appends. }
  split; [exact Hq|].
  intros acts k' d Hacts Hd.
  assert (I0 : retrying b (queue (this p)) (received p) (batchSize (this p))
                 [] (send_resume 0 false p)).
  { unfold retrying, leads, backlog.
    rewrite Haw, Hq, Hr, Hb, Ea. unfold remove_nth. simpl.
    repeat split.
    - exact (wf_send_resume 0 false p W).
    - eauto.
    - now rewrite app_nil_r. }
  pose proof (retrying_run b (queue (this p)) (received p)
                (batchSize (this p)) Hfit acts [] _ Hacts I0)
    as (W' & HB' & L' & K' & R').
  destruct (wf_nth_awaiting _ k' d W' Hd) as (-> & Ea' & _ & Hdfit).
  unfold leads, backlog in *. rewrite Ea' in L', K'. simpl in K'.
  rewrite app_nil_r in K'. simpl in K'.
  split; [exact L'|]. split.
  { intros Hfull. destruct L' as [x ->]. rewrite HB', length_app in Hdfit.
    destruct x; [apply app_nil_r | simpl in Hdfit; lia]. }
  split; [exact K'|].
  destruct (send_resume_success _ 0 d Hd) as (_ & _ & _ & _ & Hrec & _).
  rewrite Hrec, R'. f_equal. f_equal. apply payload_config.
  rewrite config_run. unfold send_resume. rewrite Hk. reflexivity.
Qed.

Lemma failed_batch_requeued_witness :
  queue (this (send_resume 0 false page_in_flight))
  = [ev 1; ev 2] ++ queue (this page_in_flight)
  /\ received (send_resume 0 true
                 (run [Add (ev 4)] (send_resume 0 false page_in_flight)))
     = received page_in_flight ++ [payload page_in_flight [ev 1; ev 2]].
Proof.
  destruct (failed_batch_requeued page_in_flight 0 [ev 1; ev 2]
              page_in_flight_reachable eq_refl) as (_ & _ & Hq & Hn).
  split; [exact Hq|].
  apply (Hn [Add (ev 4)] 0 [ev 1; ev 2]); reflexivity.
Defined.

(** A batch cut short by the timer is not resent alone: with batch size
    10, three events fail, two more arrive, and the retry carries all
    five, the failed three first. *)
Example retry_grows_batch :
  fetch_batches
    (outbox (run [Add (ev 1); Add (ev 2); Add (ev 3); TimerFire 1;
                  FetchSettles 0 false; Add (ev 4); Add (ev 5); TimerFire 1]
               (new_EventQueue "u" "k" None None None fresh_storage)))
  = [[ev 1; ev 2; ev 3]; [ev 1; ev 2; ev 3; ev 4; ev 5]].
Proof. reflexivity. Qed.

(** Without storage the failed batch is requeued but persisted
    nowhere. *)
Example failed_batch_without_storage :
  let p := run [Add (ev 1); TimerFire 1; FetchSettles 0 false]
               (new_EventQueue "u" "k" None None None blocked_storage) in
  queue (this p) = [ev 1]
  /\ Storage.retrieve (storage (this p)) (localStorage p) = [].
Proof. split; reflexivity. Qed.

(** An accepted beacon between the failure and the retry takes the
    failed batch with it: it reaches the endpoint by the emergency
    channel, and the next send cycle starts with later events. *)
Example failed_batch_leaves_by_beacon :
  let p := run [Add (ev 1); TimerFire 1; FetchSettles 0 false;
                Lifecycle PageHide true; Add (ev 2); TimerFire 1;
                FetchSettles 0 true]
               (new_EventQueue "u" "k" None None None fresh_storage) in
  map events (received p) = [[ev 1]; [ev 2]]
  /\ beacon_batches (outbox p) = [[ev 1]]
  /\ fetch_batches (outbox p) = [[ev 1]; [ev 2]].
Proof. repeat split. Qed.

(** ** Emergency delivery *)

Lemma store_not_ready s evs ls :
  store_ready s ls = false -> Storage.store s evs ls = ls.
Proof.
  unfold store_ready, Storage.store, setItem. intros H.
  destruct (Storage.isAvailable s); simpl in *; [|reflexivity].
  destruct (length evs =? 0); [reflexivity|].
  destruct (ls_denied ls), (ls_full ls); simpl in *;
    try reflexivity; discriminate.
Qed.

Lemma sendBeacon_empty acc p :
  queue (this p) = [] -> sendBeacon acc p = p.
Proof. intros H. unfold sendBeacon. now rewrite H. Qed.

Lemma sendBeacon_accepted p :
  queue (this p) <> [] ->
  queue (this (sendBeacon true p)) = []
  /\ outbox (sendBeacon true p)
     = outbox p ++ [BeaconPost (apiUrl (this p)) (payload p (queue (this p)))]
  /\ received (sendBeacon true p)
     = received p ++ [payload p (queue (this p))]
  /\ localStorage (sendBeacon true p) = localStorage p
  /\ awaiting (sendBeacon true p) = awaiting p.
Proof.
  intros H. unfold sendBeacon.
  destruct (length (queue (this p)) =? 0) eqn:E;
    [apply length_zero_eqb in E; contradiction|].
  repeat split.
Qed.

Lemma sendBeacon_rejected p :
  queue (this p) <> [] ->
  queue (this (sendBeacon false p)) = queue (this p)
  /\ outbox (sendBeacon false p)
     = outbox p ++ [BeaconPost (apiUrl (this p)) (payload p (queue (this p)))]
  /\ received (sendBeacon false p) = received p
  /\ localStorage (sendBeacon false p)
     = Storage.store (storage (this p)) (queue (this p)) (localStorage p)
  /\ awaiting (sendBeacon false p) = awaiting p.
Proof.
  intros H. unfold sendBeacon.
  destruct (length (queue (this p)) =? 0) eqn:E;
    [apply length_zero_eqb in E; contradiction|].
  repeat split.
Qed.

(** C8.  When [navigator.sendBeacon] turns the submission down, the
    whole attempted batch, which is the whole queue, goes to the Durable
    Store's [store] within the same call: on a store that works the
    persisted sequence becomes the latest 1000 of the old one followed by
    the batch.  On a store that does not work the call changes nothing in
    storage and the batch is not persisted; it completes all the same
    (every exception is caught: the functions are total), the endpoint
    has received nothing and the queue still holds the events. *)
Theorem rejected_beacon_goes_to_store (p : Page)
    (Hq : queue (this p) <> []) :
  outbox (sendBeacon false p)
  = outbox p ++ [BeaconPost (apiUrl (this p)) (payload p (queue (this p)))]
  /\ received (sendBeacon false p) = received p
  /\ queue (this (sendBeacon false p)) = queue (this p)
  /\ localStorage (sendBeacon false p)
     = Storage.store (storage (this p)) (queue (this p)) (localStorage p)
  /\ (store_ready (storage (this p)) (localStorage p) = true ->
      Storage.retrieve (storage (this p)) (localStorage (sendBeacon false p))
      = slice_last 1000
          (Storage.retrieve (storage (this p)) (localStorage p)
           ++ queue (this p)))
  /\ (store_ready (storage (this p)) (localStorage p) = false ->
      localStorage (sendBeacon false p) = localStorage p)
  /\ (Storage.isAvailable (storage (this p)) = false ->
      Storage.retrieve (storage (this p)) (localStorage (sendBeacon false p))
      = []).
Proof.
  destruct (sendBeacon_rejected p Hq) as (Hqu & Ho & Hr & Hl & _).
  repeat split; try assumption.
  - intros Hready. rewrite Hl. now apply store_appends.
  - intros Hready. rewrite Hl. now apply store_not_ready.
  - intros Hav. unfold Storage.retrieve. now rewrite Hav.
Qed.

Lemma rejected_beacon_goes_to_store_witness :
  Storage.retrieve (storage (this page_one_event))
                   (localStorage (sendBeacon false page_one_event))
  = slice_last 1000 ([] ++ [ev 1]).
Proof.
  apply (rejected_beacon_goes_to_store page_one_event).
  - discriminate.
  - reflexivity.
Defined.

(** Without storage the rejected batch is persisted nowhere. *)
Example rejected_beacon_without_storage :
  let p := run [Add (ev 1); Lifecycle PageHide false]
               (new_EventQueue "u" "k" None None None blocked_storage) in
  localStorage p = blocked_storage /\ received p = []
  /\ Storage.retrieve (storage (this p)) (localStorage p) = [].
Proof. repeat split. Qed.

(** C7.  An accepted emergency send leaves the queue empty, and
    [sendBeacon] on an empty queue returns at once: no call of
    [navigator.sendBeacon], nothing stored.  So whatever lifecycle signal
    follows an accepted one changes nothing, and two visibility-hidden
    signals in a row, the first accepted, make one beacon that carries
    the whole queue (none when the queue was empty to begin with). *)
Theorem emergency_send_idempotent (p : Page) (s : Signal) (acc : bool) :
  queue (this (sendBeacon true p)) = []
  /\ sendBeacon acc (set_queue [] p) = set_queue [] p
  /\ sendBeacon acc (sendBeacon true p) = sendBeacon true p
  /\ step (Lifecycle s acc) (step (Lifecycle (VisibilityChange true) true) p)
     = step (Lifecycle (VisibilityChange true) true) p
  /\ outbox (run [Lifecycle (VisibilityChange true) true;
                  Lifecycle (VisibilityChange true) acc] p)
     = outbox p
       ++ match queue (this p) with
          | [] => []
          | _ :: _ =>
              [BeaconPost (apiUrl (this p)) (payload p (queue (this p)))]
          end
  /\ received (run [Lifecycle (VisibilityChange true) true;
                    Lifecycle (VisibilityChange true) acc] p)
     = received p
       ++ match queue (this p) with
          | [] => []
          | _ :: _ => [payload p (queue (this p))]
          end.
Proof.
  assert (Q : queue (this (sendBeacon true p)) = []).
  { destruct (queue (this p)) eqn:E.
    - now rewrite sendBeacon_empty.
    - apply sendBeacon_accepted. congruence. }
  assert (T : forall a, sendBeacon a (sendBeacon true p) = sendBeacon true p).
  { intros a. now apply sendBeacon_empty. }
  split; [exact Q|]. split; [now apply sendBeacon_empty|].
  split; [apply T|]. split.
  - simpl. destruct s as [[|]| |]; [apply T | reflexivity | apply T..].
  - simpl. rewrite T. destruct (queue (this p)) eqn:E.
    + rewrite sendBeacon_empty by exact E. now rewrite !app_nil_r.
    + assert (N : queue (this p) <> []) by congruence.
      destruct (sendBeacon_accepted p N) as (_ & -> & -> & _).
      rewrite E. split; reflexivity.
Qed.

(** ** Flushing *)

(** C10.  One call of [flush] starts at most one send cycle, and the
    cycle takes a head of the queue of at most [batchSize] events.  With
    nothing in flight and more than [batchSize] events queued, what lies
    beyond the first [batchSize] events stays in the queue in its order
    while the cycle is in flight, and after it: the queue is then that
    remainder, preceded by the batch again if the cycle failed. *)
Theorem flush_sends_one_batch (p : Page) (R : reachable p) :
  length (outbox (flush p)) <= length (outbox p) + 1
  /\ length (awaiting (flush p)) <= 1
  /\ (exists batch,
        queue (this p) = batch ++ queue (this (flush p))
        /\ length batch <= Z.to_nat (batchSize (this p)))
  /\ (isSending (this p) = false ->
      Z.to_nat (batchSize (this p)) < length (queue (this p)) ->
      awaiting (flush p)
      = [firstn (Z.to_nat (batchSize (this p))) (queue (this p))]
      /\ queue (this (flush p))
         = skipn (Z.to_nat (batchSize (this p))) (queue (this p))
      /\ length (queue (this (flush p)))
         = length (queue (this p)) - Z.to_nat (batchSize (this p))
      /\ queue (this (send_resume 0 true (flush p)))
         = skipn (Z.to_nat (batchSize (this p))) (queue (this p))
      /\ queue (this (send_resume 0 false (flush p))) = queue (this p)).
Proof.
  pose proof (reachable_wf p R) as W. rewrite flush_eq.
  pose proof (wf_awaiting_le _ (wf_send p W)) as Hle.
  destruct (send_cases p) as [E | [Hs Hq]].
  - rewrite E. split; [lia|]. split; [now apply wf_awaiting_le|].
    split; [exists []; split; [reflexivity | simpl; lia]|].
    intros Hs Hm.
    destruct (queue (this p)) eqn:Eq.
    + simpl in Hm. lia.
    + assert (Hq : queue (this p) <> []) by congruence.
      destruct (send_cycle p Hs Hq) as (_ & Hs' & _). congruence.
  - destruct (send_cycle p Hs Hq) as (Hq' & Hs' & Ha & Ho & _).
    rewrite (wf_idle p W Hs) in Ha. simpl in Ha.
    split; [rewrite Ho, length_app; simpl; lia|].
    split; [exact Hle|].
    split.
    { eexists. split; [rewrite Hq'; symmetry; apply splice_recombine|].
      rewrite splice_removed_length. lia. }
    intros _ Hm.
    split; [exact Ha|]. split; [exact Hq'|].
    split; [rewrite Hq'; apply length_skipn|].
    assert (E0 : nth_error (awaiting (send p)) 0
                 = Some (splice_removed (batchSize (this p)) (queue (this p))))
      by now rewrite Ha.
    split.
    + destruct (send_resume_success _ 0 _ E0) as (-> & _). exact Hq'.
    + destruct (send_resume_failure _ 0 _ E0) as (-> & _). rewrite Hq'.
      apply splice_recombine.
Qed.

Lemma page_backlog_reachable : reachable page_backlog.
Proof.
  exists "https://api.example/events"%string, "pk"%string, (Some 2%Z), None,
    None, fresh_storage,
    [Add (ev 1); Add (ev 2); Add (ev 3); Add (ev 4); Add (ev 5);
     FetchSettles 0 true].
  reflexivity.
Qed.

Lemma flush_sends_one_batch_witness :
  queue (this (flush page_backlog)) = [ev 5]
  /\ queue (this (send_resume 0 true (flush page_backlog))) = [ev 5].
Proof.
  destruct (flush_sends_one_batch page_backlog page_backlog_reachable)
    as (_ & _ & _ & H).
  destruct H as (_ & H2 & _ & H4 & _); [reflexivity | simpl; lia |].
  split; [exact H2 | exact H4].
Defined.

(** ** Teardown *)

Lemma send_timer p :
  sendTimer (this (send p)) = sendTimer (this p)
  /\ intervals (send p) = intervals p.
Proof.
  unfold send. now destruct (isSending (this p) || _).
Qed.

Lemma timer_ok_step a p : timer_ok p -> timer_ok (step a p).
Proof.
  apply (step_preserves (fun _ q => timer_ok q) (fun _ => true))
    with (g := []).
  - intros _ q H. unfold timer_ok in *.
    now destruct (send_timer q) as [-> ->].
  - intros _ id q T H. unfold timer_ok in *. rewrite T in H.
    destruct H as [_ H]. simpl. rewrite H. simpl.
    now rewrite Nat.eqb_refl.
  - intros _ e q _ H. exact H.
  - intros _ _ acc q _ H. unfold sendBeacon.
    destruct (length (queue (this q)) =? 0); [exact H|]. now destruct acc.
  - intros _ k ok q _ H. unfold send_resume.
    destruct (nth_error (awaiting q) k); [|exact H]. now destruct ok.
  - reflexivity.
Qed.

Lemma reachable_timer_ok p : reachable p -> timer_ok p.
Proof.
  intros (url & key & size & interval & dbg & ls & acts & ->).
  assert (H0 : timer_ok (new_EventQueue url key size interval dbg ls)).
  { unfold new_EventQueue, loadStoredEvents, timer_ok. simpl.
    destruct (0 <? _); simpl; split; (discriminate || reflexivity). }
  revert H0. generalize (new_EventQueue url key size interval dbg ls).
  induction acts as [|a acts IH]; intros q H; simpl; [exact H|].
  apply IH. now apply timer_ok_step.
Qed.

(** [destroy] is [send] on the page with the timer disarmed. *)
Lemma destroy_unfold p :
  timer_ok p ->
  exists p1,
    destroy p = send p1
    /\ sendTimer (this p1) = None /\ intervals p1 = []
    /\ queue (this p1) = queue (this p)
    /\ isSending (this p1) = isSending (this p)
    /\ awaiting p1 = awaiting p /\ outbox p1 = outbox p
    /\ received p1 = received p /\ localStorage p1 = localStorage p
    /\ config p1 = config p.
Proof.
  intros T. unfold destroy, timer_ok in *. rewrite flush_eq.
  destruct (sendTimer (this p)) as [id|] eqn:E.
  - destruct T as [Hid Hi]. apply Nat.eqb_neq in Hid. rewrite Hid. simpl.
    eexists. split; [reflexivity|]. simpl. rewrite Hi. simpl.
    rewrite Nat.eqb_refl. simpl. repeat split.
  - exists p. repeat split; assumption.
Qed.

(** The claim that [destroy] makes an emergency attempt and that a
    rejected one leaves the buffered events in the Durable Store fails on
    a page with one event queued and batch size 10: [destroy] calls
    [fetch], not [navigator.sendBeacon], and writes nothing to the store;
    when that [fetch] succeeds the store stays empty for good, however
    the platform answers later beacons. *)
Lemma destroy_makes_no_emergency_attempt :
  beacon_batches (outbox (destroy page_one_event)) = []
  /\ fetch_batches (outbox (destroy page_one_event)) = [[ev 1]]
  /\ Storage.retrieve (storage (this page_one_event))
                      (localStorage (destroy page_one_event)) <> [ev 1]
  /\ Storage.retrieve (storage (this page_one_event))
       (localStorage
          (run [Destroy; Lifecycle PageHide false; FetchSettles 0 true;
                Lifecycle PageHide false] page_one_event)) <> [ev 1].
Proof. repeat split; discriminate. Qed.

(** An in-flight send makes [destroy] send nothing at all, and a queue
    longer than the batch size is only sent in part. *)
Example destroy_leaves_events_behind :
  outbox (destroy page_in_flight) = outbox page_in_flight
  /\ queue (this (destroy page_in_flight)) = [ev 3]
  /\ queue (this (destroy page_backlog)) = [ev 5].
Proof. repeat split. Qed.

(** C3, as the code has it.  [destroy] disarms the batch timer, so that
    no tick does anything afterwards, and calls [flush] once: one normal
    send cycle, a [fetch] of up to [batchSize] events from the queue
    head, and nothing when a send is in flight or the queue is empty.
    It never calls [navigator.sendBeacon] and does not write the Durable
    Store itself.  With fewer than [batchSize] events queued and nothing
    in flight the whole queue is the batch of that cycle; the events
    reach the Durable Store when that [fetch] fails, through the failure
    path of [send] (which also puts them back in the queue), and reach
    the endpoint, leaving the store as it was, when it succeeds. *)
Theorem destroy_flushes_once (p : Page) (R : reachable p) :
  sendTimer (this (destroy p)) = None
  /\ intervals (destroy p) = []
  /\ (forall id, step (TimerFire id) (destroy p) = destroy p)
  /\ beacon_batches (outbox (destroy p)) = beacon_batches (outbox p)
  /\ localStorage (destroy p) = localStorage p
  /\ (isSending (this p) = true \/ queue (this p) = [] ->
      outbox (destroy p) = outbox p
      /\ queue (this (destroy p)) = queue (this p))
  /\ (isSending (this p) = false -> queue (this p) <> [] ->
      outbox (destroy p)
      = outbox p
        ++ [FetchPost (apiUrl (this p))
              (payload p (splice_removed (batchSize (this p))
                                         (queue (this p))))]
      /\ awaiting (destroy p)
         = [splice_removed (batchSize (this p)) (queue (this p))]
      /\ queue (this (destroy p))
         = splice_kept (batchSize (this p)) (queue (this p)))
  /\ (isSending (this p) = false -> queue (this p) <> [] ->
      (Z.of_nat (length (queue (this p))) < batchSize (this p))%Z ->
      awaiting (destroy p) = [queue (this p)]
      /\ queue (this (destroy p)) = []
      /\ localStorage (send_resume 0 false (destroy p))
         = Storage.store (storage (this p)) (queue (this p)) (localStorage p)
      /\ queue (this (send_resume 0 false (destroy p))) = queue (this p)
      /\ (store_ready (storage (this p)) (localStorage p) = true ->
          Storage.retrieve (storage (this p))
            (localStorage (send_resume 0 false (destroy p)))
          = slice_last 1000
              (Storage.retrieve (storage (this p)) (localStorage p)
               ++ queue (this p)))
      /\ localStorage (send_resume 0 true (destroy p)) = localStorage p
      /\ received (send_resume 0 true (destroy p))
         = received p ++ [payload p (queue (this p))]).
Proof.
  pose proof (reachable_wf p R) as W.
  destruct (destroy_unfold p (reachable_timer_ok p R))
    as (p1 & -> & Ht & Hi & Hq & Hs & Ha & Ho & Hr & Hl & Hc).
  assert (Hcfg : apiUrl (this p1) = apiUrl (this p)
                 /\ batchSize (this p1) = batchSize (this p)
                 /\ storage (this p1) = storage (this p)).
  { unfold config in Hc. injection Hc as -> _ -> _ ->. auto. }
  destruct Hcfg as (Hu & Hb & Hst).
  destruct (send_timer p1) as [Ht1 Hi1].
  split; [congruence|]. split; [congruence|]. split.
  { intros id. simpl. now rewrite Hi1, Hi. }
  assert (Idle : isSending (this p) = false -> queue (this p) <> [] ->
            outbox (send p1)
            = outbox p
              ++ [FetchPost (apiUrl (this p))
                    (payload p (splice_removed (batchSize (this p))
                                               (queue (this p))))]
            /\ awaiting (send p1)
               = [splice_removed (batchSize (this p)) (queue (this p))]
            /\ queue (this (send p1))
               = splice_kept (batchSize (this p)) (queue (this p))).
  { intros Hs0 Hq0.
    assert (Hs1 : isSending (this p1) = false) by congruence.
    assert (Hq1 : queue (this p1) <> []) by congruence.
    destruct (send_cycle p1 Hs1 Hq1) as (Hq' & _ & Ha' & Ho' & _).
    rewrite Ho', Ha', Hq', Ha, Ho, Hq, Hb, Hu, (wf_idle p W Hs0).
    rewrite (payload_config p1 p _ Hc). auto. }
  split.
  { destruct (send_cases p1) as [-> | [Hs1 Hq1]]; [congruence|].
    destruct (Idle ltac:(congruence) ltac:(congruence)) as (-> & _).
    rewrite fetch_batches_app || rewrite beacon_batches_app. simpl.
    apply app_nil_r. }
  split; [now rewrite send_localStorage|].
  split.
  { intros G. rewrite send_guarded; [auto|]. rewrite Hs, Hq. exact G. }
  split; [exact Idle|].
  intros Hs0 Hq0 Hm. destruct (Idle Hs0 Hq0) as (Ho' & Ha' & Hq').
  assert (Hall : splice_removed (batchSize (this p)) (queue (this p))
                 = queue (this p)).
  { unfold splice_removed. apply firstn_all2. lia. }
  assert (Hnone : splice_kept (batchSize (this p)) (queue (this p)) = []).
  { unfold splice_kept. apply skipn_all2. lia. }
  rewrite Hall in Ha'. rewrite Hnone in Hq'.
  assert (E0 : nth_error (awaiting (send p1)) 0 = Some (queue (this p)))
    by now rewrite Ha'.
  destruct (send_resume_failure _ 0 _ E0) as (Fq & Fl & _).
  destruct (send_resume_success _ 0 _ E0) as (_ & Sl & _ & _ & Sr & _).
  rewrite send_storage, send_localStorage, Hst, Hl in Fl.
  rewrite Hq', app_nil_r in Fq.
  rewrite send_localStorage, Hl in Sl. rewrite send_received, Hr in Sr.
  rewrite (payload_config (send p1) p) in Sr
    by now rewrite config_send.
  repeat split; try assumption.
  intros Hready. rewrite Fl. apply store_appends; assumption.
Qed.

Lemma page_one_event_reachable : reachable page_one_event.
Proof.
  exists "https://api.example/events"%string, "pk"%string, None, None, None,
    fresh_storage, [Add (ev 1)].
  reflexivity.
Qed.

Lemma destroy_flushes_once_witness :
  beacon_batches (outbox (destroy page_one_event))
  = beacon_batches (outbox page_one_event)
  /\ awaiting (destroy page_one_event) = [queue (this page_one_event)].
Proof.
  destruct (destroy_flushes_once page_one_event page_one_event_reachable)
    as (_ & _ & _ & Hb & _ & _ & _ & H).
  split; [exact Hb|].
  apply H; [reflexivity | discriminate | reflexivity].
Defined.

(** ** Construction and restart *)

Lemma received_events_app p b :
  flat_map events (received p ++ [b]) = received_events p ++ events b.
Proof.
  unfold received_events. rewrite flat_map_app. simpl.
  now rewrite app_nil_r.
Qed.

Lemma streaming_run q0 acts g p :
  forallb no_accepted_beacon acts = true ->
  streaming q0 g p -> streaming q0 (g ++ added acts) (run acts p).
Proof.
  apply (run_preserves (streaming q0) no_accepted_beacon).
  - intros g' q [W H]. split; [now apply wf_send|].
    unfold received_events. now rewrite send_received, send_backlog.
  - intros g' id q _ H. exact H.
  - intros g' e q _ [W H]. split; [exact W|].
    unfold backlog, received_events in *. simpl.
    now rewrite !app_assoc, <- (app_assoc _ _ (queue (this q))), H.
  - intros g' s acc q Ha [W H]. destruct acc; [destruct s; discriminate|].
    unfold sendBeacon. destruct (length (queue (this q)) =? 0);
      split; assumption.
  - intros g' k ok q _ [W H]. split; [now apply wf_send_resume|].
    destruct (nth_error (awaiting q) k) as [d|] eqn:E;
      [|now rewrite send_resume_none].
    destruct (wf_nth_awaiting q k d W E) as (-> & Ea & _ & _).
    unfold backlog, received_events in *. rewrite Ea in H. simpl in H.
    rewrite app_nil_r in H.
    destruct ok.
    + destruct (send_resume_success q 0 d E) as (-> & _ & _ & -> & -> & _).
      rewrite Ea, received_events_app. unfold remove_nth. simpl.
      now rewrite <- app_assoc.
    + destruct (send_resume_failure q 0 d E) as (-> & _ & _ & -> & -> & _).
      rewrite Ea. unfold remove_nth. simpl. exact H.
Qed.

(** C5.  A scheduler constructed on storage that works and holds the
    persisted events [evs] starts with exactly [evs] as its queue and
    with the store empty.  Events of the new session are pushed behind
    them: in every run without an accepted beacon, what the endpoint has
    received, then what is in flight, then what is queued, is [evs]
    followed by the events enqueued since, so every persisted event is
    delivered ahead of every live one. *)
Theorem restart_reloads (url key : string) (size interval : option Z)
    (dbg : option bool) (ls : LocalStorage) (evs : list zFormsEvent)
    (Hitem : ls_item ls = ItemEvents evs)
    (Hok : Storage.checkStorageAvailability ls = true) :
  queue (this (new_EventQueue url key size interval dbg ls)) = evs
  /\ Storage.retrieve
       (storage (this (new_EventQueue url key size interval dbg ls)))
       (localStorage (new_EventQueue url key size interval dbg ls)) = []
  /\ Storage.retrieve
       (Storage.new (localStorage (new_EventQueue url key size interval dbg ls)))
       (localStorage (new_EventQueue url key size interval dbg ls)) = []
  /\ outbox (new_EventQueue url key size interval dbg ls) = []
  /\ forall acts,
       forallb no_accepted_beacon acts = true ->
       received_events (run acts (new_EventQueue url key size interval dbg ls))
       ++ backlog (run acts (new_EventQueue url key size interval dbg ls))
       = evs ++ added acts.
Proof.
  destruct (new_EventQueue_spec url key size interval dbg ls)
    as (Hq & He & Hs & Ha & Ho & Hr & _ & _ & Hd & Hf).
  assert (Hret : Storage.retrieve (Storage.new ls) ls = evs).
  { unfold Storage.retrieve, Storage.new, getItem. simpl. rewrite Hok.
    unfold Storage.checkStorageAvailability in Hok.
    apply negb_true_iff, orb_false_iff in Hok as [-> _]. simpl.
    now rewrite Hitem. }
  split; [now rewrite Hq|]. split; [exact He|]. split.
  { etransitivity; [|exact He].
    apply retrieve_same_availability. rewrite Hs.
    unfold Storage.new. cbn [Storage.isAvailable].
    unfold Storage.checkStorageAvailability. now rewrite Hd, Hf. }
  split; [exact Ho|].
  intros acts Hacts.
  apply (streaming_run evs acts [] _ Hacts). split; [apply wf_new|].
  unfold received_events, backlog. rewrite Hr, Ha, Hq, Hret. simpl.
  now rewrite app_nil_r.
Qed.

Lemma restart_reloads_witness :
  queue (this (new_EventQueue "u" "k" None None None stored_two))
  = [ev 1; ev 2].
Proof.
  apply (restart_reloads "u" "k" None None None stored_two [ev 1; ev 2]);
    reflexivity.
Defined.

(** On storage whose writes fail the probe fails, and what is persisted
    is neither loaded nor cleared. *)
Example restart_on_full_storage :
  let ls := {| ls_item := ItemEvents [ev 1; ev 2];
               ls_denied := false; ls_full := true |} in
  queue (this (new_EventQueue "u" "k" None None None ls)) = []
  /\ ls_item (localStorage (new_EventQueue "u" "k" None None None ls))
     = ItemEvents [ev 1; ev 2].
Proof. split; reflexivity. Qed.

(** The reloaded events go out first, ahead of the new session's. *)
Example restart_sends_stored_first :
  fetch_batches
    (outbox (run [Add (ev 3); TimerFire 1]
               (new_EventQueue "u" "k" None None None stored_two)))
  = [[ev 1; ev 2; ev 3]].
Proof. reflexivity. Qed.

(** ** What stays in the Durable Store *)

Lemma slice_last_suffix {A : Type} (n : nat) (a b : list A) :
  length b <= n -> exists pre, slice_last n (a ++ b) = pre ++ b.
Proof.
  intros H. unfold slice_last. rewrite skipn_app.
  exists (skipn (length (a ++ b) - n) a).
  rewrite length_app.
  replace (length a + length b - n - length a) with 0 by lia.
  reflexivity.
Qed.

Lemma quiet_retry_phase acts :
  forallb quiet acts = true -> forallb retry_phase acts = true.
Proof.
  induction acts as [|a acts IH]; simpl; [reflexivity|].
  intros H. apply andb_true_iff in H as [Ha H].
  rewrite (IH H), andb_true_r. now destruct a.
Qed.

Lemma quiet_run_localStorage acts p :
  forallb quiet acts = true -> localStorage (run acts p) = localStorage p.
Proof.
  intros H.
  apply (run_preserves (fun _ q => localStorage q = localStorage p) quiet)
    with (g := []); try discriminate; try reflexivity.
  - intros _ q Hq. now rewrite send_localStorage.
  - intros _ id q _ Hq. exact Hq.
  - intros _ e q _ Hq. exact Hq.
  - exact H.
Qed.

(** No action of a running instance empties a store that holds events. *)
Lemma step_keeps_store_nonempty a p :
  Storage.retrieve (storage (this p)) (localStorage p) <> [] ->
  Storage.retrieve (storage (this (step a p))) (localStorage (step a p))
  <> [].
Proof.
  apply (step_preserves
           (fun _ q => Storage.retrieve (storage (this q)) (localStorage q)
                       <> [])
           (fun _ => true)) with (g := []).
  - intros _ q H. now rewrite send_storage, send_localStorage.
  - intros _ id q _ H. exact H.
  - intros _ e q _ H. exact H.
  - intros _ _ acc q _ H. unfold sendBeacon.
    destruct (length (queue (this q)) =? 0); [exact H|].
    destruct acc; [exact H|]. simpl. now apply store_keeps_nonempty.
  - intros _ k ok q _ H. unfold send_resume.
    destruct (nth_error (awaiting q) k); [|exact H].
    destruct ok; [exact H|]. simpl. now apply store_keeps_nonempty.
  - reflexivity.
Qed.

Lemma run_keeps_store_nonempty acts : forall p,
  Storage.retrieve (storage (this p)) (localStorage p) <> [] ->
  Storage.retrieve (storage (this (run acts p))) (localStorage (run acts p))
  <> [].
Proof.
  induction acts as [|a acts IH]; intros p H; simpl; [exact H|].
  apply IH. now apply step_keeps_store_nonempty.
Qed.

(** C9.  The success path of [send] does not touch the Durable Store.
    So once a failed cycle has persisted its batch [b], no action of the
    running instance empties the store again; and when a later cycle
    succeeds and the endpoint receives a payload that opens with [b], the
    store still ends with [b].  A scheduler constructed afterwards on the
    same storage loads these events into its queue, to be sent a second
    time. *)
Theorem delivered_batch_stays_persisted (p : Page) (k : nat)
    (b : list zFormsEvent)
    (R : reachable p) (Hk : nth_error (awaiting p) k = Some b)
    (Hne : b <> []) (Hcap : length b <= 1000)
    (Hready : store_ready (storage (this p)) (localStorage p) = true) :
  (forall q j, localStorage (send_resume j true q) = localStorage q)
  /\ (forall acts,
        Storage.retrieve
          (storage (this (run acts (send_resume k false p))))
          (localStorage (run acts (send_resume k false p))) <> [])
  /\ forall acts j d url key size interval dbg,
       forallb quiet acts = true ->
       nth_error (awaiting (run acts (send_resume k false p))) j = Some d ->
       (exists x, d = b ++ x)
       /\ received (send_resume j true (run acts (send_resume k false p)))
          = received p ++ [payload p d]
       /\ localStorage (send_resume j true (run acts (send_resume k false p)))
          = Storage.store (storage (this p)) b (localStorage p)
       /\ exists pre,
            queue (this (new_EventQueue url key size interval dbg
                           (localStorage
                              (send_resume j true
                                 (run acts (send_resume k false p))))))
            = pre ++ b.
Proof.
  assert (S : forall q j, localStorage (send_resume j true q) = localStorage q).
  { intros q j. unfold send_resume.
    now destruct (nth_error (awaiting q) j). }
  pose proof (reachable_wf p R) as W.
  destruct (wf_nth_awaiting p k b W Hk) as (-> & Ea & Hs & Hfit).
  destruct (send_resume_failure p 0 b Hk)
    as (Hq & Hl & Hs' & Haw & Hr & Ho & Hb & Hst).
  pose proof (store_appends _ _ _ Hready Hne) as Happ.
  split; [exact S|]. split.
  { intros acts. apply run_keeps_store_nonempty. rewrite Hst, Hl, Happ.
    apply slice_last_app_nonnil;
      [unfold Storage.MAX_STORED_EVENTS; lia | exact Hne]. }
  intros acts j d url key size interval dbg Hquiet Hd.
  assert (I0 : retrying b (queue (this p)) (received p) (batchSize (this p))
                 [] (send_resume 0 false p)).
  { unfold retrying, leads, backlog.
    rewrite Haw, Hq, Hr, Hb, Ea. unfold remove_nth. simpl.
    repeat split.
    - exact (wf_send_resume 0 false p W).
    - eauto.
    - now rewrite app_nil_r. }
  pose proof (retrying_run b (queue (this p)) (received p)
                (batchSize (this p)) Hfit acts [] _
                (quiet_retry_phase acts Hquiet) I0)
    as (W' & HB' & L' & K' & R').
  destruct (wf_nth_awaiting _ j d W' Hd) as (-> & Ea' & _ & _).
  unfold leads in L'. rewrite Ea' in L'.
  destruct (send_resume_success _ 0 d Hd) as (_ & _ & _ & _ & Hrec & _).
  split; [exact L'|]. split.
  { rewrite Hrec, R'. f_equal. f_equal. apply payload_config.
    rewrite config_run. unfold send_resume. rewrite Hk. reflexivity. }
  assert (Els : localStorage (send_resume 0 true
                                (run acts (send_resume 0 false p)))
                = Storage.store (storage (this p)) b (localStorage p)).
  { now rewrite S, quiet_run_localStorage, Hl. }
  split; [exact Els|]. rewrite Els.
  destruct (new_EventQueue_spec url key size interval dbg
              (Storage.store (storage (this p)) b (localStorage p)))
    as (-> & _).
  destruct (slice_last_suffix 1000
              (Storage.retrieve (storage (this p)) (localStorage p)) b Hcap)
    as [pre Hpre].
  exists pre. etransitivity; [|exact Hpre]. etransitivity; [|exact Happ].
  apply retrieve_same_availability.
  unfold Storage.new, Storage.checkStorageAvailability.
  cbn [Storage.isAvailable].
  destruct (store_flags (storage (this p)) b (localStorage p)) as [-> ->].
  unfold store_ready in Hready.
  apply andb_true_iff in Hready as [Hready Hf].
  apply andb_true_iff in Hready as [Hav Hd'].
  apply negb_true_iff in Hf, Hd'. now rewrite Hav, Hf, Hd'.
Qed.

Lemma delivered_batch_stays_persisted_witness :
  Storage.retrieve
    (storage (this (run [Flush; FetchSettles 0 true]
                        (send_resume 0 false page_in_flight))))
    (localStorage (run [Flush; FetchSettles 0 true]
                       (send_resume 0 false page_in_flight))) <> []
  /\ exists pre,
       queue (this (new_EventQueue "u" "k" None None None
                      (localStorage
                         (send_resume 0 true
                            (run [Flush] (send_resume 0 false page_in_flight))))))
       = pre ++ [ev 1; ev 2].
Proof.
  destruct (delivered_batch_stays_persisted page_in_flight 0 [ev 1; ev 2]
              page_in_flight_reachable eq_refl ltac:(discriminate)
              ltac:(simpl; lia) eq_refl) as (_ & H2 & H3).
  split; [apply H2|].
  apply (H3 [Flush] 0 [ev 1; ev 2]); reflexivity.
Defined.

(** The same events, received once from the first instance and sent
    again by the second. *)
Example persisted_batch_sent_twice :
  let p := run [Add (ev 1); Add (ev 2); FetchSettles 0 false; Flush;
                FetchSettles 0 true]
               (new_EventQueue "u" "k" (Some 2%Z) None None fresh_storage) in
  let p' := run [Flush]
                (new_EventQueue "u" "k" (Some 2%Z) None None (localStorage p)) in
  received_events p = [ev 1; ev 2]
  /\ queue (this p) = []
  /\ fetch_batches (outbox p') = [[ev 1; ev 2]].
Proof. repeat split. Qed.

(** ** Batches when nothing fails *)

Lemma ceil_div_le n N k : 0 < n -> N <= k * n -> ceil_div N n <= k.
Proof.
  intros Hn H. unfold ceil_div.
  apply Nat.lt_succ_r, Nat.Div0.div_lt_upper_bound. lia.
Qed.

Lemma ceil_div_exact n N k :
  0 < n ->
  N = k * n \/ (0 < k /\ (k - 1) * n < N < k * n) ->
  ceil_div N n = k.
Proof.
  intros Hn H. unfold ceil_div. symmetry.
  destruct H as [-> | (Hk & Hlo & Hhi)].
  - apply (Nat.div_unique _ _ _ (n - 1)); lia.
  - destruct k as [|k]; [lia|].
    replace (S k - 1) with k in Hlo by lia.
    apply (Nat.div_unique _ _ _ (N + n - 1 - n * S k)); lia.
Qed.

Lemma length_concat_le {A : Type} (n : nat) (bs : list (list A)) :
  Forall (fun b => length b <= n) bs -> length (concat bs) <= length bs * n.
Proof.
  induction 1 as [|b bs Hb _ IH]; simpl; [lia|].
  rewrite length_app. lia.
Qed.

Lemma run_app acts1 acts2 : forall p,
  run (acts1 ++ acts2) p = run acts2 (run acts1 p).
Proof.
  induction acts1 as [|a acts1 IH]; intros p; simpl; [reflexivity|apply IH].
Qed.

Lemma added_app acts1 acts2 : added (acts1 ++ acts2) = added acts1 ++ added acts2.
Proof. apply flat_map_app. Qed.

Lemma send_sent p :
  isSending (this p) = false -> queue (this p) <> [] ->
  sent (send p)
  = sent p ++ [splice_removed (batchSize (this p)) (queue (this p))].
Proof.
  intros Hs Hq. destruct (send_cycle p Hs Hq) as (_ & _ & _ & Ho & _).
  unfold sent. rewrite Ho, fetch_batches_app. reflexivity.
Qed.

Lemma send_resume_outbox k ok p : outbox (send_resume k ok p) = outbox p.
Proof.
  unfold send_resume. destruct (nth_error (awaiting p) k); [|reflexivity].
  now destruct ok.
Qed.

Lemma send_resume_queue_ok k p :
  queue (this (send_resume k true p)) = queue (this p).
Proof.
  unfold send_resume. now destruct (nth_error (awaiting p) k).
Qed.

Lemma ledger_run q0 B acts g p :
  forallb no_failure acts = true ->
  ledger q0 B g p -> ledger q0 B (g ++ added acts) (run acts p).
Proof.
  apply (run_preserves (ledger q0 B) no_failure).
  - intros g' q (W & HB & Hc & Hr & Hf).
    split; [now apply wf_send|]. split; [now rewrite send_batchSize|].
    destruct (send_cases q) as [-> | [Hs Hq]]; [auto|].
    rewrite (send_sent q Hs Hq).
    destruct (send_cycle q Hs Hq) as (-> & _ & -> & _ & -> & _).
    split; [|split].
    + rewrite concat_app. simpl. rewrite app_nil_r, <- app_assoc.
      now rewrite splice_recombine.
    + now rewrite app_assoc, Hr.
    + apply Forall_app. split; [exact Hf|]. constructor; [|constructor].
      rewrite splice_removed_length, HB. lia.
  - intros g' id q _ H. exact H.
  - intros g' e q _ (W & HB & Hc & Hr & Hf). repeat split; try assumption.
    unfold sent in *. simpl. now rewrite app_assoc, Hc, app_assoc.
  - intros g' s acc q Ha. destruct s; discriminate.
  - intros g' k ok q Ha (W & HB & Hc & Hr & Hf).
    destruct ok; [|discriminate].
    split; [now apply wf_send_resume|].
    destruct (nth_error (awaiting q) k) as [d|] eqn:E;
      [|rewrite send_resume_none by exact E; auto].
    destruct (wf_nth_awaiting q k d W E) as (-> & Ea & _ & _).
    unfold sent in *. rewrite send_resume_outbox.
    destruct (send_resume_success q 0 d E)
      as (-> & _ & _ & -> & -> & _ & -> & _).
    rewrite Ea in *. unfold remove_nth. simpl.
    repeat split; try assumption.
    rewrite map_app. simpl. now rewrite app_nil_r.
Qed.

Lemma all_full_run n acts : forall p,
  forallb enqueue_phase acts = true ->
  wf p -> Z.to_nat (batchSize (this p)) = n -> all_full n p ->
  all_full n (run acts p).
Proof.
  induction acts as [|a acts IH]; intros p Hacts W HB H; simpl; [exact H|].
  simpl in Hacts. apply andb_true_iff in Hacts as [Ha Hacts].
  apply IH; [exact Hacts | now apply wf_step | |].
  - pose proof (config_step a p) as C. unfold config in C.
    injection C as _ _ C _ _. now rewrite C.
  - destruct a as [e| | | |id|s acc|k ok]; try discriminate; simpl.
    + unfold add.
      destruct (_ >=? _)%Z eqn:G; [|exact H].
      set (p1 := set_queue (queue (this p) ++ [e]) p) in *.
      destruct (send_cases p1) as [-> | [Hs Hq]]; [exact H|].
      unfold all_full. rewrite (send_sent p1 Hs Hq).
      rewrite concat_app, !length_app. simpl.
      rewrite app_nil_r, splice_removed_length.
      change (batchSize (this p1)) with (batchSize (this p)).
      change (sent p1) with (sent p).
      unfold all_full in H. rewrite H, HB.
      change (batchSize (this p1)) with (batchSize (this p)) in G.
      apply Z.geb_le in G. subst p1. simpl in G. lia.
    + unfold all_full, sent in *. now rewrite send_resume_outbox.
Qed.

Lemma last_short_run n acts p :
  0 < n ->
  forallb drain_phase acts = true ->
  Z.to_nat (batchSize (this p)) = n /\ last_short n p ->
  Z.to_nat (batchSize (this (run acts p))) = n /\ last_short n (run acts p).
Proof.
  intros Hn Hacts H.
  apply (run_preserves
           (fun _ q => Z.to_nat (batchSize (this q)) = n /\ last_short n q)
           drain_phase) with (g := []); try discriminate;
    try assumption.
  - intros _ q [HB L]. split; [now rewrite send_batchSize|].
    destruct (send_cases q) as [-> | [Hs Hq]]; [exact L|].
    destruct L as [F | (Hnil & _)]; [|contradiction].
    unfold last_short, all_full in *. rewrite (send_sent q Hs Hq).
    destruct (send_cycle q Hs Hq) as (-> & _).
    rewrite concat_app, !length_app. simpl.
    rewrite app_nil_r, splice_removed_length, HB, F.
    destruct (Nat.le_gt_cases n (length (queue (this q)))) as [Hge | Hlt].
    + left. lia.
    + right. split; [apply skipn_all2; unfold splice_kept; lia|].
      destruct (queue (this q)); [contradiction|]. simpl in *. lia.
  - intros _ id q _ L. exact L.
  - intros _ k ok q Ha [HB L]. destruct ok; [|discriminate].
    unfold last_short, all_full, sent in *.
    rewrite send_resume_outbox, send_resume_queue_ok.
    split; [|exact L].
    pose proof (config_step (FetchSettles k true) q) as C. unfold config in C.
    injection C as _ _ C _ _. simpl in C. now rewrite C.
Qed.

(** The claim that [N] events always arrive in exactly [ceil (N / B)]
    batches fails when the timer fires between two enqueues: with batch
    size 10 two events arrive in two batches of one, with no failure. *)
Lemma timer_tick_splits_batches :
  forallb no_failure slow_typing = true
  /\ queue (this (run slow_typing page_batch_10)) = []
  /\ awaiting (run slow_typing page_batch_10) = []
  /\ map events (received (run slow_typing page_batch_10))
     = [[ev 1]; [ev 2]]
  /\ length (received (run slow_typing page_batch_10))
     <> ceil_div (length (added slow_typing)) 10.
Proof. repeat split. discriminate. Qed.

(** C4, as the code has it.  On a fresh scheduler with batch size
    [B > 0], in a run where no [fetch] fails and no lifecycle signal
    fires: every batch is a head of the queue of at most [B] events; the
    batches sent, followed by the queue, are the events enqueued, in
    their order; each batch sent is received or still in flight.  When
    nothing is queued or in flight any more, the endpoint holds the [N]
    enqueued events in order, in at least [ceil (N / B)] batches; in
    exactly that many when the run is an enqueue phase (enqueues, and
    answers to requests) followed by a drain phase (flushes, timer ticks,
    teardown, and answers), so that every cycle started before the last
    enqueue carries a full batch. *)
Theorem batches_preserve_order (url key : string) (interval : option Z)
    (dbg : option bool) (ls : LocalStorage) (B : Z) (acts : list Action)
    (HB : (0 < B)%Z)
    (Hfresh : Storage.retrieve (Storage.new ls) ls = [])
    (Hok : forallb no_failure acts = true) :
  Forall (fun b => length b <= Z.to_nat B)
         (sent (run acts (new_EventQueue url key (Some B) interval dbg ls)))
  /\ concat (sent (run acts (new_EventQueue url key (Some B) interval dbg ls)))
     ++ queue (this (run acts (new_EventQueue url key (Some B) interval dbg ls)))
     = added acts
  /\ map events
       (received (run acts (new_EventQueue url key (Some B) interval dbg ls)))
     ++ awaiting (run acts (new_EventQueue url key (Some B) interval dbg ls))
     = sent (run acts (new_EventQueue url key (Some B) interval dbg ls))
  /\ (queue (this (run acts (new_EventQueue url key (Some B) interval dbg ls)))
      = [] ->
      awaiting (run acts (new_EventQueue url key (Some B) interval dbg ls))
      = [] ->
      received_events
        (run acts (new_EventQueue url key (Some B) interval dbg ls))
      = added acts
      /\ ceil_div (length (added acts)) (Z.to_nat B)
         <= length
              (received
                 (run acts (new_EventQueue url key (Some B) interval dbg ls)))
      /\ forall enq drain,
           acts = enq ++ drain ->
           forallb enqueue_phase enq = true ->
           forallb drain_phase drain = true ->
           length
             (received
                (run acts (new_EventQueue url key (Some B) interval dbg ls)))
           = ceil_div (length (added acts)) (Z.to_nat B)).
Proof.
  set (p0 := new_EventQueue url key (Some B) interval dbg ls).
  destruct (new_EventQueue_spec url key (Some B) interval dbg ls)
    as (Hq & _ & _ & Ha & Ho & Hr & _ & Hb & _).
  fold p0 in Hq, Ha, Ho, Hr, Hb. rewrite Hfresh in Hq.
  assert (S0 : sent p0 = []) by (unfold sent; now rewrite Ho).
  assert (L0 : ledger [] B [] p0).
  { unfold ledger. rewrite S0, Hq, Hr, Ha. repeat split; auto.
    apply wf_new. }
  pose proof (ledger_run [] B acts [] p0 Hok L0) as (W & HB' & Hc & Hrec & Hf).
  simpl in Hc.
  split; [exact Hf|]. split; [exact Hc|]. split; [exact Hrec|].
  intros Qnil Anil. rewrite Qnil, app_nil_r in Hc.
  rewrite Anil, app_nil_r in Hrec.
  assert (Hlen : length (received (run acts p0)) = length (sent (run acts p0))).
  { now rewrite <- Hrec, length_map. }
  split; [|split].
  - unfold received_events. rewrite flat_map_concat_map, Hrec. exact Hc.
  - rewrite Hlen, <- Hc. apply ceil_div_le; [lia|].
    now apply length_concat_le.
  - intros enq drain E Henq Hdrain.
    assert (F1 : all_full (Z.to_nat B) (run enq p0)).
    { apply all_full_run; [exact Henq | apply wf_new | |].
      - exact (f_equal Z.to_nat Hb).
      - unfold all_full. now rewrite S0. }
    assert (B1 : Z.to_nat (batchSize (this (run enq p0))) = Z.to_nat B).
    { pose proof (config_run enq p0) as C. unfold config in C.
      injection C as _ _ C _ _. rewrite C. exact (f_equal Z.to_nat Hb). }
    destruct (last_short_run (Z.to_nat B) drain (run enq p0)
                ltac:(lia) Hdrain (conj B1 (or_introl F1))) as [_ L].
    rewrite <- run_app, <- E in L.
    rewrite Hlen, <- Hc. symmetry. apply ceil_div_exact; [lia|].
    destruct L as [F | (_ & Hk & Hlo & Hhi)]; [left; exact F | right; lia].
Qed.

Lemma batches_preserve_order_witness :
  length
    (received
       (run [Add (ev 1); Add (ev 2); Add (ev 3); FetchSettles 0 true;
             TimerFire 1; FetchSettles 0 true]
          (new_EventQueue "u" "k" (Some 2%Z) None None fresh_storage)))
  = ceil_div
      (length (added [Add (ev 1); Add (ev 2); Add (ev 3); FetchSettles 0 true;
                      TimerFire 1; FetchSettles 0 true]))
      (Z.to_nat 2).
Proof.
  destruct (batches_preserve_order "u" "k" None None fresh_storage 2
              [Add (ev 1); Add (ev 2); Add (ev 3); FetchSettles 0 true;
               TimerFire 1; FetchSettles 0 true]
              eq_refl eq_refl eq_refl) as (_ & _ & _ & H).
  destruct H as (_ & _ & H); [reflexivity | reflexivity |].
  apply (H [Add (ev 1); Add (ev 2); Add (ev 3); FetchSettles 0 true]
           [TimerFire 1; FetchSettles 0 true]); reflexivity.
Defined.

(** * Further properties of the Durable Store *)

Lemma slice_last_again {A : Type} (n : nat) (x b : list A) :
  slice_last n (slice_last n x ++ b) = slice_last n (x ++ b).
Proof.
  destruct (Nat.le_gt_cases (length x) n) as [H | H].
  - now rewrite (slice_last_short n x H).
  - unfold slice_last at 1 3. rewrite !length_app, slice_last_length.
    unfold slice_last.
    replace (Nat.min n (length x) + length b - n) with (length b) by lia.
    replace (length x + length b - n) with (length b + (length x - n)) by lia.
    rewrite <- skipn_skipn. f_equal. rewrite skipn_app.
    replace (length x - n - length x) with 0 by lia. reflexivity.
Qed.

Lemma slice_last_incl {A : Type} (n : nat) (x : list A) :
  incl (slice_last n x) x.
Proof.
  intros a Ha. unfold slice_last in Ha.
  rewrite <- (firstn_skipn (length x - n) x). apply in_or_app. now right.
Qed.

Lemma store_count s evs ls :
  store_ready s ls = true -> evs <> [] ->
  Storage.count s (Storage.store s evs ls)
  = Nat.min 1000 (Storage.count s ls + length evs).
Proof.
  intros Hr He. unfold Storage.count. rewrite store_appends by assumption.
  now rewrite slice_last_length, length_app.
Qed.

(** X1.  Successive calls of [store] on a store that works and is within its
    cap add up: what is persisted after [store a] and [store b] is the
    latest 1000 of the old sequence followed by [a] and then [b], so
    eviction across several writes drops the oldest events first, and the
    count is the sum, capped at 1000. *)
Theorem store_twice (s : Storage.t) (ls : LocalStorage)
    (a b : list zFormsEvent)
    (Hready : store_ready s ls = true)
    (Hcap : Storage.count s ls <= 1000) :
  Storage.retrieve s (Storage.store s b (Storage.store s a ls))
  = slice_last 1000 (Storage.retrieve s ls ++ a ++ b)
  /\ Storage.count s (Storage.store s b (Storage.store s a ls))
     = Nat.min 1000 (Storage.count s ls + length a + length b).
Proof.
  assert (E : Storage.retrieve s (Storage.store s b (Storage.store s a ls))
              = slice_last 1000 (Storage.retrieve s ls ++ a ++ b)).
  { destruct a as [|x a]; [|destruct b as [|y b]].
    - rewrite store_nil. simpl. destruct b as [|y b].
      + rewrite store_nil, app_nil_r. symmetry.
        now apply slice_last_short.
      + apply store_appends; [exact Hready | discriminate].
    - rewrite store_nil, app_nil_r.
      apply store_appends; [exact Hready | discriminate].
    - rewrite store_appends;
        [|now rewrite store_ready_store | discriminate].
      rewrite store_appends; [|exact Hready | discriminate].
      change Storage.MAX_STORED_EVENTS with 1000.
      now rewrite slice_last_again, <- app_assoc. }
  split; [exact E|].
  unfold Storage.count in *. rewrite E, slice_last_length, !length_app. lia.
Qed.

Lemma store_twice_witness :
  Storage.retrieve (Storage.new stored_two)
    (Storage.store (Storage.new stored_two) [ev 4]
       (Storage.store (Storage.new stored_two) [ev 3] stored_two))
  = slice_last 1000 ([ev 1; ev 2] ++ [ev 3] ++ [ev 4]).
Proof.
  apply (store_twice (Storage.new stored_two) stored_two [ev 3] [ev 4]).
  - reflexivity.
  - unfold Storage.count. simpl. lia.
Defined.

(** X2.  [clear] leaves the store empty for the instance whatever state
    storage is in, and calling it again changes nothing.  On a store that
    works the key is removed, so the next [store] starts from nothing:
    what is retrieved after it is the latest 1000 of the events stored,
    none of the events persisted before the [clear]. *)
Theorem clear_then_store (s : Storage.t) (ls : LocalStorage)
    (evs : list zFormsEvent)
    (Hready : store_ready s ls = true) :
  Storage.retrieve s (Storage.clear s ls) = []
  /\ Storage.count s (Storage.clear s ls) = 0
  /\ ls_item (Storage.clear s ls) = ItemAbsent
  /\ Storage.clear s (Storage.clear s ls) = Storage.clear s ls
  /\ Storage.retrieve s (Storage.store s evs (Storage.clear s ls))
     = slice_last 1000 evs.
Proof.
  pose proof (clear_empties s ls) as E.
  assert (R : store_ready s (Storage.clear s ls) = true).
  { unfold store_ready in *.
    now destruct (clear_flags s ls) as [-> ->]. }
  unfold store_ready in Hready.
  apply andb_true_iff in Hready as [Hready Hf].
  apply andb_true_iff in Hready as [Hav Hd].
  apply negb_true_iff in Hf, Hd.
  split; [exact E|]. split; [unfold Storage.count; now rewrite E|].
  assert (I : ls_item (Storage.clear s ls) = ItemAbsent).
  { unfold Storage.clear, removeItem. now rewrite Hav, Hd. }
  split; [exact I|]. split.
  - unfold Storage.clear, removeItem. rewrite Hav. simpl.
    rewrite Hd. simpl. rewrite ?Hd. reflexivity.
  - destruct evs as [|e evs].
    + now rewrite store_nil, E.
    + rewrite store_appends; [|exact R | discriminate]. now rewrite E.
Qed.

Lemma clear_then_store_witness :
  Storage.retrieve (Storage.new stored_two)
    (Storage.store (Storage.new stored_two) [ev 3]
       (Storage.clear (Storage.new stored_two) stored_two))
  = slice_last 1000 [ev 3].
Proof.
  apply (clear_then_store (Storage.new stored_two) stored_two [ev 3]).
  reflexivity.
Defined.



(** * Further properties of the scheduler *)

Lemma storage_step a p : storage (this (step a p)) = storage (this p).
Proof.
  pose proof (config_step a p) as C. unfold config in C.
  now injection C as _ _ _ _ C.
Qed.

Lemma storage_run acts p : storage (this (run acts p)) = storage (this p).
Proof.
  pose proof (config_run acts p) as C. unfold config in C.
  now injection C as _ _ _ _ C.
Qed.

(** X4.  When the probe at construction fails, the instance never writes to
    storage again: whatever the run, [localStorage] stays as it was found,
    the instance retrieves nothing from it, and it started with an empty
    queue, even if events are persisted under the key. *)
Theorem unavailable_storage_untouched (url key : string)
    (size interval : option Z) (dbg : option bool) (ls : LocalStorage)
    (acts : list Action)
    (Hprobe : Storage.checkStorageAvailability ls = false) :
  queue (this (new_EventQueue url key size interval dbg ls)) = []
  /\ localStorage (run acts (new_EventQueue url key size interval dbg ls)) = ls
  /\ Storage.retrieve
       (storage (this (run acts (new_EventQueue url key size interval dbg ls))))
       (localStorage (run acts (new_EventQueue url key size interval dbg ls)))
     = [].
Proof.
  set (p0 := new_EventQueue url key size interval dbg ls).
  destruct (new_EventQueue_spec url key size interval dbg ls)
    as (Hq & _ & Hs & _).
  fold p0 in Hq, Hs.
  assert (Hav : Storage.isAvailable (storage (this p0)) = false).
  { rewrite Hs. exact Hprobe. }
  assert (R0 : Storage.retrieve (Storage.new ls) ls = []).
  { unfold Storage.retrieve, Storage.new. simpl. now rewrite Hprobe. }
  assert (L0 : localStorage p0 = ls).
  { unfold p0, new_EventQueue, loadStoredEvents. simpl. now rewrite R0. }
  assert (L : localStorage (run acts p0) = ls).
  { apply (run_preserves
             (fun _ q => Storage.isAvailable (storage (this q)) = false
                         /\ localStorage q = ls)
             (fun _ => true)) with (g := []) (p := p0).
    - intros _ q [Ha Hl].
      now rewrite send_storage, send_localStorage.
    - intros _ id q _ H. exact H.
    - intros _ e q _ H. exact H.
    - intros _ _ acc q _ [Ha Hl]. unfold sendBeacon.
      destruct (length (queue (this q)) =? 0); [auto|].
      destruct acc; [auto|]. simpl. split; [exact Ha|].
      now destruct (store_unavailable (storage (this q)) (queue (this q))
                      (localStorage q) Ha) as [-> _].
    - intros _ k ok q _ [Ha Hl]. unfold send_resume.
      destruct (nth_error (awaiting q) k) as [d|]; [|auto].
      destruct ok; [auto|]. simpl. split; [exact Ha|].
      now destruct (store_unavailable (storage (this q)) d
                      (localStorage q) Ha) as [-> _].
    - clear. induction acts; simpl; auto.
    - auto. }
  split; [now rewrite Hq|]. split; [exact L|].
  unfold Storage.retrieve. now rewrite storage_run, Hav.
Qed.

Lemma unavailable_storage_untouched_witness :
  localStorage
    (run [Add (ev 3); TimerFire 1; FetchSettles 0 false;
          Lifecycle PageHide false]
       (new_EventQueue "u" "k" None None None full_storage))
  = full_storage.
Proof.
  apply (unavailable_storage_untouched "u" "k" None None None full_storage
           [Add (ev 3); TimerFire 1; FetchSettles 0 false;
            Lifecycle PageHide false]).
  reflexivity.
Defined.

Lemma incl_firstn {A : Type} (n : nat) (l : list A) : incl (firstn n l) l.
Proof.
  intros a Ha. rewrite <- (firstn_skipn n l). apply in_or_app. now left.
Qed.

Lemma incl_skipn {A : Type} (n : nat) (l : list A) : incl (skipn n l) l.
Proof.
  intros a Ha. rewrite <- (firstn_skipn n l). apply in_or_app. now right.
Qed.

Lemma incl_nth_concat {A : Type} (l : list (list A)) k b :
  nth_error l k = Some b -> incl b (concat l).
Proof.
  intros E a Ha. apply in_concat. exists b. split; [|exact Ha].
  eapply nth_error_In. exact E.
Qed.

Lemma incl_concat_remove_nth {A : Type} (k : nat) (l : list (list A)) :
  incl (concat (remove_nth k l)) (concat l).
Proof.
  intros a Ha. unfold remove_nth in Ha. apply in_concat in Ha as (b & Hb & Ha).
  apply in_concat. exists b. split; [|exact Ha].
  apply in_app_or in Hb as [Hb | Hb].
  - now apply incl_firstn in Hb.
  - now apply incl_skipn in Hb.
Qed.

Lemma store_incl s evs ls :
  incl (Storage.retrieve s (Storage.store s evs ls))
       (Storage.retrieve s ls ++ evs).
Proof.
  destruct (store_ready s ls) eqn:R.
  - destruct evs as [|e evs].
    + rewrite store_nil. now apply incl_appl, incl_refl.
    + rewrite store_appends; [apply slice_last_incl | exact R | discriminate].
  - rewrite store_not_ready by exact R. now apply incl_appl, incl_refl.
Qed.

Lemma known_weaken U V p : incl U V -> known U p -> known V p.
Proof.
  intros H (K1 & K2 & K3 & K4 & K5 & K6).
  repeat split; eapply incl_tran; eassumption.
Qed.

Lemma known_send U p : known U p -> known U (send p).
Proof.
  intros K. destruct (send_cases p) as [-> | [Hs Hq]]; [exact K|].
  destruct K as (K1 & K2 & K3 & K4 & K5 & K6).
  destruct (send_cycle p Hs Hq)
    as (Eq & _ & Ea & Eo & Er & El & _ & _ & Est & _).
  unfold known, received_events.
  rewrite Eq, Ea, Eo, Er, El, Est, fetch_batches_app, beacon_batches_app.
  simpl. rewrite !concat_app. simpl. rewrite !app_nil_r.
  assert (Hb : incl (splice_removed (batchSize (this p)) (queue (this p))) U).
  { eapply incl_tran; [apply incl_firstn | exact K1]. }
  repeat split; try assumption.
  - eapply incl_tran; [apply incl_skipn | exact K1].
  - now apply incl_app.
  - now apply incl_app.
Qed.

Lemma known_sendBeacon U acc p : known U p -> known U (sendBeacon acc p).
Proof.
  intros K. destruct (queue (this p)) eqn:Eq.
  { now rewrite sendBeacon_empty. }
  assert (Hq : queue (this p) <> []) by congruence.
  destruct K as (K1 & K2 & K3 & K4 & K5 & K6).
  destruct acc.
  - destruct (sendBeacon_accepted p Hq) as (E1 & Eo & Er & El & Ea).
    assert (Est : storage (this (sendBeacon true p)) = storage (this p)).
    { unfold sendBeacon. now destruct (length (queue (this p)) =? 0). }
    unfold known, received_events.
    rewrite E1, Eo, Er, El, Ea, Est, fetch_batches_app, beacon_batches_app.
    rewrite flat_map_app. simpl. rewrite !concat_app. simpl.
    rewrite !app_nil_r.
    repeat split; try assumption.
    + apply incl_nil_l.
    + now apply incl_app.
    + now apply incl_app.
  - destruct (sendBeacon_rejected p Hq) as (E1 & Eo & Er & El & Ea).
    assert (Est : storage (this (sendBeacon false p)) = storage (this p)).
    { unfold sendBeacon. now destruct (length (queue (this p)) =? 0). }
    unfold known, received_events.
    rewrite E1, Eo, Er, El, Ea, Est, fetch_batches_app, beacon_batches_app.
    simpl. rewrite !concat_app. simpl. rewrite !app_nil_r.
    repeat split; try assumption.
    + now apply incl_app.
    + eapply incl_tran; [apply store_incl|]. now apply incl_app.
Qed.

Lemma known_send_resume U k ok p : known U p -> known U (send_resume k ok p).
Proof.
  intros K. destruct (nth_error (awaiting p) k) as [d|] eqn:E;
    [|now rewrite send_resume_none].
  destruct K as (K1 & K2 & K3 & K4 & K5 & K6).
  assert (Hd : incl d U).
  { eapply incl_tran; [eapply incl_nth_concat; exact E | exact K2]. }
  assert (Hrem : incl (concat (remove_nth k (awaiting p))) U).
  { eapply incl_tran; [apply incl_concat_remove_nth | exact K2]. }
  destruct ok.
  - destruct (send_resume_success p k d E)
      as (Eq & El & _ & Ea & Er & Eo & _ & Est).
    unfold known, received_events. rewrite Eq, El, Ea, Er, Eo, Est.
    rewrite flat_map_app. simpl. rewrite app_nil_r.
    repeat split; try assumption. now apply incl_app.
  - destruct (send_resume_failure p k d E)
      as (Eq & El & _ & Ea & Er & Eo & _ & Est).
    unfold known, received_events. rewrite Eq, El, Ea, Er, Eo, Est.
    repeat split; try assumption.
    + now apply incl_app.
    + eapply incl_tran; [apply store_incl|]. now apply incl_app.
Qed.

(** X5.  The scheduler makes up no event.  After any run, every event that
    is queued, in flight, in a request made by [fetch] or by
    [sendBeacon], with the endpoint, or persisted for this instance was
    either loaded from storage at construction or enqueued with [add]. *)
Theorem nothing_invented (url key : string) (size interval : option Z)
    (dbg : option bool) (ls : LocalStorage) (acts : list Action) :
  known (Storage.retrieve (Storage.new ls) ls ++ added acts)
        (run acts (new_EventQueue url key size interval dbg ls)).
Proof.
  apply (run_preserves
           (fun g q => known (Storage.retrieve (Storage.new ls) ls ++ g) q)
           (fun _ => true)) with (g := []).
  - intros g q. apply known_send.
  - intros g id q _ K. exact K.
  - intros g e q _ K.
    assert (K' : known (Storage.retrieve (Storage.new ls) ls ++ g ++ [e]) q).
    { eapply known_weaken; [|exact K].
      rewrite app_assoc. apply incl_appl, incl_refl. }
    destruct K' as (K1 & K2 & K3 & K4 & K5 & K6).
    repeat split; try assumption. simpl.
    apply incl_app; [exact K1|].
    intros x [<- | []]. rewrite app_assoc. apply in_or_app. right. now left.
  - intros g s acc q _. apply known_sendBeacon.
  - intros g k ok q _. apply known_send_resume.
  - clear. induction acts; simpl; auto.
  - destruct (new_EventQueue_spec url key size interval dbg ls)
      as (Hq & He & _ & Ha & Ho & Hr & _).
    unfold known, received_events. rewrite Hq, He, Ha, Ho, Hr, app_nil_r.
    simpl. repeat split; try apply incl_nil_l. apply incl_refl.
Qed.

Lemma adds_below_threshold es : forall p,
  isSending (this p) = false ->
  (Z.of_nat (length (queue (this p)) + length es) < batchSize (this p))%Z ->
  queue (this (run (map Add es) p)) = queue (this p) ++ es
  /\ outbox (run (map Add es) p) = outbox p
  /\ awaiting (run (map Add es) p) = awaiting p
  /\ isSending (this (run (map Add es) p)) = false
  /\ config (run (map Add es) p) = config p.
Proof.
  induction es as [|e es IH]; intros p Hs Hlt; simpl.
  - now rewrite app_nil_r.
  - unfold add.
    set (p1 := set_queue (queue (this p) ++ [e]) p).
    assert (G : (Z.of_nat (length (queue (this p1))) >=? batchSize (this p1))%Z
                = false).
    { unfold p1. simpl. rewrite length_app. simpl in *.
      rewrite Z.geb_leb. apply Z.leb_gt. lia. }
    rewrite G.
    destruct (IH p1) as (Hq & Ho & Ha & Hs' & Hc).
    + exact Hs.
    + unfold p1. simpl. rewrite length_app. simpl in *. lia.
    + rewrite Hq, Ho, Ha, Hs', Hc. unfold p1. simpl.
      now rewrite <- app_assoc.
Qed.

(** X6.  The size threshold.  On a fresh scheduler with nothing reloaded,
    enqueueing fewer events than [batchSize] makes no request: the events
    wait in the queue for the timer or a flush.  The event that brings the
    queue to [batchSize] starts a send cycle at once, and its [fetch]
    carries exactly these events, in order, leaving the queue empty. *)
Theorem batch_size_threshold (url key : string) (interval : option Z)
    (dbg : option bool) (ls : LocalStorage) (B : Z)
    (es : list zFormsEvent) (e : zFormsEvent)
    (Hfresh : Storage.retrieve (Storage.new ls) ls = [])
    (Hlen : Z.of_nat (S (length es)) = B) :
  outbox (run (map Add es) (new_EventQueue url key (Some B) interval dbg ls))
  = []
  /\ queue (this (run (map Add es)
                    (new_EventQueue url key (Some B) interval dbg ls)))
     = es
  /\ outbox (run (map Add (es ++ [e]))
               (new_EventQueue url key (Some B) interval dbg ls))
     = [FetchPost url {| project_key := key; events := es ++ [e] |}]
  /\ awaiting (run (map Add (es ++ [e]))
                 (new_EventQueue url key (Some B) interval dbg ls))
     = [es ++ [e]]
  /\ queue (this (run (map Add (es ++ [e]))
                    (new_EventQueue url key (Some B) interval dbg ls)))
     = [].
Proof.
  set (p0 := new_EventQueue url key (Some B) interval dbg ls).
  destruct (new_EventQueue_spec url key (Some B) interval dbg ls)
    as (Hq & _ & _ & Ha & Ho & _ & Hs & Hb & _).
  fold p0 in Hq, Ha, Ho, Hs, Hb. rewrite Hfresh in Hq.
  destruct (adds_below_threshold es p0 Hs) as (Eq & Eo & Ea & Es & Ec).
  { rewrite Hq, Hb. simpl. lia. }
  rewrite Hq in Eq. simpl in Eq. rewrite Ho in Eo. rewrite Ha in Ea.
  split; [exact Eo|]. split; [exact Eq|].
  rewrite map_app, run_app. simpl.
  set (p := run (map Add es) p0) in *.
  assert (Ecfg : apiUrl (this p) = url /\ projectKey (this p) = key
                 /\ batchSize (this p) = B).
  { unfold config in Ec. injection Ec as -> -> -> _ _.
    unfold p0, new_EventQueue, loadStoredEvents. simpl.
    destruct (0 <? _); auto. }
  destruct Ecfg as (Eu & Ek & Eb).
  unfold add.
  set (p1 := set_queue (queue (this p) ++ [e]) p).
  assert (G : (Z.of_nat (length (queue (this p1))) >=? batchSize (this p1))%Z
              = true).
  { unfold p1. simpl. rewrite Eq, Eb, length_app. simpl.
    apply Z.geb_le. lia. }
  rewrite G.
  assert (Hs1 : isSending (this p1) = false) by exact Es.
  assert (Hq1 : queue (this p1) <> []).
  { unfold p1. simpl. now destruct (queue (this p)). }
  destruct (send_cycle p1 Hs1 Hq1) as (-> & _ & -> & -> & _).
  assert (Hall : splice_removed (batchSize (this p1)) (queue (this p1))
                 = es ++ [e]).
  { unfold p1, splice_removed. simpl. rewrite Eq, Eb.
    apply firstn_all2. rewrite length_app. simpl. lia. }
  assert (Hnone : splice_kept (batchSize (this p1)) (queue (this p1)) = []).
  { unfold p1, splice_kept. simpl. rewrite Eq, Eb.
    apply skipn_all2. rewrite length_app. simpl. lia. }
  rewrite Hall, Hnone.
  change (outbox p1) with (outbox p). change (awaiting p1) with (awaiting p).
  rewrite Eo, Ea. unfold payload.
  change (apiUrl (this p1)) with (apiUrl (this p)).
  change (projectKey (this p1)) with (projectKey (this p)).
  rewrite Eu, Ek. auto.
Qed.

Lemma batch_size_threshold_witness :
  outbox (run (map Add [ev 1; ev 2])
            (new_EventQueue "u" "k" (Some 3%Z) None None fresh_storage))
  = []
  /\ outbox (run (map Add ([ev 1; ev 2] ++ [ev 3]))
               (new_EventQueue "u" "k" (Some 3%Z) None None fresh_storage))
     = [FetchPost "u" {| project_key := "k";
                         events := [ev 1; ev 2] ++ [ev 3] |}].
Proof.
  destruct (batch_size_threshold "u" "k" None None fresh_storage 3
              [ev 1; ev 2] (ev 3) eq_refl eq_refl) as (H1 & _ & H3 & _).
  split; [exact H1 | exact H3].
Defined.

Lemma new_EventQueue_timer url key size interval dbg ls :
  intervals (new_EventQueue url key size interval dbg ls) = [1]
  /\ sendTimer (this (new_EventQueue url key size interval dbg ls)) = Some 1
  /\ apiUrl (this (new_EventQueue url key size interval dbg ls)) = url
  /\ projectKey (this (new_EventQueue url key size interval dbg ls)) = key.
Proof.
  unfold new_EventQueue, loadStoredEvents. simpl.
  destruct (0 <? _); simpl; auto.
Qed.

(** X7.  Construction sends nothing, however many events it reloads: they
    wait, with one timer armed.  The first tick of that timer starts the
    first send cycle, whose [fetch] carries the first [batchSize] reloaded
    events and leaves the rest queued. *)
Theorem reloaded_events_wait_for_tick (url key : string)
    (size interval : option Z) (dbg : option bool) (ls : LocalStorage)
    (Hloaded : Storage.retrieve (Storage.new ls) ls <> []) :
  outbox (new_EventQueue url key size interval dbg ls) = []
  /\ awaiting (new_EventQueue url key size interval dbg ls) = []
  /\ intervals (new_EventQueue url key size interval dbg ls) = [1]
  /\ outbox (step (TimerFire 1) (new_EventQueue url key size interval dbg ls))
     = [FetchPost url
          {| project_key := key;
             events :=
               firstn (Z.to_nat (match size with Some n => n | None => 10%Z end))
                      (Storage.retrieve (Storage.new ls) ls) |}]
  /\ queue (this (step (TimerFire 1)
                    (new_EventQueue url key size interval dbg ls)))
     = skipn (Z.to_nat (match size with Some n => n | None => 10%Z end))
             (Storage.retrieve (Storage.new ls) ls).
Proof.
  set (p0 := new_EventQueue url key size interval dbg ls).
  destruct (new_EventQueue_spec url key size interval dbg ls)
    as (Hq & _ & _ & Ha & Ho & _ & Hs & Hb & _).
  destruct (new_EventQueue_timer url key size interval dbg ls)
    as (Hi & _ & Hu & Hk).
  fold p0 in Hq, Ha, Ho, Hs, Hb, Hi, Hu, Hk.
  split; [exact Ho|]. split; [exact Ha|]. split; [exact Hi|].
  assert (St : step (TimerFire 1) p0 = send p0).
  { unfold step. rewrite Hi. simpl. apply timer_callback_eq. }
  rewrite St.
  assert (Hq0 : queue (this p0) <> []) by now rewrite Hq.
  destruct (send_cycle p0 Hs Hq0) as (-> & _ & _ & -> & _).
  rewrite Ho, Hq, Hb, Hu. unfold payload. rewrite Hk. auto.
Qed.

Lemma reloaded_events_wait_for_tick_witness :
  outbox (new_EventQueue "u" "k" (Some 1%Z) None None stored_two) = []
  /\ queue (this (step (TimerFire 1)
                    (new_EventQueue "u" "k" (Some 1%Z) None None stored_two)))
     = skipn (Z.to_nat 1) (Storage.retrieve (Storage.new stored_two) stored_two).
Proof.
  destruct (reloaded_events_wait_for_tick "u" "k" (Some 1%Z) None None
              stored_two ltac:(discriminate)) as (H1 & _ & _ & _ & H5).
  split; [exact H1 | exact H5].
Defined.

(** X8.  A rejected emergency send is not idempotent.  The queue is kept, so
    a second rejected signal attempts the same payload and stores the same
    events again: on a store that works they are persisted twice, and a
    scheduler constructed on that storage afterwards would load both
    copies. *)
Theorem rejected_beacon_twice_stores_twice (p : Page)
    (Hq : queue (this p) <> [])
    (Hready : store_ready (storage (this p)) (localStorage p) = true) :
  queue (this (sendBeacon false (sendBeacon false p))) = queue (this p)
  /\ beacon_batches (outbox (sendBeacon false (sendBeacon false p)))
     = beacon_batches (outbox p) ++ [queue (this p); queue (this p)]
  /\ Storage.retrieve (storage (this p))
       (localStorage (sendBeacon false (sendBeacon false p)))
     = slice_last 1000
         (Storage.retrieve (storage (this p)) (localStorage p)
          ++ queue (this p) ++ queue (this p)).
Proof.
  destruct (sendBeacon_rejected p Hq) as (E1 & Eo & _ & El & _).
  assert (Est : storage (this (sendBeacon false p)) = storage (this p)).
  { unfold sendBeacon. now destruct (length (queue (this p)) =? 0). }
  assert (Eu : apiUrl (this (sendBeacon false p)) = apiUrl (this p)).
  { unfold sendBeacon. now destruct (length (queue (this p)) =? 0). }
  assert (Hq' : queue (this (sendBeacon false p)) <> []) by now rewrite E1.
  destruct (sendBeacon_rejected _ Hq') as (E1' & Eo' & _ & El' & _).
  split; [now rewrite E1', E1|]. split.
  - rewrite Eo', Eo, !beacon_batches_app, E1. simpl.
    now rewrite <- app_assoc.
  - rewrite El', El, E1, Est.
    rewrite store_appends; [|now rewrite store_ready_store | exact Hq].
    rewrite store_appends; [|exact Hready | exact Hq].
    change Storage.MAX_STORED_EVENTS with 1000.
    now rewrite slice_last_again, <- app_assoc.
Qed.

Lemma rejected_beacon_twice_stores_twice_witness :
  Storage.retrieve (storage (this page_one_event))
    (localStorage (sendBeacon false (sendBeacon false page_one_event)))
  = slice_last 1000 ([] ++ [ev 1] ++ [ev 1]).
Proof.
  apply (rejected_beacon_twice_stores_twice page_one_event).
  - discriminate.
  - reflexivity.
Defined.



(** X10.  Every failure of a retry persists the batch anew.  After a batch [b]
    has failed and been persisted, let enqueues, flushes and ticks start
    the next cycle, with batch [d] (which opens with [b]); if that cycle
    fails too, [d] is stored behind [b]: on a store that works the events
    of [b] are persisted twice, so a later instance reloads them twice. *)
Theorem failed_retry_persists_again (p : Page) (k j : nat)
    (b d : list zFormsEvent) (acts : list Action)
    (R : reachable p) (Hk : nth_error (awaiting p) k = Some b)
    (Hne : b <> [])
    (Hready : store_ready (storage (this p)) (localStorage p) = true)
    (Hquiet : forallb quiet acts = true)
    (Hj : nth_error (awaiting (run acts (send_resume k false p))) j = Some d) :
  (exists x, d = b ++ x)
  /\ Storage.retrieve (storage (this p))
       (localStorage
          (send_resume j false (run acts (send_resume k false p))))
     = slice_last 1000
         (Storage.retrieve (storage (this p)) (localStorage p) ++ b ++ d)
  /\ queue (this (send_resume j false (run acts (send_resume k false p))))
     = b ++ queue (this p) ++ added acts.
Proof.
  pose proof (reachable_wf p R) as W.
  destruct (wf_nth_awaiting p k b W Hk) as (-> & Ea & Hs & Hfit).
  destruct (send_resume_failure p 0 b Hk)
    as (Hq & Hl & Hs' & Haw & Hr & Ho & Hb & Hst).
  assert (I0 : retrying b (queue (this p)) (received p) (batchSize (this p))
                 [] (send_resume 0 false p)).
  { unfold retrying, leads, backlog.
    rewrite Haw, Hq, Hr, Hb, Ea. unfold remove_nth. simpl.
    repeat split.
    - exact (wf_send_resume 0 false p W).
    - eauto.
    - now rewrite app_nil_r. }
  pose proof (retrying_run b (queue (this p)) (received p)
                (batchSize (this p)) Hfit acts [] _
                (quiet_retry_phase acts Hquiet) I0)
    as (W' & HB' & L' & K' & R').
  destruct (wf_nth_awaiting _ j d W' Hj) as (-> & Ea' & _ & _).
  unfold leads, backlog in L', K'. rewrite Ea' in L', K'. simpl in K'.
  rewrite app_nil_r in K'.
  destruct (send_resume_failure _ 0 d Hj) as (Fq & Fl & _).
  split; [exact L'|]. split.
  - rewrite Fl, storage_run, Hst, quiet_run_localStorage by exact Hquiet.
    rewrite Hl.
    assert (Hd : d <> []).
    { destruct L' as [x ->]. destruct b; [congruence | discriminate]. }
    rewrite store_appends; [|now rewrite store_ready_store | exact Hd].
    rewrite store_appends; [|exact Hready | exact Hne].
    change Storage.MAX_STORED_EVENTS with 1000.
    now rewrite slice_last_again, <- app_assoc.
  - now rewrite Fq.
Qed.

Lemma failed_retry_persists_again_witness :
  Storage.retrieve (storage (this page_in_flight))
    (localStorage
       (send_resume 0 false
          (run [Flush] (send_resume 0 false page_in_flight))))
  = slice_last 1000 ([] ++ [ev 1; ev 2] ++ [ev 1; ev 2]).
Proof.
  apply (failed_retry_persists_again page_in_flight 0 0 [ev 1; ev 2]
           [ev 1; ev 2] [Flush] page_in_flight_reachable eq_refl
           ltac:(discriminate) eq_refl eq_refl eq_refl).
Defined.

Lemma nonpositive_sends_empty acts p :
  (batchSize (this p) <= 0)%Z ->
  Forall (fun b => b = []) (sent p) ->
  Forall (fun b => b = []) (awaiting p) ->
  Forall (fun b => b = []) (sent (run acts p))
  /\ Forall (fun b => b = []) (awaiting (run acts p)).
Proof.
  intros HB HS HA.
  cut ((batchSize (this (run acts p)) <= 0)%Z
       /\ Forall (fun b => b = []) (sent (run acts p))
       /\ Forall (fun b => b = []) (awaiting (run acts p)));
    [intros (_ & S & A); auto|].
  apply (run_preserves
           (fun _ q => (batchSize (this q) <= 0)%Z
                       /\ Forall (fun b => b = []) (sent q)
                       /\ Forall (fun b => b = []) (awaiting q))
           (fun _ => true)) with (g := []) (p := p).
  - intros _ q (B & S & A). rewrite send_batchSize.
    split; [exact B|].
    destruct (send_cases q) as [-> | [Hs Hq]]; [auto|].
    rewrite (send_sent q Hs Hq).
    destruct (send_cycle q Hs Hq) as (_ & _ & -> & _).
    assert (E : splice_removed (batchSize (this q)) (queue (this q)) = []).
    { unfold splice_removed.
      replace (Z.to_nat (batchSize (this q))) with 0 by lia. reflexivity. }
    rewrite E. split; apply Forall_app; auto.
  - intros _ id q _ H. exact H.
  - intros _ e q _ H. exact H.
  - intros _ _ acc q _ (B & S & A). unfold sendBeacon, sent in *.
    destruct (length (queue (this q)) =? 0); [auto|].
    destruct acc; simpl; rewrite fetch_batches_app; simpl;
      rewrite app_nil_r; auto.
  - intros _ k ok q _ (B & S & A). unfold sent in *.
    rewrite send_resume_outbox.
    unfold send_resume. destruct (nth_error (awaiting q) k); [|auto].
    assert (A' : Forall (fun b => b = []) (remove_nth k (awaiting q))).
    { unfold remove_nth. apply Forall_app. split.
      - apply Forall_forall. intros x Hx. apply incl_firstn in Hx.
        revert x Hx. now apply Forall_forall.
      - apply Forall_forall. intros x Hx. apply incl_skipn in Hx.
        revert x Hx. now apply Forall_forall. }
    destruct ok; simpl; auto.
  - clear. induction acts; simpl; auto.
  - auto.
Qed.

(** X11.  With a batch size that is not positive, [splice] removes nothing:
    every send cycle posts an empty batch and the queue keeps all its
    events.  So no [fetch] ever carries an event, and as long as no beacon
    is accepted the queue is everything that was reloaded and enqueued. *)
Theorem nonpositive_batch_size_sends_nothing (url key : string)
    (interval : option Z) (dbg : option bool) (ls : LocalStorage) (B : Z)
    (acts : list Action)
    (HB : (B <= 0)%Z) :
  Forall (fun b => b = [])
         (sent (run acts (new_EventQueue url key (Some B) interval dbg ls)))
  /\ (forallb no_accepted_beacon acts = true ->
      queue (this (run acts (new_EventQueue url key (Some B) interval dbg ls)))
      = Storage.retrieve (Storage.new ls) ls ++ added acts).
Proof.
  set (p0 := new_EventQueue url key (Some B) interval dbg ls).
  destruct (new_EventQueue_spec url key (Some B) interval dbg ls)
    as (Hq & _ & _ & Ha & Ho & _ & _ & Hb & _).
  fold p0 in Hq, Ha, Ho, Hb.
  split.
  - apply nonpositive_sends_empty.
    + now rewrite Hb.
    + unfold sent. rewrite Ho. constructor.
    + rewrite Ha. constructor.
  - intros Hacts.
    cut ((batchSize (this (run acts p0)) <= 0)%Z
         /\ Forall (fun b => b = []) (awaiting (run acts p0))
         /\ queue (this (run acts p0))
            = Storage.retrieve (Storage.new ls) ls ++ [] ++ added acts);
      [now intros (_ & _ & ->)|].
    apply (run_preserves
             (fun g q => (batchSize (this q) <= 0)%Z
                         /\ Forall (fun b => b = []) (awaiting q)
                         /\ queue (this q)
                            = Storage.retrieve (Storage.new ls) ls ++ g)
             no_accepted_beacon) with (p := p0).
    + intros g q (Bq & A & Q). rewrite send_batchSize.
      split; [exact Bq|].
      destruct (send_cases q) as [-> | [Hs Hne]]; [auto|].
      destruct (send_cycle q Hs Hne) as (-> & _ & -> & _).
      unfold splice_removed, splice_kept.
      replace (Z.to_nat (batchSize (this q))) with 0 by lia. simpl.
      split; [apply Forall_app; auto | exact Q].
    + intros g id q _ H. exact H.
    + intros g e q _ (Bq & A & Q). repeat split; try assumption.
      simpl. now rewrite Q, app_assoc.
    + intros g s acc q Hacc (Bq & A & Q).
      destruct acc; [destruct s; discriminate|].
      unfold sendBeacon. destruct (length (queue (this q)) =? 0); auto.
    + intros g k ok q _ (Bq & A & Q).
      destruct (nth_error (awaiting q) k) as [d|] eqn:E;
        [|rewrite send_resume_none by exact E; auto].
      assert (Hd : d = []).
      { apply nth_error_In in E. revert d E. now apply Forall_forall. }
      assert (A' : Forall (fun b => b = []) (remove_nth k (awaiting q))).
      { unfold remove_nth. apply Forall_app. split.
        - apply Forall_forall. intros x Hx. apply incl_firstn in Hx.
          revert x Hx. now apply Forall_forall.
        - apply Forall_forall. intros x Hx. apply incl_skipn in Hx.
          revert x Hx. now apply Forall_forall. }
      destruct ok.
      * destruct (send_resume_success q k d E)
          as (-> & _ & _ & -> & _ & _ & -> & _). auto.
      * destruct (send_resume_failure q k d E)
          as (-> & _ & _ & -> & _ & _ & -> & _).
        subst d. simpl. auto.
    + exact Hacts.
    + rewrite Hb, Ha, Hq, app_nil_r. auto.
Qed.

Lemma nonpositive_batch_size_sends_nothing_witness :
  Forall (fun b => b = [])
    (sent (run [Add (ev 1); Add (ev 2); FetchSettles 0 true; TimerFire 1]
             (new_EventQueue "u" "k" (Some 0%Z) None None fresh_storage))).
Proof.
  apply (nonpositive_batch_size_sends_nothing "u" "k" None None
           fresh_storage 0
           [Add (ev 1); Add (ev 2); FetchSettles 0 true; TimerFire 1]).
  lia.
Defined.

(** ** Draining by flush *)

Lemma ceil_div_zero d : 0 < d -> ceil_div 0 d = 0.
Proof. intros H. unfold ceil_div. apply Nat.div_small. lia. Qed.

Lemma ceil_div_step n d :
  0 < d -> 0 < n -> ceil_div n d = S (ceil_div (n - d) d).
Proof.
  intros Hd Hn. apply ceil_div_exact; [exact Hd|].
  destruct (Nat.le_gt_cases n d) as [H | H].
  - replace (n - d) with 0 by lia. rewrite ceil_div_zero by exact Hd.
    destruct (Nat.eq_dec n d) as [-> | Hne]; [left; lia | right; lia].
  - unfold ceil_div.
    pose proof (Nat.div_mod_eq (n - d + d - 1) d) as E.
    pose proof (Nat.mod_upper_bound (n - d + d - 1) d ltac:(lia)) as U.
    set (q := (n - d + d - 1) / d) in *.
    set (r := (n - d + d - 1) mod d) in *.
    destruct (Nat.eq_dec r (d - 1)) as [Hr | Hr].
    + left. simpl. nia.
    + right. simpl. nia.
Qed.

Lemma ceil_div_covers n d : 0 < d -> n <= ceil_div n d * d.
Proof.
  intros Hd. unfold ceil_div.
  pose proof (Nat.div_mod_eq (n + d - 1) d) as E.
  pose proof (Nat.mod_upper_bound (n + d - 1) d ltac:(lia)) as U.
  nia.
Qed.

Lemma flush_cycles_drain n : forall p,
  wf p -> isSending (this p) = false ->
  0 < Z.to_nat (batchSize (this p)) ->
  length (queue (this p)) <= n * Z.to_nat (batchSize (this p)) ->
  queue (this (run (flush_cycles n) p)) = []
  /\ awaiting (run (flush_cycles n) p) = []
  /\ received_events (run (flush_cycles n) p)
     = received_events p ++ queue (this p)
  /\ length (received (run (flush_cycles n) p))
     = length (received p)
       + ceil_div (length (queue (this p))) (Z.to_nat (batchSize (this p))).
Proof.
  induction n as [|n IH]; intros p W Hs HB Hlen.
  - simpl in *. destruct (queue (this p)); [|simpl in Hlen; lia].
    rewrite (wf_idle p W Hs), app_nil_r, ceil_div_zero by exact HB.
    auto.
  - unfold flush_cycles. simpl. fold (flush_cycles n). rewrite flush_eq.
    assert (D : queue (this p) = [] \/ queue (this p) <> []).
    { destruct (queue (this p)); [left; reflexivity | right; discriminate]. }
    destruct D as [Eq | Hq].
    + rewrite send_guarded by (right; exact Eq).
      rewrite send_resume_none by now rewrite (wf_idle p W Hs).
      apply (IH p W Hs HB). rewrite Eq. simpl. lia.
    + assert (Hpos : 0 < length (queue (this p))).
      { destruct (queue (this p)); [congruence | simpl; lia]. }
      destruct (send_cycle p Hs Hq) as (Sq & Ss & Sa & _ & Sr & _).
      rewrite (wf_idle p W Hs) in Sa. simpl in Sa.
      assert (E0 : nth_error (awaiting (send p)) 0
                   = Some (splice_removed (batchSize (this p))
                                          (queue (this p))))
        by now rewrite Sa.
      destruct (send_resume_success _ 0 _ E0)
        as (Rq & _ & Rs & Ra & Rr & _ & Rb & _).
      set (p' := send_resume 0 true (send p)) in *.
      rewrite send_batchSize in Rb.
      assert (W' : wf p') by (apply wf_send_resume, wf_send, W).
      assert (Lq : length (queue (this p'))
                   = length (queue (this p)) - Z.to_nat (batchSize (this p))).
      { rewrite Rq, Sq. apply length_skipn. }
      destruct (IH p' W' Rs) as (I1 & I2 & I3 & I4).
      { now rewrite Rb. }
      { rewrite Lq, Rb. simpl in Hlen. lia. }
      split; [exact I1|]. split; [exact I2|]. split.
      * rewrite I3. unfold received_events at 1. rewrite Rr, Sr.
        rewrite flat_map_app. simpl. rewrite app_nil_r, Rq, Sq.
        rewrite <- app_assoc. f_equal. apply splice_recombine.
      * rewrite I4, Rr, Sr, length_app, Lq, Rb. simpl.
        rewrite (ceil_div_step (length (queue (this p)))) by lia. lia.
Qed.

(** X12.  Flushing drains.  On a reachable page with nothing in flight and a
    positive batch size, [ceil (len / batchSize)] rounds of [flush], each
    answered with success, empty the queue: the endpoint receives the
    queued events in order, in exactly that many payloads, and nothing is
    left in flight. *)
Theorem flush_cycles_empty_queue (p : Page)
    (R : reachable p)
    (Hidle : isSending (this p) = false)
    (HB : (0 < batchSize (this p))%Z) :
  queue (this (run (flush_cycles
                      (ceil_div (length (queue (this p)))
                                (Z.to_nat (batchSize (this p))))) p)) = []
  /\ awaiting (run (flush_cycles
                      (ceil_div (length (queue (this p)))
                                (Z.to_nat (batchSize (this p))))) p) = []
  /\ received_events
       (run (flush_cycles
               (ceil_div (length (queue (this p)))
                         (Z.to_nat (batchSize (this p))))) p)
     = received_events p ++ queue (this p)
  /\ length (received
               (run (flush_cycles
                       (ceil_div (length (queue (this p)))
                                 (Z.to_nat (batchSize (this p))))) p))
     = length (received p)
       + ceil_div (length (queue (this p))) (Z.to_nat (batchSize (this p))).
Proof.
  apply flush_cycles_drain.
  - now apply reachable_wf.
  - exact Hidle.
  - lia.
  - apply ceil_div_covers. lia.
Qed.

Lemma flush_cycles_empty_queue_witness :
  received_events
    (run (flush_cycles
            (ceil_div (length (queue (this page_backlog)))
                      (Z.to_nat (batchSize (this page_backlog)))))
         page_backlog)
  = received_events page_backlog ++ queue (this page_backlog).
Proof.
  apply (flush_cycles_empty_queue page_backlog page_backlog_reachable).
  - reflexivity.
  - reflexivity.
Defined.

(** * Properties of the tracker *)

(** ** Maps *)

Lemma map_get_set_same {V : Type} k (v : V) m :
  map_get k (map_set k v m) = Some v.
Proof.
  induction m as [|[k' v'] m IH]; simpl.
  - now rewrite String.eqb_refl.
  - destruct (String.eqb k k') eqn:E; simpl.
    + now rewrite String.eqb_refl.
    + now rewrite E.
Qed.

Lemma map_get_set_other {V : Type} k k' (v : V) m :
  k <> k' -> map_get k' (map_set k v m) = map_get k' m.
Proof.
  intros Hne. induction m as [|[k0 v0] m IH]; simpl.
  - destruct (String.eqb k' k) eqn:E; [|reflexivity].
    apply String.eqb_eq in E. congruence.
  - destruct (String.eqb k k0) eqn:E; simpl.
    + apply String.eqb_eq in E. subst k0.
      destruct (String.eqb k' k) eqn:E'; [|reflexivity].
      apply String.eqb_eq in E'. congruence.
    + now rewrite IH.
Qed.

Lemma map_set_keys {V : Type} k (v v0 : V) m :
  map_get k m = Some v0 -> map fst (map_set k v m) = map fst m.
Proof.
  induction m as [|[k' v'] m IH]; simpl; [discriminate|].
  destruct (String.eqb k k') eqn:E; simpl.
  - apply String.eqb_eq in E. now subst.
  - intros H. now rewrite IH.
Qed.

Lemma map_get_In {V : Type} k (v : V) m :
  map_get k m = Some v -> In (k, v) m.
Proof.
  induction m as [|[k' v'] m IH]; simpl; [discriminate|].
  destruct (String.eqb k k') eqn:E.
  - apply String.eqb_eq in E. intros [= ->]. left. now subst.
  - intros H. right. now apply IH.
Qed.

Lemma map_get_None {V : Type} k (m : list (string * V)) :
  map_get k m = None <-> ~ In k (map fst m).
Proof.
  induction m as [|[k' v'] m IH]; simpl.
  - split; [auto | reflexivity].
  - destruct (String.eqb k k') eqn:E.
    + apply String.eqb_eq in E. split; [discriminate | intros H; exfalso; auto].
    + apply String.eqb_neq in E. rewrite IH. split.
      * intros H [H' | H']; [congruence | auto].
      * intros H H'. apply H. now right.
Qed.

(** ** The public [track] *)

Lemma EventType_of_string_name t :
  EventType_of_string (EventType_name t) = Some t.
Proof. destruct t; reflexivity. Qed.

Lemma EventType_of_string_Some s t :
  EventType_of_string s = Some t -> s = EventType_name t.
Proof.
  unfold EventType_of_string. intros H. apply find_some in H as [_ H].
  apply String.eqb_eq in H. now symmetry.
Qed.

Lemma track_rejects s :
  (forall t, s <> EventType_name t) ->
  existsb (String.eqb s) (map EventType_name valid_event_types) = false.
Proof.
  intros H. apply not_true_is_false. intros E.
  apply existsb_exists in E as (n & Hn & E). apply String.eqb_eq in E.
  apply in_map_iff in Hn as (t & <- & _). now apply (H t).
Qed.

(** X13.  [track] enqueues an event exactly for the seven event type names.
    For each of them the event carries the given form and field, the
    session of the instance, no duration and no metadata, and goes
    through [add] like any other event; for every other string the call
    changes nothing. *)
Theorem track_accepts_seven_names (formId fieldId s iso : string)
    (t : EventType) (z : zForms.t)
    (Hbad : forall t', s <> EventType_name t') :
  track formId fieldId (EventType_name t) iso z
  = trackEvent {| form_id := formId; field_id := fieldId; event_type := t;
                  time_spent_ms := None;
                  session_id := zForms.sessionId z;
                  timestamp := iso; metadata := None |} z
  /\ track formId fieldId s iso z = z.
Proof.
  split.
  - unfold track. rewrite EventType_of_string_name.
    now destruct t.
  - unfold track. now rewrite track_rejects.
Qed.

Lemma track_accepts_seven_names_witness :
  track "signup" "email" "click" "t0" tracker_fresh = tracker_fresh.
Proof.
  apply (track_accepts_seven_names "signup" "email" "click" "t0" ev_focus
           tracker_fresh).
  intros t'. destruct t'; discriminate.
Defined.

(** ** Focus, change and validation errors *)

Lemma put_field_lookup formId fieldId f fs lf z :
  exists f',
    map_get formId (zForms.formStates (put_field formId fieldId f fs lf z))
    = Some f'
    /\ map_get fieldId (FormState.field_states f') = Some fs
    /\ FormState.last_focused_field f' = lf
    /\ FormState.total_fields f' = FormState.total_fields f
    /\ FormState.submitted f' = FormState.submitted f
    /\ zForms.queue (put_field formId fieldId f fs lf z) = zForms.queue z
    /\ zForms.sessionId (put_field formId fieldId f fs lf z)
       = zForms.sessionId z.
Proof.
  eexists. unfold put_field. simpl. rewrite map_get_set_same.
  split; [reflexivity|]. simpl. rewrite map_get_set_same. repeat split.
Qed.

Lemma handleFocus_known formId fieldId pos now iso z f fs :
  map_get formId (zForms.formStates z) = Some f ->
  map_get fieldId (FormState.field_states f) = Some fs ->
  zForms.queue (handleFocus formId fieldId pos now iso z)
  = (if (FormFieldState.interaction_count fs =? 0)%Z
     then add (interaction_event formId fieldId pos
                 (FormState.total_fields f) (zForms.sessionId z) iso)
              (zForms.queue z)
     else zForms.queue z)
  /\ exists f' fs',
       map_get formId
         (zForms.formStates (handleFocus formId fieldId pos now iso z))
       = Some f'
       /\ map_get fieldId (FormState.field_states f') = Some fs'
       /\ FormFieldState.interaction_count fs'
          = (FormFieldState.interaction_count fs + 1)%Z
       /\ FormFieldState.focus_time fs' = Some now
       /\ FormState.last_focused_field f' = Some fieldId
       /\ FormState.total_fields f' = FormState.total_fields f.
Proof.
  intros Hf Hfs. unfold handleFocus. rewrite Hf, Hfs.
  replace (FormFieldState.interaction_count fs + 1 =? 1)%Z
    with (FormFieldState.interaction_count fs =? 0)%Z
    by (destruct (Z.eqb_spec (FormFieldState.interaction_count fs) 0);
        destruct (Z.eqb_spec (FormFieldState.interaction_count fs + 1) 1);
        lia || reflexivity).
  match goal with
  | |- context [put_field formId fieldId f ?x ?l z] =>
      set (fs1 := x);
      destruct (put_field_lookup formId fieldId f fs1 l z)
        as (f' & G1 & G2 & G3 & G4 & _ & G6 & G7)
  end.
  assert (S : exists f' fs',
             map_get formId
               (zForms.formStates
                  (put_field formId fieldId f fs1 (Some fieldId) z))
             = Some f'
             /\ map_get fieldId (FormState.field_states f') = Some fs'
             /\ FormFieldState.interaction_count fs'
                = (FormFieldState.interaction_count fs + 1)%Z
             /\ FormFieldState.focus_time fs' = Some now
             /\ FormState.last_focused_field f' = Some fieldId
             /\ FormState.total_fields f' = FormState.total_fields f).
  { exists f', fs1. repeat split; assumption. }
  destruct (FormFieldState.interaction_count fs =? 0)%Z.
  - split; [reflexivity | exact S].
  - split; [exact G6 | exact S].
Qed.

(** X14.  [handleFocus] counts every focus and remembers the field as the last
    focused one, but tracks the first interaction only: a focus on a field
    that was never focused enqueues one [interaction] event with the
    field's position and the form's field count; a focus on a field
    focused before enqueues nothing, so that focusing again right away is
    silent.  A form or field that is not tracked leaves everything as it
    is. *)
Theorem focus_tracks_first_interaction (formId fieldId : string)
    (pos pos' now now' : Z) (iso iso' : string) (z : zForms.t)
    (f : FormState.t) (fs : FormFieldState.t)
    (Hf : map_get formId (zForms.formStates z) = Some f)
    (Hfs : map_get fieldId (FormState.field_states f) = Some fs)
    (Hc : (0 <= FormFieldState.interaction_count fs)%Z) :
  zForms.queue (handleFocus formId fieldId pos now iso z)
  = (if (FormFieldState.interaction_count fs =? 0)%Z
     then add (interaction_event formId fieldId pos
                 (FormState.total_fields f) (zForms.sessionId z) iso)
              (zForms.queue z)
     else zForms.queue z)
  /\ zForms.queue (handleFocus formId fieldId pos' now' iso'
                     (handleFocus formId fieldId pos now iso z))
     = zForms.queue (handleFocus formId fieldId pos now iso z)
  /\ (exists f' fs',
        map_get formId
          (zForms.formStates (handleFocus formId fieldId pos now iso z))
        = Some f'
        /\ map_get fieldId (FormState.field_states f') = Some fs'
        /\ FormFieldState.interaction_count fs'
           = (FormFieldState.interaction_count fs + 1)%Z
        /\ FormState.last_focused_field f' = Some fieldId)
  /\ (forall other,
        map_get other (zForms.formStates z) = None ->
        handleFocus other fieldId pos now iso z = z)
  /\ (forall other,
        map_get other (FormState.field_states f) = None ->
        handleFocus formId other pos now iso z = z).
Proof.
  destruct (handleFocus_known formId fieldId pos now iso z f fs Hf Hfs)
    as (Q & f' & fs' & G1 & G2 & G3 & G4 & G5 & G6).
  split; [exact Q|]. split.
  - destruct (handleFocus_known formId fieldId pos' now' iso' _ f' fs' G1 G2)
      as (Q' & _).
    rewrite Q', G3.
    destruct (Z.eqb_spec (FormFieldState.interaction_count fs + 1) 0);
      [lia | reflexivity].
  - split; [exists f', fs'; auto|]. split.
    + intros other H. unfold handleFocus. now rewrite H.
    + intros other H. unfold handleFocus. now rewrite Hf, H.
Qed.

Lemma tracker_fresh_signup :
  map_get "signup" (zForms.formStates tracker_fresh) = Some signup_state.
Proof. reflexivity. Qed.

Lemma focus_tracks_first_interaction_witness :
  zForms.queue (handleFocus "signup" "email" 0 2000 "t1"
                  (handleFocus "signup" "email" 0 1000 "t0" tracker_fresh))
  = zForms.queue (handleFocus "signup" "email" 0 1000 "t0" tracker_fresh).
Proof.
  apply (focus_tracks_first_interaction "signup" "email" 0 0 1000 2000
           "t0" "t1" tracker_fresh signup_state
           (initial_field "email" 0 false) tracker_fresh_signup eq_refl).
  simpl. lia.
Defined.

Lemma handleChange_known formId fieldId v iso z f fs :
  map_get formId (zForms.formStates z) = Some f ->
  map_get fieldId (FormState.field_states f) = Some fs ->
  zForms.queue (handleChange formId fieldId (Some v) iso z)
  = (if negb (FormFieldState.has_value fs) && v
     then add (change_event formId fieldId (zForms.sessionId z) iso)
              (zForms.queue z)
     else zForms.queue z)
  /\ exists f' fs',
       map_get formId
         (zForms.formStates (handleChange formId fieldId (Some v) iso z))
       = Some f'
       /\ map_get fieldId (FormState.field_states f') = Some fs'
       /\ FormFieldState.has_value fs' = v.
Proof.
  intros Hf Hfs. unfold handleChange. rewrite Hf, Hfs.
  match goal with
  | |- context [put_field formId fieldId f ?x ?l z] =>
      set (fs1 := x);
      destruct (put_field_lookup formId fieldId f fs1 l z)
        as (f' & G1 & G2 & _ & _ & _ & G6 & _)
  end.
  destruct (negb (FormFieldState.has_value fs) && v).
  - split; [reflexivity|]. exists f', fs1. auto.
  - split; [exact G6|]. exists f', fs1. auto.
Qed.

(** X15.  [handleChange] tracks a field only when it goes from empty to
    filled: the [change] event is enqueued when the field had no value and
    has one now, and in no other case.  A change that leaves a filled
    field filled is silent, so two changes in a row that both find a value
    enqueue one event; and when the element is gone nothing changes. *)
Theorem change_tracks_only_filling (formId fieldId iso iso' : string)
    (v : bool) (z : zForms.t) (f : FormState.t) (fs : FormFieldState.t)
    (Hf : map_get formId (zForms.formStates z) = Some f)
    (Hfs : map_get fieldId (FormState.field_states f) = Some fs) :
  zForms.queue (handleChange formId fieldId (Some v) iso z)
  = (if negb (FormFieldState.has_value fs) && v
     then add (change_event formId fieldId (zForms.sessionId z) iso)
              (zForms.queue z)
     else zForms.queue z)
  /\ zForms.queue (handleChange formId fieldId (Some true) iso'
                     (handleChange formId fieldId (Some true) iso z))
     = zForms.queue (handleChange formId fieldId (Some true) iso z)
  /\ zForms.queue (handleChange formId fieldId (Some false) iso z)
     = zForms.queue z
  /\ handleChange formId fieldId None iso z = z.
Proof.
  destruct (handleChange_known formId fieldId v iso z f fs Hf Hfs) as (Q & _).
  split; [exact Q|]. split; [|split].
  - destruct (handleChange_known formId fieldId true iso z f fs Hf Hfs)
      as (_ & f' & fs' & G1 & G2 & G3).
    destruct (handleChange_known formId fieldId true iso' _ f' fs' G1 G2)
      as (Q' & _).
    now rewrite Q', G3.
  - destruct (handleChange_known formId fieldId false iso z f fs Hf Hfs)
      as (Q' & _).
    rewrite Q'. now rewrite andb_false_r.
  - unfold handleChange. now rewrite Hf, Hfs.
Qed.

Lemma change_tracks_only_filling_witness :
  zForms.queue (handleChange "signup" "email" (Some true) "t1"
                  (handleChange "signup" "email" (Some true) "t0"
                     tracker_fresh))
  = zForms.queue (handleChange "signup" "email" (Some true) "t0"
                    tracker_fresh).
Proof.
  apply (change_tracks_only_filling "signup" "email" "t0" "t1" true
           tracker_fresh signup_state (initial_field "email" 0 false)
           tracker_fresh_signup eq_refl).
Defined.

(** X16.  [handleError] counts the error on the field and always tracks it.
    For a tracked field the [error] event carries the field's new count,
    one more than before; for a field of the form that is not tracked it
    carries 1 and no state changes; for a form that is not tracked the
    call does nothing at all. *)
Theorem error_event_carries_count (formId fieldId iso : string)
    (z : zForms.t) (f : FormState.t) (fs : FormFieldState.t)
    (Hf : map_get formId (zForms.formStates z) = Some f)
    (Hfs : map_get fieldId (FormState.field_states f) = Some fs)
    (Hc : (0 <= FormFieldState.validation_errors fs)%Z) :
  zForms.queue (handleError formId fieldId iso z)
  = add (error_event formId fieldId
           (FormFieldState.validation_errors fs + 1)
           (zForms.sessionId z) iso)
        (zForms.queue z)
  /\ (exists f' fs',
        map_get formId (zForms.formStates (handleError formId fieldId iso z))
        = Some f'
        /\ map_get fieldId (FormState.field_states f') = Some fs'
        /\ FormFieldState.validation_errors fs'
           = (FormFieldState.validation_errors fs + 1)%Z)
  /\ (forall other,
        map_get other (FormState.field_states f) = None ->
        zForms.queue (handleError formId other iso z)
        = add (error_event formId other 1 (zForms.sessionId z) iso)
              (zForms.queue z)
        /\ zForms.formStates (handleError formId other iso z)
           = zForms.formStates z)
  /\ (forall other,
        map_get other (zForms.formStates z) = None ->
        handleError other fieldId iso z = z).
Proof.
  split; [|split; [|split]].
  - unfold handleError. rewrite Hf, Hfs. simpl.
    unfold error_event.
    destruct (Z.eqb_spec (FormFieldState.validation_errors fs + 1) 0);
      [lia | reflexivity].
  - unfold handleError. rewrite Hf, Hfs.
    match goal with
    | |- context [put_field formId fieldId f ?x ?l z] =>
        set (fs1 := x);
        destruct (put_field_lookup formId fieldId f fs1 l z)
          as (f' & G1 & G2 & _)
    end.
    exists f', fs1. auto.
  - intros other H. unfold handleError. rewrite Hf, H. simpl. auto.
  - intros other H. unfold handleError. now rewrite H.
Qed.

Lemma error_event_carries_count_witness :
  zForms.queue (handleError "signup" "email" "t0" tracker_fresh)
  = add (error_event "signup" "email" (0 + 1) "s1" "t0")
        (zForms.queue tracker_fresh).
Proof.
  destruct (error_event_carries_count "signup" "email" "t0" tracker_fresh
              signup_state (initial_field "email" 0 false)
              tracker_fresh_signup eq_refl ltac:(simpl; lia)) as (H & _).
  exact H.
Defined.

(** ** Submission and the analytics summary *)

Lemma or_number_zero x : or_number (Some x) 0 = x.
Proof.
  unfold or_number. destruct (Z.eqb_spec x 0); [now subst | reflexivity].
Qed.

Lemma getSessionAnalytics_entries z :
  snd (getSessionAnalytics z)
  = map (fun kv => form_analytics (snd kv)) (zForms.formStates z).
Proof. reflexivity. Qed.

(** X17.  [handleSubmit] marks the form as submitted and tracks one [submit]
    event whose totals are those of the analytics summary at that moment:
    the same interaction count and field count, and the completed flag set
    exactly when the completed count equals the field count.  The event
    goes through [add] and is followed by one [flush].  Afterwards the
    summary shows the form as submitted with the same sums. *)
Theorem submit_agrees_with_analytics (formId iso : string) (z : zForms.t)
    (f : FormState.t)
    (Hf : map_get formId (zForms.formStates z) = Some f) :
  In (form_analytics f) (snd (getSessionAnalytics z))
  /\ zForms.queue (handleSubmit formId iso z)
     = flush
         (add (submit_event formId
                 (a_total_interactions (form_analytics f))
                 (a_total_fields (form_analytics f))
                 (a_completed_fields (form_analytics f)
                  =? a_total_fields (form_analytics f))%Z
                 (zForms.sessionId z) iso)
              (zForms.queue z))
  /\ map_get formId (zForms.formStates (handleSubmit formId iso z))
     = Some (with_submitted f)
  /\ In {| a_form_id := a_form_id (form_analytics f);
           a_total_fields := a_total_fields (form_analytics f);
           a_completed_fields := a_completed_fields (form_analytics f);
           a_total_interactions := a_total_interactions (form_analytics f);
           a_total_time_spent := a_total_time_spent (form_analytics f);
           a_submitted := true |}
        (snd (getSessionAnalytics (handleSubmit formId iso z))).
Proof.
  assert (S : map_get formId (zForms.formStates (handleSubmit formId iso z))
              = Some (with_submitted f)).
  { unfold handleSubmit. rewrite Hf. simpl. apply map_get_set_same. }
  split; [|split; [|split]].
  - rewrite getSessionAnalytics_entries. apply in_map_iff.
    exists (formId, f). split; [reflexivity|]. now apply map_get_In.
  - unfold handleSubmit. rewrite Hf. cbn [option_map].
    rewrite or_number_zero. reflexivity.
  - exact S.
  - rewrite getSessionAnalytics_entries. apply in_map_iff.
    exists (formId, with_submitted f). split; [reflexivity|].
    now apply map_get_In.
Qed.

Lemma submit_agrees_with_analytics_witness :
  map_get "signup" (zForms.formStates (handleSubmit "signup" "t0" tracker_fresh))
  = Some (with_submitted signup_state).
Proof.
  apply (submit_agrees_with_analytics "signup" "t0" tracker_fresh
           signup_state tracker_fresh_signup).
Defined.

(** What [add] followed by [flush] does to the page, as [handleSubmit]
    and [trackAbandonment] use them. *)
Lemma add_then_flush_idle e p :
  isSending (this p) = false -> awaiting p = [] ->
  (Z.of_nat (length (queue (this p))) < batchSize (this p))%Z ->
  awaiting (flush (add e p)) = [queue (this p) ++ [e]]
  /\ queue (this (flush (add e p))) = []
  /\ outbox (flush (add e p))
     = outbox p ++ [FetchPost (apiUrl (this p))
                              (payload p (queue (this p) ++ [e]))].
Proof.
  intros Hs Ha Hlt. rewrite flush_eq. unfold add.
  set (p1 := set_queue (queue (this p) ++ [e]) p).
  assert (Hs1 : isSending (this p1) = false) by exact Hs.
  assert (Hq1 : queue (this p1) <> []).
  { unfold p1. simpl. now destruct (queue (this p)). }
  assert (Hall : splice_removed (batchSize (this p1)) (queue (this p1))
                 = queue (this p) ++ [e]).
  { unfold p1, splice_removed. simpl. apply firstn_all2.
    rewrite length_app. simpl. lia. }
  assert (Hnone : splice_kept (batchSize (this p1)) (queue (this p1)) = []).
  { unfold p1, splice_kept. simpl. apply skipn_all2.
    rewrite length_app. simpl. lia. }
  destruct (send_cycle p1 Hs1 Hq1) as (Sq & Ss & Sa & So & _).
  rewrite Hall in Sa, So. rewrite Hnone in Sq.
  change (awaiting p1) with (awaiting p) in Sa. rewrite Ha in Sa.
  change (outbox p1) with (outbox p) in So.
  change (apiUrl (this p1)) with (apiUrl (this p)) in So.
  change (payload p1) with (payload p) in So.
  destruct (_ >=? _)%Z.
  - rewrite (send_guarded (send p1)) by (left; exact Ss). auto.
  - auto.
Qed.

Lemma add_then_flush_busy e p :
  isSending (this p) = true ->
  queue (this (flush (add e p))) = queue (this p) ++ [e]
  /\ outbox (flush (add e p)) = outbox p
  /\ awaiting (flush (add e p)) = awaiting p.
Proof.
  intros Hs. rewrite flush_eq. unfold add.
  set (p1 := set_queue (queue (this p) ++ [e]) p).
  assert (Hs1 : isSending (this p1) = true) by exact Hs.
  rewrite (send_guarded p1) by (left; exact Hs1).
  destruct (_ >=? _)%Z; rewrite (send_guarded p1) by (left; exact Hs1);
    auto.
Qed.

(** X18.  The flush after a submission sends the [submit] event at once only
    when nothing is in flight.  With the scheduler idle and fewer than
    [batchSize] events queued, the request made carries everything that
    was queued followed by the [submit] event.  With a send in flight the
    event is queued behind what is there and no request is made: it waits
    for a later cycle. *)
Theorem submit_flush_respects_in_flight (formId iso : string)
    (z : zForms.t)
    (R : reachable (zForms.queue z)) :
  exists e,
    event_type e = ev_submit /\ form_id e = formId
    /\ (isSending (this (zForms.queue z)) = false ->
        (Z.of_nat (length (queue (this (zForms.queue z))))
         < batchSize (this (zForms.queue z)))%Z ->
        awaiting (zForms.queue (handleSubmit formId iso z))
        = [queue (this (zForms.queue z)) ++ [e]]
        /\ queue (this (zForms.queue (handleSubmit formId iso z))) = [])
    /\ (isSending (this (zForms.queue z)) = true ->
        queue (this (zForms.queue (handleSubmit formId iso z)))
        = queue (this (zForms.queue z)) ++ [e]
        /\ outbox (zForms.queue (handleSubmit formId iso z))
           = outbox (zForms.queue z)).
Proof.
  pose proof (reachable_wf _ R) as W.
  unfold handleSubmit.
  match goal with
  | |- context [trackEvent ?ev ?z1] =>
      set (e0 := ev); set (z' := z1); exists e0
  end.
  assert (Eq : zForms.queue z' = zForms.queue z).
  { unfold z'. now destruct (map_get formId (zForms.formStates z)). }
  split; [reflexivity|]. split; [reflexivity|].
  assert (Q : zForms.queue (queue_flush (trackEvent e0 z'))
              = flush (add e0 (zForms.queue z))).
  { simpl. now rewrite Eq. }
  rewrite Q. split.
  - intros Hs Hlt.
    destruct (add_then_flush_idle e0 (zForms.queue z) Hs (wf_idle _ W Hs) Hlt)
      as (A & Q' & _).
    split; [exact A | exact Q'].
  - intros Hs.
    destruct (add_then_flush_busy e0 (zForms.queue z) Hs) as (Q' & O & _).
    split; [exact Q' | exact O].
Qed.

Lemma submit_flush_respects_in_flight_witness :
  exists e,
    event_type e = ev_submit
    /\ queue (this (zForms.queue (handleSubmit "signup" "t0" tracker_busy)))
       = queue (this (zForms.queue tracker_busy)) ++ [e].
Proof.
  destruct (submit_flush_respects_in_flight "signup" "t0" tracker_busy
              page_in_flight_reachable) as (e & He & _ & _ & Hbusy).
  exists e. split; [exact He|]. apply Hbusy. reflexivity.
Defined.

(** ** Abandonment *)

Lemma abandon_one_spec formId f iso z :
  zForms.queue (abandon_one formId f iso z)
  = add_all (match FormState.last_focused_field f with
             | Some last =>
                 if abandoned f
                 then [abandon_event formId last f (zForms.sessionId z) iso]
                 else []
             | None => []
             end) (zForms.queue z)
  /\ zForms.formStates (abandon_one formId f iso z) = zForms.formStates z
  /\ zForms.sessionId (abandon_one formId f iso z) = zForms.sessionId z.
Proof.
  unfold abandon_one, abandoned, truthy_string.
  destruct (FormState.submitted f); simpl.
  - destruct (FormState.last_focused_field f); auto.
  - destruct (FormState.last_focused_field f) as [last|]; [|auto].
    destruct (String.eqb last ""); simpl; auto.
Qed.

Lemma abandon_each_spec forms iso : forall z,
  zForms.queue (abandon_each forms iso z)
  = add_all (abandon_events forms (zForms.sessionId z) iso) (zForms.queue z)
  /\ zForms.formStates (abandon_each forms iso z) = zForms.formStates z
  /\ zForms.sessionId (abandon_each forms iso z) = zForms.sessionId z.
Proof.
  induction forms as [|[formId f] forms IH]; intros z; simpl; [auto|].
  destruct (abandon_one_spec formId f (iso formId) z) as (Q & F & S).
  destruct (IH (abandon_one formId f (iso formId) z)) as (Q' & F' & S').
  rewrite Q', F', S', Q, F, S. unfold abandon_events at 2. simpl.
  unfold add_all. rewrite fold_left_app. auto.
Qed.

Lemma abandon_events_length forms session iso :
  length (abandon_events forms session iso)
  = length (filter (fun kv => abandoned (snd kv)) forms).
Proof.
  induction forms as [|[formId f] forms IH]; simpl; [reflexivity|].
  unfold abandon_events in *. simpl. rewrite length_app, IH.
  unfold abandoned at 1 3, truthy_string.
  destruct (FormState.last_focused_field f) as [last|]; simpl.
  - destruct (negb (FormState.submitted f) && negb (String.eqb last ""));
      reflexivity.
  - now rewrite andb_false_r.
Qed.

Lemma abandon_events_forms forms session iso e :
  In e (abandon_events forms session iso) ->
  exists formId f last,
    In (formId, f) forms /\ abandoned f = true
    /\ FormState.last_focused_field f = Some last
    /\ e = abandon_event formId last f session (iso formId).
Proof.
  unfold abandon_events. intros H. apply in_flat_map in H as ([formId f] & Hin & H).
  simpl in H. destruct (FormState.last_focused_field f) as [last|] eqn:L;
    [|contradiction].
  destruct (abandoned f) eqn:A; [|contradiction].
  destruct H as [<- | []]. exists formId, f, last. auto.
Qed.

Lemma trackAbandonment_queue iso z :
  zForms.queue (trackAbandonment iso z)
  = flush (add_all (abandon_events (zForms.formStates z)
                      (zForms.sessionId z) iso)
                   (zForms.queue z)).
Proof.
  destruct (abandon_each_spec (zForms.formStates z) iso z) as (Q & _).
  unfold trackAbandonment. simpl. now rewrite Q.
Qed.

(** X19.  [trackAbandonment] tracks one [abandon] event for every form that
    was not submitted and has a last focused field, in the order the
    forms were first tracked, then flushes once; forms that were
    submitted or never focused get none.  Each event names the last
    focused field and its position among the form's fields and carries
    the form's sums.  The call changes no form state, marking nothing as
    reported: a second call tracks the same forms again. *)
Theorem abandonment_tracks_unsubmitted_forms (iso iso' : string -> string)
    (z : zForms.t) :
  zForms.queue (trackAbandonment iso z)
  = flush (add_all (abandon_events (zForms.formStates z)
                      (zForms.sessionId z) iso)
                   (zForms.queue z))
  /\ length (abandon_events (zForms.formStates z) (zForms.sessionId z) iso)
     = length (filter (fun kv => abandoned (snd kv)) (zForms.formStates z))
  /\ (forall e,
        In e (abandon_events (zForms.formStates z) (zForms.sessionId z) iso) ->
        exists formId f last,
          In (formId, f) (zForms.formStates z)
          /\ FormState.submitted f = false
          /\ FormState.last_focused_field f = Some last
          /\ form_id e = formId /\ field_id e = last
          /\ event_type e = ev_abandon
          /\ option_map field_position (metadata e)
             = Some (Some (abandonmentPosition last
                             (FormState.field_states f))))
  /\ zForms.formStates (trackAbandonment iso z) = zForms.formStates z
  /\ zForms.queue (trackAbandonment iso' (trackAbandonment iso z))
     = flush (add_all (abandon_events (zForms.formStates z)
                         (zForms.sessionId z) iso')
                      (zForms.queue (trackAbandonment iso z))).
Proof.
  destruct (abandon_each_spec (zForms.formStates z) iso z) as (Q & F & S).
  assert (F1 : zForms.formStates (trackAbandonment iso z)
               = zForms.formStates z) by exact F.
  assert (S1 : zForms.sessionId (trackAbandonment iso z)
               = zForms.sessionId z) by exact S.
  split; [|split; [|split; [|split]]].
  - apply trackAbandonment_queue.
  - apply abandon_events_length.
  - intros e He.
    apply abandon_events_forms in He as (formId & f & last & Hin & A & L & ->).
    exists formId, f, last. unfold abandoned in A.
    apply andb_true_iff in A as [A _]. apply negb_true_iff in A.
    repeat split; assumption.
  - exact F1.
  - now rewrite trackAbandonment_queue, F1, S1.
Qed.

Lemma map_set_In_same {V : Type} k (v g : V) m :
  NoDup (map fst m) -> In (k, g) (map_set k v m) -> g = v.
Proof.
  induction m as [|[k' v'] m IH]; simpl; intros N H.
  - destruct H as [[= <-] | []]. reflexivity.
  - inversion N as [|? ? Hnotin N']; subst.
    destruct (String.eqb k k') eqn:E.
    + apply String.eqb_eq in E. subst k'.
      destruct H as [[= <-] | H]; [reflexivity|].
      exfalso. apply Hnotin. apply in_map_iff. now exists (k, g).
    + apply String.eqb_neq in E.
      destruct H as [[= -> ->] | H]; [congruence|]. now apply IH.
Qed.

(** X20.  Once a form is submitted it is never reported as abandoned: after
    [handleSubmit] for a tracked form, none of the events of
    [trackAbandonment] is for that form.  The keys of the map of forms
    are distinct, as in every map. *)
Theorem submitted_form_is_not_abandoned (formId iso0 : string)
    (iso : string -> string) (z : zForms.t) (f : FormState.t)
    (Hkeys : NoDup (map fst (zForms.formStates z)))
    (Hf : map_get formId (zForms.formStates z) = Some f) :
  Forall (fun e => form_id e <> formId)
         (abandon_events
            (zForms.formStates (handleSubmit formId iso0 z))
            (zForms.sessionId (handleSubmit formId iso0 z)) iso)
  /\ zForms.queue (trackAbandonment iso (handleSubmit formId iso0 z))
     = flush (add_all
                (abandon_events
                   (zForms.formStates (handleSubmit formId iso0 z))
                   (zForms.sessionId (handleSubmit formId iso0 z)) iso)
                (zForms.queue (handleSubmit formId iso0 z))).
Proof.
  split.
  - apply Forall_forall. intros e He.
    apply abandon_events_forms in He as (k & g & last & Hin & A & L & ->).
    simpl. intros ->.
    assert (E : zForms.formStates (handleSubmit formId iso0 z)
                = map_set formId (with_submitted f) (zForms.formStates z)).
    { unfold handleSubmit. rewrite Hf. reflexivity. }
    rewrite E in Hin. apply (map_set_In_same _ _ _ _ Hkeys) in Hin.
    subst g. discriminate.
  - apply trackAbandonment_queue.
Qed.

Lemma submitted_form_is_not_abandoned_witness :
  Forall (fun e => form_id e <> "signup"%string)
         (abandon_events
            (zForms.formStates (handleSubmit "signup" "t0" tracker_fresh))
            (zForms.sessionId (handleSubmit "signup" "t0" tracker_fresh))
            (fun _ => "t1"%string)).
Proof.
  apply (submitted_form_is_not_abandoned "signup" "t0" (fun _ => "t1"%string)
           tracker_fresh signup_state).
  - simpl. constructor; [intros [] | constructor].
  - reflexivity.
Defined.

(** ** Attaching a form *)

Lemma map_set_keys_NoDup {V : Type} k (v : V) m :
  NoDup (map fst m) ->
  NoDup (map fst (map_set k v m))
  /\ incl (map fst (map_set k v m)) (k :: map fst m).
Proof.
  induction m as [|[k' v'] m IH]; simpl; intros N.
  - split; [constructor; [intros [] | constructor]|]. apply incl_refl.
  - inversion N as [|? ? Hnotin N']; subst.
    destruct (String.eqb k k') eqn:E; simpl.
    + apply String.eqb_eq in E. subst k'.
      split; [exact N|]. apply incl_tl, incl_refl.
    + destruct (IH N') as (N1 & I1). apply String.eqb_neq in E. split.
      * constructor; [|exact N1]. intros H. apply I1 in H.
        destruct H as [H | H]; [congruence | contradiction].
      * intros x [<- | H]; [right; now left|].
        apply I1 in H. destruct H as [<- | H]; [now left|].
        right. now right.
Qed.

Lemma attach_fields_keys fields : forall acc,
  NoDup (map fst acc) ->
  NoDup (map fst
           (fold_left
              (fun m f =>
                 match f with
                 | (fieldId, element, value) =>
                     map_set fieldId (initial_field fieldId element value) m
                 end) fields acc))
  /\ incl (map fst
             (fold_left
                (fun m f =>
                   match f with
                   | (fieldId, element, value) =>
                       map_set fieldId (initial_field fieldId element value) m
                   end) fields acc))
          (map fst acc ++ map (fun f => fst (fst f)) fields).
Proof.
  induction fields as [|[[fieldId element] value] fields IH];
    intros acc N; simpl.
  - split; [exact N|]. rewrite app_nil_r. apply incl_refl.
  - destruct (map_set_keys_NoDup fieldId
                (initial_field fieldId element value) acc N) as (N1 & I1).
    destruct (IH _ N1) as (N2 & I2). split; [exact N2|].
    intros x Hx. apply I2 in Hx. apply in_app_or in Hx as [Hx | Hx].
    + apply I1 in Hx. destruct Hx as [<- | Hx].
      * apply in_or_app. right. now left.
      * apply in_or_app. now left.
    + apply in_or_app. right. now right.
Qed.

Lemma completedFields_bounds (m : list (string * FormFieldState.t)) :
  forall acc,
  (acc <= fold_left
            (fun a kv =>
               if FormFieldState.has_value (snd kv) then (a + 1)%Z else a)
            m acc
   <= acc + Z.of_nat (length m))%Z.
Proof.
  induction m as [|kv m IH]; intros acc; simpl; [lia|].
  destruct (FormFieldState.has_value (snd kv)).
  - specialize (IH (acc + 1)%Z). lia.
  - specialize (IH acc). lia.
Qed.

(** X21.  [attachFormListeners] starts tracking a form once.  For a form id
    that is not tracked it records a state with no submission, no last
    focused field and the number of fields found as field count; a second
    call for the same id, with whatever fields, changes nothing, so the
    state collected so far is kept.  Fields that share an id share one
    field state: the states are at most as many as the fields, and fewer
    when two fields have the same id, in which case the completed count
    can never reach the field count and no summary or submit event ever
    reports the form as completed. *)
Theorem attach_tracks_a_form_once (formId : string)
    (fields fields' : list (string * nat * bool)) (z : zForms.t)
    (Hnew : map_get formId (zForms.formStates z) = None) :
  map_get formId (zForms.formStates (attachFormListeners formId fields z))
  = Some {| FormState.form_id := formId;
            FormState.field_states := attach_fields fields;
            FormState.submitted := false;
            FormState.last_focused_field := None;
            FormState.total_fields := Z.of_nat (length fields) |}
  /\ attachFormListeners formId fields'
       (attachFormListeners formId fields z)
     = attachFormListeners formId fields z
  /\ zForms.queue (attachFormListeners formId fields z) = zForms.queue z
  /\ length (attach_fields fields) <= length fields
  /\ (~ NoDup (map (fun f => fst (fst f)) fields) ->
      forall m,
        length m = length (attach_fields fields) ->
        (completedFields m =? Z.of_nat (length fields))%Z = false).
Proof.
  assert (E : zForms.formStates (attachFormListeners formId fields z)
              = map_set formId
                  {| FormState.form_id := formId;
                     FormState.field_states := attach_fields fields;
                     FormState.submitted := false;
                     FormState.last_focused_field := None;
                     FormState.total_fields := Z.of_nat (length fields) |}
                  (zForms.formStates z)).
  { unfold attachFormListeners, map_has. now rewrite Hnew. }
  assert (Q : zForms.queue (attachFormListeners formId fields z)
              = zForms.queue z).
  { unfold attachFormListeners, map_has. now rewrite Hnew. }
  destruct (attach_fields_keys fields [] (NoDup_nil _)) as (N & I).
  fold (attach_fields fields) in N, I. simpl in I.
  assert (L : length (attach_fields fields) <= length fields).
  { rewrite <- (length_map fst (attach_fields fields)).
    rewrite <- (length_map (fun f => fst (fst f)) fields).
    now apply NoDup_incl_length. }
  split; [now rewrite E, map_get_set_same|]. split; [|split; [|split]].
  - unfold attachFormListeners at 1, map_has.
    now rewrite E, map_get_set_same.
  - exact Q.
  - exact L.
  - intros Hdup m Hm.
    assert (Lt : length (attach_fields fields) < length fields).
    { destruct (Nat.eq_dec (length (attach_fields fields)) (length fields))
        as [Heq | Hne]; [|lia].
      exfalso. apply Hdup.
      apply (NoDup_incl_NoDup N); [|exact I].
      rewrite !length_map. lia. }
    pose proof (completedFields_bounds m 0) as Bd.
    unfold completedFields. apply Z.eqb_neq. lia.
Qed.

Lemma attach_tracks_a_form_once_witness :
  attachFormListeners "signup" []
    (attachFormListeners "signup"
       [("email"%string, 0, false); ("email"%string, 1, true)]
       tracker_busy)
  = attachFormListeners "signup"
      [("email"%string, 0, false); ("email"%string, 1, true)] tracker_busy.
Proof.
  apply (attach_tracks_a_form_once "signup"
           [("email"%string, 0, false); ("email"%string, 1, true)] []
           tracker_busy).
  reflexivity.
Defined.

(** Two radio buttons that share a name give one field state for two
    fields, and the form is not reported as completed however they are
    filled. *)
Example shared_field_id_blocks_completion :
  let z := handleSubmit "poll" "t0"
             (attachFormListeners "poll"
                [("choice"%string, 0, true); ("choice"%string, 1, true)]
                tracker_busy) in
  map (fun e => (event_type e, option_map field_completed (metadata e)))
      (queue (this (zForms.queue z)))
  = [(ev_focus, None); (ev_submit, Some (Some false))].
Proof. reflexivity. Qed.

(** ** Teardown of the tracker *)

Lemma clear_all_spec ids : forall w,
  instance (fold_left (fun acc id => clearTimeout id acc) ids w) = instance w
  /\ timeouts (fold_left (fun acc id => clearTimeout id acc) ids w)
     = filter (fun t => negb (existsb (Nat.eqb (fst t)) ids)) (timeouts w)
  /\ next_timeout (fold_left (fun acc id => clearTimeout id acc) ids w)
     = next_timeout w.
Proof.
  induction ids as [|id ids IH]; intros w; simpl.
  - split; [reflexivity|]. split; [|reflexivity].
    induction (timeouts w) as [|t l IHl]; simpl; [reflexivity|].
    now rewrite <- IHl.
  - destruct (IH (clearTimeout id w)) as (I1 & I2 & I3).
    rewrite I1, I2, I3. simpl. split; [reflexivity|]. split; [|reflexivity].
    induction (timeouts w) as [|t l IHl]; simpl; [reflexivity|].
    destruct (fst t =? id) eqn:E; simpl.
    + exact IHl.
    + now rewrite IHl.
Qed.

(** X22.  After [zForms.destroy] no form is tracked, the queue has been torn
    down with [EventQueue.destroy], and every blur timer the field states
    held is cleared.  The listeners stay on the page, but what they call
    finds nothing: focus, blur, change and error do nothing, and an
    abandonment signal tracks no event and only flushes.  A submission is
    still tracked: it enqueues a [submit] event with zero fields, zero
    interactions and the completed flag set, and flushes. *)
Theorem after_destroy_only_submit_tracks (w : Window)
    (formId fieldId iso : string) (iso' : string -> string) (pos now : Z)
    (live : option bool) :
  zForms.formStates (instance (zForms_destroy w)) = []
  /\ zForms.queue (instance (zForms_destroy w))
     = destroy (zForms.queue (instance w))
  /\ Forall (fun t => ~ In (fst t)
                        (timers_held (zForms.formStates (instance w))))
            (timeouts (zForms_destroy w))
  /\ handleFocus formId fieldId pos now iso (instance (zForms_destroy w))
     = instance (zForms_destroy w)
  /\ handleChange formId fieldId live iso (instance (zForms_destroy w))
     = instance (zForms_destroy w)
  /\ handleError formId fieldId iso (instance (zForms_destroy w))
     = instance (zForms_destroy w)
  /\ handleBlur formId fieldId pos (zForms_destroy w) = zForms_destroy w
  /\ zForms.queue (trackAbandonment iso' (instance (zForms_destroy w)))
     = flush (zForms.queue (instance (zForms_destroy w)))
  /\ zForms.queue (handleSubmit formId iso (instance (zForms_destroy w)))
     = flush (add (submit_event formId 0 0 true
                     (zForms.sessionId (instance w)) iso)
                  (zForms.queue (instance (zForms_destroy w)))).
Proof.
  destruct (clear_all_spec (timers_held (zForms.formStates (instance w))) w)
    as (I1 & I2 & _).
  unfold zForms_destroy. simpl. rewrite I1, I2.
  repeat split.
  apply Forall_forall. intros t Ht. apply filter_In in Ht as [_ Ht].
  apply negb_true_iff in Ht. intros Hin.
  assert (E : existsb (Nat.eqb (fst t))
                (timers_held (zForms.formStates (instance w))) = true).
  { apply existsb_exists. exists (fst t). split; [exact Hin|].
    apply Nat.eqb_refl. }
  congruence.
Qed.

(** ** Blur *)

Lemma find_after_clear id (l : list (nat * BlurTask)) :
  find (fun t => fst t =? id) (filter (fun t => negb (fst t =? id)) l) = None.
Proof.
  induction l as [|t l IH]; simpl; [reflexivity|].
  destruct (fst t =? id) eqn:E; simpl; [exact IH|]. now rewrite E.
Qed.

Lemma filter_fresh n (l : list (nat * BlurTask)) :
  Forall (fun t => fst t < n) l ->
  filter (fun t => negb (fst t =? n)) l = l.
Proof.
  induction 1 as [|t l Ht _ IH]; simpl; [reflexivity|].
  destruct (Nat.eqb_spec (fst t) n); [lia|]. simpl. now rewrite IH.
Qed.

Lemma without_timer_below n t (l : list (nat * BlurTask)) :
  Forall (fun x => fst x < n) l ->
  Forall (fun x => fst x < n) (without_timer t l).
Proof.
  intros H. unfold without_timer. destruct t as [id|]; [|exact H].
  destruct (negb (id =? 0)); [|exact H].
  apply Forall_forall. intros x Hx. apply filter_In in Hx as [Hx _].
  revert x Hx. now apply Forall_forall.
Qed.

(** X23.  The blur callback adds the time since the focus to the field's
    total, forgets the focus and the timer, refreshes whether the field
    has a value, and tracks a [blur] event only when more than 500 ms were
    spent; the event carries that time and the field's counts.  The
    timeout is gone afterwards, so the callback runs once. *)
Theorem blur_tracks_long_visits (w : Window) (id : nat) (task : BlurTask)
    (now t0 : Z) (live live' : option bool) (iso iso' : string) (now' : Z)
    (f : FormState.t) (fs : FormFieldState.t)
    (Hpending : find (fun t => fst t =? id) (timeouts w) = Some (id, task))
    (Hf : map_get (task_form task) (zForms.formStates (instance w)) = Some f)
    (Hfs : map_get (task_field task) (FormState.field_states f) = Some fs)
    (Ht : FormFieldState.focus_time fs = Some t0) :
  zForms.queue (instance (blur_callback id now live iso w))
  = (if (now - t0 >? 500)%Z
     then add (blur_event task (now - t0) fs
                 (match live with
                  | Some value => value
                  | None => FormFieldState.has_value fs
                  end)
                 (FormState.total_fields f)
                 (zForms.sessionId (instance w)) iso)
              (zForms.queue (instance w))
     else zForms.queue (instance w))
  /\ (exists f' fs',
        map_get (task_form task)
          (zForms.formStates (instance (blur_callback id now live iso w)))
        = Some f'
        /\ map_get (task_field task) (FormState.field_states f') = Some fs'
        /\ FormFieldState.total_time_spent fs'
           = (FormFieldState.total_time_spent fs + (now - t0))%Z
        /\ FormFieldState.focus_time fs' = None
        /\ FormFieldState.blur_debounce_timer fs' = None)
  /\ timeouts (blur_callback id now live iso w)
     = filter (fun t => negb (fst t =? id)) (timeouts w)
  /\ blur_callback id now' live' iso' (blur_callback id now live iso w)
     = blur_callback id now live iso w.
Proof.
  assert (T : timeouts (blur_callback id now live iso w)
              = filter (fun t => negb (fst t =? id)) (timeouts w)).
  { unfold blur_callback. rewrite Hpending. simpl. now rewrite Hf, Hfs. }
  split; [|split; [|split]].
  - unfold blur_callback. rewrite Hpending. simpl. rewrite Hf, Hfs, Ht.
    simpl. destruct (now - t0 >? 500)%Z; reflexivity.
  - unfold blur_callback. rewrite Hpending. simpl. rewrite Hf, Hfs, Ht.
    match goal with
    | |- context [put_field (task_form task) (task_field task) f ?x ?l ?z] =>
        set (fs1 := x);
        destruct (put_field_lookup (task_form task) (task_field task)
                    f fs1 l z) as (f' & G1 & G2 & _)
    end.
    exists f', fs1. simpl.
    destruct (now - t0 >? 500)%Z; simpl; repeat split; assumption.
  - exact T.
  - unfold blur_callback at 1. rewrite T. now rewrite find_after_clear.
Qed.

Lemma blur_tracks_long_visits_witness :
  timeouts (blur_callback 1 1800 (Some true) "t1" window_blurred)
  = filter (fun t => negb (fst t =? 1)) (timeouts window_blurred).
Proof.
  destruct (blur_tracks_long_visits window_blurred 1 email_task 1800 1000
              (Some true) None "t1" "t2" 1900
              {| FormState.form_id := "signup";
                 FormState.field_states :=
                   [("email"%string,
                     {| FormFieldState.field_id := "email";
                        FormFieldState.focus_time := Some 1000%Z;
                        FormFieldState.last_event := Some ev_focus;
                        FormFieldState.interaction_count := 1;
                        FormFieldState.total_time_spent := 0;
                        FormFieldState.has_value := false;
                        FormFieldState.validation_errors := 0;
                        FormFieldState.field_element := 0;
                        FormFieldState.blur_debounce_timer := Some 1 |});
                    ("name"%string, initial_field "name" 1 false)];
                 FormState.submitted := false;
                 FormState.last_focused_field := Some "email"%string;
                 FormState.total_fields := 2 |}
              {| FormFieldState.field_id := "email";
                 FormFieldState.focus_time := Some 1000%Z;
                 FormFieldState.last_event := Some ev_focus;
                 FormFieldState.interaction_count := 1;
                 FormFieldState.total_time_spent := 0;
                 FormFieldState.has_value := false;
                 FormFieldState.validation_errors := 0;
                 FormFieldState.field_element := 0;
                 FormFieldState.blur_debounce_timer := Some 1 |}
              eq_refl eq_refl eq_refl eq_refl) as (_ & _ & T & _).
  exact T.
Defined.

(** A visit of 800 ms is tracked, one of 300 ms only counted. *)
Example blur_threshold :
  map event_type
    (queue (this (zForms.queue
                    (instance (blur_callback 1 1800 (Some true) "t1"
                                 window_blurred)))))
  = [ev_interaction; ev_blur]
  /\ map event_type
       (queue (this (zForms.queue
                       (instance (blur_callback 1 1300 (Some true) "t1"
                                    window_blurred)))))
     = [ev_interaction].
Proof. split; reflexivity. Qed.

Lemma handleBlur_known formId fieldId pos w f fs :
  map_get formId (zForms.formStates (instance w)) = Some f ->
  map_get fieldId (FormState.field_states f) = Some fs ->
  truthy_number (FormFieldState.focus_time fs) = true ->
  timeouts (handleBlur formId fieldId pos w)
  = without_timer (FormFieldState.blur_debounce_timer fs) (timeouts w)
    ++ [(next_timeout w,
         {| task_form := formId; task_field := fieldId;
            task_position := pos |})]
  /\ next_timeout (handleBlur formId fieldId pos w) = S (next_timeout w)
  /\ zForms.queue (instance (handleBlur formId fieldId pos w))
     = zForms.queue (instance w)
  /\ exists f',
       map_get formId
         (zForms.formStates (instance (handleBlur formId fieldId pos w)))
       = Some f'
       /\ map_get fieldId (FormState.field_states f')
          = Some (with_blur_timer (Some (next_timeout w)) fs).
Proof.
  intros Hf Hfs Ht. unfold handleBlur. rewrite Hf, Hfs, Ht. simpl.
  destruct (FormFieldState.blur_debounce_timer fs) as [id|]; simpl.
  - destruct (negb (id =? 0)); simpl;
      (split; [reflexivity|]; split; [reflexivity|]; split; [reflexivity|]);
      eexists; (split; [apply map_get_set_same|]); simpl;
      apply map_get_set_same.
  - split; [reflexivity|]. split; [reflexivity|]. split; [reflexivity|].
    eexists. split; [apply map_get_set_same|]. simpl.
    apply map_get_set_same.
Qed.

(** X24.  [handleBlur] does nothing for a field that is not focused, and
    debounces for one that is.  It arms one timeout for the callback and
    clears the one the field state held; so when a second blur of the same
    field follows before the first callback has run, the first callback is
    cancelled and only the second stays pending: at most one blur callback
    waits per field.  No event is tracked by [handleBlur] itself. *)
Theorem blur_is_debounced (formId fieldId : string) (pos pos' : Z)
    (w : Window) (f : FormState.t) (fs : FormFieldState.t)
    (Hf : map_get formId (zForms.formStates (instance w)) = Some f)
    (Hfs : map_get fieldId (FormState.field_states f) = Some fs)
    (Hids : next_timeout w <> 0)
    (Hfresh : Forall (fun t => fst t < next_timeout w) (timeouts w)) :
  (truthy_number (FormFieldState.focus_time fs) = false ->
   handleBlur formId fieldId pos w = w)
  /\ (truthy_number (FormFieldState.focus_time fs) = true ->
      timeouts (handleBlur formId fieldId pos w)
      = without_timer (FormFieldState.blur_debounce_timer fs) (timeouts w)
        ++ [(next_timeout w,
             {| task_form := formId; task_field := fieldId;
                task_position := pos |})]
      /\ timeouts (handleBlur formId fieldId pos'
                     (handleBlur formId fieldId pos w))
         = without_timer (FormFieldState.blur_debounce_timer fs) (timeouts w)
           ++ [(S (next_timeout w),
                {| task_form := formId; task_field := fieldId;
                   task_position := pos' |})]
      /\ zForms.queue (instance (handleBlur formId fieldId pos'
                                   (handleBlur formId fieldId pos w)))
         = zForms.queue (instance w)).
Proof.
  split.
  - intros Ht. unfold handleBlur. now rewrite Hf, Hfs, Ht.
  - intros Ht.
    destruct (handleBlur_known formId fieldId pos w f fs Hf Hfs Ht)
      as (T1 & N1 & Q1 & f' & G1 & G2).
    split; [exact T1|].
    destruct (handleBlur_known formId fieldId pos' _ f'
                (with_blur_timer (Some (next_timeout w)) fs) G1 G2 Ht)
      as (T2 & _ & Q2 & _).
    split; [|now rewrite Q2, Q1].
    rewrite T2, N1, T1. f_equal. simpl.
    destruct (Nat.eqb_spec (next_timeout w) 0) as [E | _]; [contradiction|].
    simpl. rewrite filter_app. simpl. rewrite Nat.eqb_refl. simpl.
    rewrite app_nil_r. apply filter_fresh.
    now apply without_timer_below.
Qed.

Lemma blur_is_debounced_witness :
  timeouts (handleBlur "signup" "email" 1
              (handleBlur "signup" "email" 0
                 {| instance :=
                      handleFocus "signup" "email" 0 1000 "t0" tracker_fresh;
                    timeouts := []; next_timeout := 1 |}))
  = [(2, {| task_form := "signup"; task_field := "email";
            task_position := 1 |})].
Proof.
  destruct (blur_is_debounced "signup" "email" 0 1
              {| instance :=
                   handleFocus "signup" "email" 0 1000 "t0" tracker_fresh;
                 timeouts := []; next_timeout := 1 |}
              {| FormState.form_id := "signup";
                 FormState.field_states :=
                   [("email"%string,
                     {| FormFieldState.field_id := "email";
                        FormFieldState.focus_time := Some 1000%Z;
                        FormFieldState.last_event := Some ev_focus;
                        FormFieldState.interaction_count := 1;
                        FormFieldState.total_time_spent := 0;
                        FormFieldState.has_value := false;
                        FormFieldState.validation_errors := 0;
                        FormFieldState.field_element := 0;
                        FormFieldState.blur_debounce_timer := None |});
                    ("name"%string, initial_field "name" 1 false)];
                 FormState.submitted := false;
                 FormState.last_focused_field := Some "email"%string;
                 FormState.total_fields := 2 |}
              {| FormFieldState.field_id := "email";
                 FormFieldState.focus_time := Some 1000%Z;
                 FormFieldState.last_event := Some ev_focus;
                 FormFieldState.interaction_count := 1;
                 FormFieldState.total_time_spent := 0;
                 FormFieldState.has_value := false;
                 FormFieldState.validation_errors := 0;
                 FormFieldState.field_element := 0;
                 FormFieldState.blur_debounce_timer := None |}
              eq_refl eq_refl ltac:(discriminate) ltac:(constructor))
    as (_ & H).
  destruct (H eq_refl) as (_ & T & _). exact T.
Defined.

(** * Properties of configuration and session *)

Lemma spread_read {A : Type} (d : A) (k : Key A) :
  read (spread d k) = match k with None => Some d | Some v => v end.
Proof. now destruct k. Qed.

Lemma new_EventQueue_fields url key size interval dbg ls :
  apiUrl (this (new_EventQueue url key size interval dbg ls)) = url
  /\ projectKey (this (new_EventQueue url key size interval dbg ls)) = key
  /\ batchSize (this (new_EventQueue url key size interval dbg ls))
     = match size with Some n => n | None => 10%Z end
  /\ batchInterval (this (new_EventQueue url key size interval dbg ls))
     = match interval with Some n => n | None => 5000%Z end
  /\ debug (this (new_EventQueue url key size interval dbg ls))
     = match dbg with Some b => b | None => false end.
Proof.
  unfold new_EventQueue, startBatchTimer, loadStoredEvents. simpl.
  destruct (Storage.retrieve _ _); simpl; repeat split; reflexivity.
Qed.

(** X25.  A key that the caller leaves out and a key that the caller sets to
    [undefined] are not the same to the constructor.  For the batch size,
    the interval and the debug flag both end in the default, the first by
    the spread and the second by the default parameter of [EventQueue].
    For the endpoint only the absent key gives the default address: a key
    set to [undefined] overrides it, and the queue is built with an
    [undefined] address. *)
Theorem undefined_overrides_default_url (config : zFormsConfig.t)
    (url : string) (ls : LocalStorage) :
  let a := queue_arguments config in
  let q := this (new_EventQueue url (arg_projectKey a) (arg_batchSize a)
                   (arg_batchInterval a) (arg_debug a) ls) in
  batchSize q
  = match zFormsConfig.batch_size config with
    | Some (Some n) => n
    | _ => 10%Z
    end
  /\ batchInterval q
     = match zFormsConfig.batch_interval config with
       | Some (Some n) => n
       | _ => 5000%Z
       end
  /\ debug q
     = match zFormsConfig.debug config with
       | Some (Some b) => b
       | _ => false
       end
  /\ arg_apiUrl a
     = match zFormsConfig.api_url config with
       | None => Some default_api_url
       | Some v => v
       end.
Proof.
  intros a q.
  destruct (new_EventQueue_fields url (arg_projectKey a) (arg_batchSize a)
              (arg_batchInterval a) (arg_debug a) ls)
    as (_ & _ & S & I & D).
  subst q. rewrite S, I, D. subst a. unfold queue_arguments. simpl.
  rewrite !spread_read.
  destruct config as [k u [[s|]|] [[i|]|] [[d|]|] tc dt]; simpl;
    repeat split; reflexivity.
Qed.

(** X26.  Auto-initialization makes an instance exactly when the script tag has a
    non-empty [data-zForms] attribute.  The address of the instance is then
    the [data-api-url] attribute when that is non-empty and [undefined]
    otherwise: the configuration always has the key [api_url], so the
    default address of the constructor is never used.  The batch size and
    the interval are the defaults. *)
Theorem auto_init_never_uses_default_url (key : string)
    (data_api_url : option string) (data_debug : bool)
    (Hkey : key <> ""%string) :
  exists config,
    auto_config (Some key) data_api_url data_debug = Some config
    /\ arg_projectKey (queue_arguments config) = key
    /\ arg_apiUrl (queue_arguments config)
       = (if truthy_string data_api_url then data_api_url else None)
    /\ (data_api_url = None ->
        arg_apiUrl (queue_arguments config) = None)
    /\ arg_batchSize (queue_arguments config) = Some 10%Z
    /\ arg_batchInterval (queue_arguments config) = Some 5000%Z
    /\ arg_debug (queue_arguments config) = Some data_debug.
Proof.
  unfold auto_config. simpl.
  destruct (String.eqb_spec key "") as [E | _]; [contradiction|]. simpl.
  eexists. split; [reflexivity|]. simpl.
  repeat split; try reflexivity.
  intros ->. reflexivity.
Qed.

Lemma auto_init_never_uses_default_url_witness :
  exists config,
    auto_config (Some "pk_1"%string) None false = Some config
    /\ arg_apiUrl (queue_arguments config) = None.
Proof.
  destruct (auto_init_never_uses_default_url "pk_1" None false
              ltac:(discriminate))
    as (config & A & _ & _ & U & _).
  exists config. split; [exact A | exact (U eq_refl)].
Defined.

(** Without the attribute no instance is made. *)
Example auto_init_needs_key :
  auto_config None (Some "https://a.example/e"%string) true = None
  /\ auto_config (Some ""%string) None true = None.
Proof. split; reflexivity. Qed.

Lemma session_id_nonempty (now rnd : string) :
  truthy_string (Some (now ++ "_" ++ rnd)%string) = true.
Proof. destruct now; reflexivity. Qed.

(** X27.  The session id survives in the tab: once [generateSessionId] has
    returned an id, every later call on the sessionStorage it left returns
    the same id, whatever the clock and the random suffix are by then, and
    writes nothing.  The id is never the empty text. *)
Theorem session_id_is_reused (now rnd now' rnd' id : string)
    (ss ss' : SessionStorage)
    (Hfirst : generateSessionId now rnd ss = Some (id, ss')) :
  generateSessionId now' rnd' ss' = Some (id, ss')
  /\ id <> ""%string
  /\ ss_item ss' = Some id.
Proof.
  unfold generateSessionId in Hfirst.
  destruct (ss_denied ss) eqn:D; [discriminate|].
  destruct (truthy_string (ss_item ss)) eqn:T.
  - destruct (ss_item ss) as [stored|] eqn:I; [|discriminate].
    injection Hfirst as <- <-.
    unfold generateSessionId. rewrite D, I, T. repeat split; try assumption.
    intros ->. discriminate.
  - destruct (ss_full ss) eqn:F; [discriminate|].
    pose proof (session_id_nonempty now rnd) as N.
    set (sid := (now ++ "_" ++ rnd)%string) in *.
    injection Hfirst as <- <-.
    unfold generateSessionId. cbn [ss_denied ss_item ss_full].
    rewrite N. repeat split.
    intros E. rewrite E in N. discriminate.
Qed.

Lemma session_id_is_reused_witness :
  generateSessionId "1700000009999" "zzzz"
    {| ss_item := Some "1700000000000_abc"%string;
       ss_denied := false; ss_full := false |}
  = Some ("1700000000000_abc"%string,
          {| ss_item := Some "1700000000000_abc"%string;
             ss_denied := false; ss_full := false |}).
Proof.
  destruct (session_id_is_reused "1700000000000" "abc" "1700000009999"
              "zzzz" "1700000000000_abc" empty_session
              {| ss_item := Some "1700000000000_abc"%string;
                 ss_denied := false; ss_full := false |} eq_refl)
    as (H & _).
  exact H.
Defined.

(** An empty stored id is not reused, and a blocked or full sessionStorage
    makes the constructor throw. *)
Example session_id_edge_cases :
  option_map fst
    (generateSessionId "17" "ab"
       {| ss_item := Some ""%string; ss_denied := false; ss_full := false |})
  = Some "17_ab"%string
  /\ generateSessionId "17" "ab"
       {| ss_item := None; ss_denied := true; ss_full := false |} = None
  /\ generateSessionId "17" "ab"
       {| ss_item := None; ss_denied := false; ss_full := true |} = None.
Proof. repeat split; reflexivity. Qed.
